(** * Bitwise.exe: flood detection, blocking, traffic analysis and ETL

    A shallow embedding of the Python sources

      - [Backend/syn_detector.py]                       ([SYNDetector])
      - [network_monitoring/backend/firewall_manager.py] ([FirewallManager])
      - [network_monitoring/backend/packet_analyzer.py]  ([PacketAnalyzer])
      - [network_monitoring/backend/etl_pipeline.py]     ([ETLPipeline])

    Conventions.  Python dictionaries are finite maps ([gmap]); a
    [defaultdict(list)] is read with the default [[]].  Wall-clock readings
    ([time.time()], [datetime.now()]) are inputs of the functions that take
    them: a timestamp is a rational number of seconds, as are the durations
    [window_seconds] and [block_duration] (the rounding of Python's floats
    is not modelled).  Exceptions are
    [None] in an [option]; a [try ... except] is a [match] on it. *)

From stdpp Require Import base gmap list strings fin_maps.
From Stdlib Require Import ZArith QArith Lia Lqa.

(** Order tests on clock readings are decidable. *)
#[global] Instance Qle_dec (x y : Q) : Decision (x <= y)%Q.
Proof. destruct (Qlt_le_dec y x); [right; lra | left; lra]. Defined.

#[global] Instance Qlt_dec (x y : Q) : Decision (x < y)%Q.
Proof. destruct (Qlt_le_dec x y); [left; lra | right; lra]. Defined.

(** ** Backend/syn_detector.py *)

Module SYNDetector.

(** The object's fields.  [blocked_ips] maps an address to its unblock
    time. *)
Record t := Build {
  threshold : Z;
  window_seconds : Q;
  syn_packets : gmap string (list Q);
  blocked_ips : gmap string Q
}.

(** [__init__(threshold=5, window_seconds=2)] *)
Definition init (threshold : Z) (window_seconds : Q) : t :=
  Build threshold window_seconds ∅ ∅.

(** The dictionary returned by [check_syn_flood] (the formatted
    ['timestamp'] of the positive answer is left out). *)
Record result := Result {
  is_attack : bool;
  source_ip : string;
  packet_count : nat;
  window : Q
}.

(** [self.syn_packets[src_ip]] on a [defaultdict(list)]. *)
Definition window_of (d : t) (src_ip : string) : list Q :=
  default [] (syn_packets d !! src_ip).

Definition _cleanup_old_packets (d : t) (src_ip : string) (current_time : Q) : t :=
  let window_start := (current_time - window_seconds d)%Q in
  Build (threshold d) (window_seconds d)
        (<[src_ip := filter (λ timestamp, (window_start <= timestamp)%Q)
                            (window_of d src_ip)]> (syn_packets d))
        (blocked_ips d).

(** [current_time] is the reading of [time.time()] taken on entry. *)
Definition check_syn_flood (d : t) (src_ip : string) (current_time : Q)
  : t * result :=
  let d := _cleanup_old_packets d src_ip current_time in
  let d := Build (threshold d) (window_seconds d)
                 (<[src_ip := window_of d src_ip ++ [current_time]]> (syn_packets d))
                 (blocked_ips d) in
  let packet_count := length (window_of d src_ip) in
  if bool_decide (threshold d <= Z.of_nat packet_count)%Z then
    (d, Result true src_ip packet_count (window_seconds d))
  else
    (d, Result false src_ip packet_count (window_seconds d)).

(** [is_blocked], on the detector's own block table. *)
Definition is_blocked (d : t) (ip_address : string) (now : Q) : t * bool :=
  match blocked_ips d !! ip_address with
  | Some unblock_time =>
      if bool_decide (now < unblock_time)%Q then (d, true)
      else (Build (threshold d) (window_seconds d) (syn_packets d)
                  (delete ip_address (blocked_ips d)), false)
  | None => (d, false)
  end.

Definition reset_detection (d : t) (ip_address : string) : t :=
  Build (threshold d) (window_seconds d)
        (delete ip_address (syn_packets d)) (blocked_ips d).

(** A caller's sequence of observations: one call per (address, clock
    reading), in order; the answers are collected in call order. *)
Fixpoint observe (d : t) (calls : list (string * Q)) : t * list result :=
  match calls with
  | [] => (d, [])
  | (src_ip, now) :: calls =>
      let '(d, r) := check_syn_flood d src_ip now in
      let '(d, rs) := observe d calls in
      (d, r :: rs)
  end.

(** The clock readings of the calls made for one address. *)
Definition times_of (A : string) (calls : list (string * Q)) : list Q :=
  snd <$> filter (λ c, c.1 = A) calls.

(** The answers given for one address. *)
Definition answers_for (A : string) (rs : list result) : list result :=
  filter (λ r, source_ip r = A) rs.

(** Every earlier reading is still inside the window at every later
    reading. *)
Fixpoint within_window (w : Q) (ts : list Q) : Prop :=
  match ts with
  | [] => True
  | t :: ts => Forall (λ t', (t' - w <= t)%Q) ts ∧ within_window w ts
  end.




(** [get_remaining_block_time]: [max(0, remaining)]; the table is only
    read. *)
Definition get_remaining_block_time (d : t) (ip_address : string) (now : Q) : Q :=
  match blocked_ips d !! ip_address with
  | Some unblock_time =>
      let remaining := (unblock_time - now)%Q in
      if bool_decide (0 < remaining)%Q then remaining else 0%Q
  | None => 0%Q
  end.

(** A call of one of the detector's methods, and the state it leaves. *)
Inductive call :=
| CheckSynFlood (src_ip : string) (now : Q)
| IsBlocked (ip_address : string) (now : Q)
| GetRemainingBlockTime (ip_address : string) (now : Q)
| ResetDetection (ip_address : string).

Definition do_call (d : t) (c : call) : t :=
  match c with
  | CheckSynFlood src_ip now => (check_syn_flood d src_ip now).1
  | IsBlocked ip_address now => (is_blocked d ip_address now).1
  | GetRemainingBlockTime _ _ => d
  | ResetDetection ip_address => reset_detection d ip_address
  end.

Definition do_calls (d : t) (cs : list call) : t := foldl do_call d cs.

End SYNDetector.

(** ** network_monitoring/backend/firewall_manager.py *)

(** [int(x)] on a number: truncation towards zero. *)
Definition int_of_Q (x : Q) : Z := Z.quot (Qnum x) (Zpos (Qden x)).

Module FirewallManager.

(** The value stored for a blocked address (the two ISO-formatted
    copies of the times are left out). *)
Record block_info := BlockInfo {
  blocked_at : Q;
  unblock_time : Q
}.

Record t := Build {
  block_duration : Q;
  blocked_ips : gmap string block_info
}.

(** [__init__(block_duration_minutes=10)] *)
Definition init (block_duration_minutes : Q) : t :=
  Build (block_duration_minutes * 60)%Q ∅.

Record block_result := BlockResult {
  status : string;
  ip_address : string;
  br_blocked_at : Q;
  br_unblock_at : Q;
  duration_minutes : Q
}.

Definition block_ip (f : t) (ip_address : string) (current_time : Q)
  : t * block_result :=
  let unblock_time := (current_time + block_duration f)%Q in
  (Build (block_duration f)
         (<[ip_address := BlockInfo current_time unblock_time]> (blocked_ips f)),
   BlockResult "blocked" ip_address current_time unblock_time
               (block_duration f / 60)%Q).

(** Returns the ['status'] of the answer. *)
Definition unblock_ip (f : t) (ip_address : string) : t * string :=
  match blocked_ips f !! ip_address with
  | Some _ => (Build (block_duration f) (delete ip_address (blocked_ips f)),
               "unblocked")
  | None => (f, "not_blocked")
  end.

Definition manual_unblock (f : t) (ip_address : string) : t * string :=
  unblock_ip f ip_address.

(** [now] is the reading of [time.time()]. *)
Definition is_blocked (f : t) (ip_address : string) (now : Q) : t * bool :=
  match blocked_ips f !! ip_address with
  | Some info =>
      if bool_decide (unblock_time info <= now)%Q then
        (Build (block_duration f) (delete ip_address (blocked_ips f)), false)
      else (f, true)
  | None => (f, false)
  end.

Record active_block := ActiveBlock {
  ab_ip_address : string;
  ab_blocked_at : Q;
  ab_unblock_at : Q;
  remaining_seconds : Z
}.

(** The listing follows the order of [map_to_list], not Python's
    insertion order. *)
Definition get_blocked_ips (f : t) (current_time : Q) : t * list active_block :=
  let entries := map_to_list (blocked_ips f) in
  let expired_ips :=
    (filter (λ e, (unblock_time e.2 <= current_time)%Q) entries).*1 in
  let active_blocks :=
    (λ e, ActiveBlock e.1 (blocked_at e.2) (unblock_time e.2)
                      (int_of_Q (unblock_time e.2 - current_time)))
      <$> filter (λ e, ¬ (unblock_time e.2 <= current_time)%Q) entries in
  (Build (block_duration f)
         (foldr (λ ip m, delete ip m) (blocked_ips f) expired_ips),
   active_blocks).

Definition check_and_unblock_expired (f : t) (current_time : Q) : t * nat :=
  let entries := map_to_list (blocked_ips f) in
  let expired_ips :=
    (filter (λ e, (unblock_time e.2 <= current_time)%Q) entries).*1 in
  (Build (block_duration f)
         (foldr (λ ip m, delete ip m) (blocked_ips f) expired_ips),
   length expired_ips).

(** A call of one of the manager's methods, and the state it leaves. *)
Inductive call :=
| BlockIp (ip_address : string) (now : Q)
| UnblockIp (ip_address : string)
| IsBlocked (ip_address : string) (now : Q)
| GetBlockedIps (now : Q)
| CheckAndUnblockExpired (now : Q).

Definition do_call (f : t) (c : call) : t :=
  match c with
  | BlockIp ip_address now => (block_ip f ip_address now).1
  | UnblockIp ip_address => (unblock_ip f ip_address).1
  | IsBlocked ip_address now => (is_blocked f ip_address now).1
  | GetBlockedIps now => (get_blocked_ips f now).1
  | CheckAndUnblockExpired now => (check_and_unblock_expired f now).1
  end.

Definition do_calls (f : t) (cs : list call) : t := foldl do_call f cs.

End FirewallManager.

(** ** Decoded packets (scapy)

    A packet as the sources use it: [L in packet] is [is_Some] of the
    layer, [packet[L]] the layer itself, [len(packet)] its size and
    [packet.time] its capture time. *)

Module Scapy.

Record Ether := MkEther { ether_src : string; ether_dst : string; ether_type : Z }.
Record IP := MkIP { ip_src : string; ip_dst : string }.
Record TCP := MkTCP { tcp_flags : Z; tcp_sport : Z; tcp_dport : Z }.
Record UDP := MkUDP { udp_sport : Z; udp_dport : Z }.
Record ICMP := MkICMP { icmp_type : Z; icmp_code : Z }.
Record ARP := MkARP { hwsrc : string; hwdst : string; psrc : string; pdst : string }.

Record packet := Packet {
  time : Q;
  len : nat;
  ether : option Ether;
  ip : option IP;
  tcp : option TCP;
  udp : option UDP;
  icmp : option ICMP;
  arp : option ARP
}.

(** [L in packet] *)
Definition has_layer {L : Type} (l : option L) : bool :=
  match l with Some _ => true | None => false end.

End Scapy.

(** ** network_monitoring/backend/attack_classifier.py *)

Module AttackClassifier.

Record attack_info := AttackInfo {
  classification : string;
  confidence : Z;
  description : string;
  impact : string;
  mitigation : string
}.

(** The static table used when the model is unavailable or fails. *)
Definition _default_classification (attack_type source_ip : string) : attack_info :=
  if String.eqb attack_type "SYN Flood" then
    AttackInfo "Denial of Service (DoS) - SYN Flood" 90
      ("SYN Flood attack detected from " +:+ source_ip +:+
       ". Multiple SYN packets sent in short time window indicating TCP handshake abuse.")
      "Server resource exhaustion, service unavailability"
      "Block source IP, implement SYN cookies, rate limiting"
  else if String.eqb attack_type "UDP Flood" then
    AttackInfo "Denial of Service (DoS) - UDP Flood" 85
      ("UDP Flood attack detected from " +:+ source_ip +:+
       ". High volume of UDP packets targeting network services.")
      "Bandwidth exhaustion, service disruption"
      "Rate limiting, firewall rules, traffic filtering"
  else
    AttackInfo "Suspicious Network Activity" 70
      ("Detected " +:+ attack_type +:+ " from " +:+ source_ip)
      "Potential security risk"
      "Monitor and block if necessary".

(** [classify_attack] never raises: every failure of the remote model
    ends in [_default_classification].  What the remote model answers is
    not determined by the program, so a classifier is any function of
    this type. *)
Definition t : Type := string → string → Scapy.packet → attack_info.

(** The classifier without an API key ([self.model] is [None]). *)
Definition offline : t :=
  λ attack_type source_ip _, _default_classification attack_type source_ip.

(** *** The remote model

    [self.model.generate_content(prompt)] is outside the program.  What
    matters of its answer is whether the call raises and, if not, what
    [_parse_classification] finds in the text: no pair of braces, a
    bracketed part that [json.loads] refuses, or an object, of which the
    five keys read with [.get] may each be absent. *)

Record parsed := Parsed {
  p_classification : option string;
  p_confidence : option Z;
  p_description : option string;
  p_impact : option string;
  p_mitigation : option string
}.

Inductive response_text :=
| NoJsonObject
| MalformedJson
| JsonObject (fields : parsed).

Inductive reply :=
| Raises
| Answers (text : response_text).

(** A model: its reply to the prompt made from an attack type and a
    source address. *)
Definition model : Type := string → string → reply.

(** [_parse_classification].  Outside the one successful path it ends in
    [return self._default_classification(attack_type, source_ip)], where
    [source_ip] is not a name of this function: a [NameError], [inl]. *)
Definition _parse_classification (text : response_text) (attack_type : string)
  : string + attack_info :=
  match text with
  | JsonObject fields =>
      inr (AttackInfo
             (default attack_type (p_classification fields))
             (default 75%Z (p_confidence fields))
             (default ("Detected " +:+ attack_type +:+ " attack")
                      (p_description fields))
             (default "Potential service disruption" (p_impact fields))
             (default "Block source IP" (p_mitigation fields)))
  | NoJsonObject | MalformedJson => inl "name 'source_ip' is not defined"
  end.

(** [classify_attack], for a classifier whose [self.model] is [m]. *)
Definition classify_attack (m : option model) : t :=
  λ attack_type source_ip _,
    match m with
    | None => _default_classification attack_type source_ip
    | Some generate_content =>
        match generate_content attack_type source_ip with
        | Raises => _default_classification attack_type source_ip
        | Answers text =>
            match _parse_classification text attack_type with
            | inr info => info
            | inl _ => _default_classification attack_type source_ip
            end
        end
    end.

(** A model that is absent or never answers with a JSON object. *)
Definition unusable (m : option model) : Prop :=
  match m with
  | None => True
  | Some generate_content =>
      ∀ attack_type source_ip fields,
        generate_content attack_type source_ip ≠ Answers (JsonObject fields)
  end.

End AttackClassifier.

(** ** network_monitoring/backend/packet_analyzer.py *)

Module PacketAnalyzer.
Import Scapy.

(** An entry of [self.connections[src_ip]]. *)
Record connection := Connection {
  conn_dst_ip : string;
  conn_timestamp : Q;
  conn_protocol : string
}.

(** The dictionary handed to [firestore_logger.log_attack]. *)
Record attack_log := AttackLog {
  log_timestamp : Q;
  attack_type : string;
  log_source_ip : string;
  log_destination_ip : string;
  log_classification : string;
  log_confidence : Z;
  log_description : string;
  (** ['packet_details']: size and flags, present for SYN floods only *)
  packet_details : option (nat * Z)
}.

(** The analyzer and the four collaborators it owns.  The logger is the
    list of the dictionaries passed to [log_attack], oldest first:
    [log_attack] swallows its own failures and always records the
    entry. *)
Record t := Build {
  syn_detector : SYNDetector.t;
  attack_classifier : AttackClassifier.t;
  firewall_manager : FirewallManager.t;
  firestore_logger : list attack_log;
  connections : gmap string (list connection);
  packet_count : nat;
  attack_count : nat
}.

Definition init (syn_detector : SYNDetector.t)
    (attack_classifier : AttackClassifier.t)
    (firewall_manager : FirewallManager.t)
    (firestore_logger : list attack_log) : t :=
  Build syn_detector attack_classifier firewall_manager firestore_logger ∅ 0 0.

(** The [results] dictionary of one [analyze_pcap] call (its
    ['connections'] listing, formatted at the end of the call, is left
    out). *)
Record results := Results {
  total_packets : nat;
  analyzed_packets : nat;
  attacks_detected : nat;
  blocked_ips : list string;
  attack_types : gmap string nat
}.

(** The clock as one packet's processing reads it: [datetime.now()] on
    entry, [time.time()] inside [check_syn_flood], [time.time()] inside
    [block_ip]. *)
Record clock := Clock {
  now_dt : Q;
  now_check : Q;
  now_block : Q
}.

Definition _get_protocol (p : packet) : string :=
  if has_layer (tcp p) then "TCP"
  else if has_layer (udp p) then "UDP"
  else if has_layer (icmp p) then "ICMP"
  else "OTHER".

(** [self.connections[src_ip]] on a [defaultdict(list)]. *)
Definition connections_of (a : t) (src_ip : string) : list connection :=
  default [] (connections a !! src_ip).

Definition _detect_udp_flood (a : t) (src_ip : string) : bool :=
  let recent_packets :=
    filter (λ p, conn_protocol p = "UDP") (connections_of a src_ip) in
  bool_decide (10 < length recent_packets)%nat.

(** [results['attack_types'][k] += 1] on a [defaultdict(int)]. *)
Definition bump (k : string) (m : gmap string nat) : gmap string nat :=
  <[k := S (default 0%nat (m !! k))]> m.

(** The test [TCP in packet and packet[TCP].flags == 0x02]. *)
Definition is_syn_packet (p : packet) : bool :=
  match tcp p with
  | Some l => bool_decide (tcp_flags l = 2%Z)
  | None => false
  end.

(** The dictionary logged for a SYN flood: the classifier is asked first,
    then the entry is built from its answer and the packet. *)
Definition syn_flood_entry (classify : AttackClassifier.t) (p : packet)
    (timestamp : Q) (src_ip dst_ip : string) : attack_log :=
  let attack_info := classify "SYN Flood" src_ip p in
  AttackLog timestamp "SYN Flood" src_ip dst_ip
            (AttackClassifier.classification attack_info)
            (AttackClassifier.confidence attack_info)
            (AttackClassifier.description attack_info)
            (Some (len p, default 0%Z (tcp_flags <$> tcp p))).

(** The dictionary logged for a UDP flood. *)
Definition udp_flood_entry (classify : AttackClassifier.t) (p : packet)
    (timestamp : Q) (src_ip dst_ip : string) : attack_log :=
  let attack_info := classify "UDP Flood" src_ip p in
  AttackLog timestamp "UDP Flood" src_ip dst_ip
            (AttackClassifier.classification attack_info)
            (AttackClassifier.confidence attack_info)
            (AttackClassifier.description attack_info)
            None.

(** The body of [_process_packet]; no statement after the first can
    raise, and the first raises only on a packet without an IP layer,
    which the handler turns into a skip. *)
Definition _process_packet (a : t) (p : packet) (c : clock) (r : results)
  : t * results :=
  match ip p with
  | None => (a, r)
  | Some ip_layer =>
      let src_ip := ip_src ip_layer in
      let dst_ip := ip_dst ip_layer in
      let timestamp := now_dt c in
      let r := Results (total_packets r) (S (analyzed_packets r))
                       (attacks_detected r) (blocked_ips r) (attack_types r) in
      let a := Build (syn_detector a) (attack_classifier a) (firewall_manager a)
                     (firestore_logger a)
                     (<[src_ip := connections_of a src_ip
                                  ++ [Connection dst_ip timestamp (_get_protocol p)]]>
                        (connections a))
                     (packet_count a) (attack_count a) in
      if is_syn_packet p then
        let '(d, syn_result) :=
          SYNDetector.check_syn_flood (syn_detector a) src_ip (now_check c) in
        let a := Build d (attack_classifier a) (firewall_manager a)
                       (firestore_logger a) (connections a)
                       (packet_count a) (attack_count a) in
        if SYNDetector.is_attack syn_result then
          let r := Results (total_packets r) (analyzed_packets r)
                           (S (attacks_detected r)) (blocked_ips r)
                           (bump "SYN Flood" (attack_types r)) in
          let entry := syn_flood_entry (attack_classifier a) p timestamp src_ip dst_ip in
          let a := Build (syn_detector a) (attack_classifier a) (firewall_manager a)
                         (firestore_logger a ++ [entry]) (connections a)
                         (packet_count a) (S (attack_count a)) in
          if bool_decide (src_ip ∈ blocked_ips r) then (a, r)
          else
            let '(f, _) :=
              FirewallManager.block_ip (firewall_manager a) src_ip (now_block c) in
            (Build (syn_detector a) (attack_classifier a) f
                   (firestore_logger a) (connections a)
                   (packet_count a) (attack_count a),
             Results (total_packets r) (analyzed_packets r)
                     (attacks_detected r) (blocked_ips r ++ [src_ip])
                     (attack_types r))
        else (a, r)
      else if has_layer (udp p) then
        if _detect_udp_flood a src_ip then
          let r := Results (total_packets r) (analyzed_packets r)
                           (S (attacks_detected r)) (blocked_ips r)
                           (bump "UDP Flood" (attack_types r)) in
          let entry := udp_flood_entry (attack_classifier a) p timestamp src_ip dst_ip in
          (Build (syn_detector a) (attack_classifier a) (firewall_manager a)
                 (firestore_logger a ++ [entry]) (connections a)
                 (packet_count a) (S (attack_count a)), r)
        else (a, r)
      else (a, r)
  end.

(** The loop of [analyze_pcap] over the packets that have an IP layer. *)
Fixpoint process_all (a : t) (ps : list (packet * clock)) (r : results)
  : t * results :=
  match ps with
  | [] => (a, r)
  | (p, c) :: ps =>
      let '(a, r) := if has_layer (ip p) then _process_packet a p c r else (a, r) in
      process_all a ps r
  end.

(** [analyze_pcap]; [ps] is what [rdpcap(filepath)] read, each packet
    paired with the clock readings of its processing. *)
Definition analyze_pcap (a : t) (ps : list (packet * clock)) : t * results :=
  let r := Results (length ps) 0 0 [] ∅ in
  let '(a, r) := process_all a ps r in
  (a, Results (total_packets r) (analyzed_packets r) (attack_count a)
              (blocked_ips r) (attack_types r)).

(** The entries logged by a run: what the logger holds beyond what it
    held before. *)
Definition logged_by (before after : t) : list attack_log :=
  drop (length (firestore_logger before)) (firestore_logger after).

(** The analyzer as [app.py] wires it: [SYNDetector()],
    [FirewallManager()], a classifier without an API key and an empty
    log. *)
Definition app_analyzer : t :=
  init (SYNDetector.init 5 2) AttackClassifier.offline (FirewallManager.init 10) [].

(** *** Vocabulary of the statements about the analyzer *)

(** A packet from [src] to [dst] that passes the analyzer's SYN test. *)
Definition syn_from (src dst : string) (pc : packet * clock) : Prop :=
  ip pc.1 = Some (MkIP src dst) ∧ is_syn_packet pc.1 = true.

(** The readings of the detector's clock over a run. *)
Definition check_times (ps : list (packet * clock)) : list Q :=
  (λ pc, now_check pc.2) <$> ps.

(** The entry logged for a SYN packet from [src] to [dst]. *)
Definition syn_event (classify : AttackClassifier.t) (src dst : string)
    (pc : packet * clock) : attack_log :=
  syn_flood_entry classify pc.1 (now_dt pc.2) src dst.

(** The number of stored connections of [src] recorded as UDP: the count
    [_detect_udp_flood] compares with 10. *)
Definition udp_seen (a : t) (src : string) : nat :=
  length (filter (λ p, conn_protocol p = "UDP") (connections_of a src)).

(** A packet with an IP layer from [src] that [_get_protocol] calls UDP. *)
Definition is_udp_from (src : string) (pc : packet * clock) : Prop :=
  (ip_src <$> ip pc.1) = Some src ∧ _get_protocol pc.1 = "UDP".

#[global] Instance is_udp_from_dec src pc : Decision (is_udp_from src pc).
Proof. unfold is_udp_from. apply _. Defined.

(** *** The connection listing *)

(** An entry of the listing sent to the front end. *)
Record formatted := Formatted {
  fc_source : string;
  fc_destination : string;
  fc_timestamp : Q;
  fc_protocol : string
}.

(** [_format_connections]; [items] is [list(self.connections.items())],
    the sources with their connections in the dictionary's order. *)
Definition _format_connections (items : list (string * list connection))
  : list formatted :=
  item ← take 50 items;
  (λ conn, Formatted item.1 (conn_dst_ip conn) (conn_timestamp conn)
                     (conn_protocol conn)) <$> take 10 item.2.

Definition get_connections (items : list (string * list connection))
  : list formatted :=
  _format_connections items.

(** The connection that [_process_packet] stores for a packet of [src],
    if the packet has an IP layer and comes from [src]. *)
Definition connection_from (src : string) (pc : packet * clock)
  : option connection :=
  match ip pc.1 with
  | Some l =>
      if decide (ip_src l = src)
      then Some (Connection (ip_dst l) (now_dt pc.2) (_get_protocol pc.1))
      else None
  | None => None
  end.

(** The number of logged entries of one attack type. *)
Definition count_type (k : string) (log : list attack_log) : nat :=
  length (filter (λ e, attack_type e = k) log).

End PacketAnalyzer.

(** ** network_monitoring/backend/etl_pipeline.py *)

Module ETLPipeline.
Import Scapy.

(** [self.stats] *)
Record stats := Stats {
  total_packets : nat;
  processed_packets : nat;
  failed_packets : nat;
  connections_created : nat;
  attacks_detected : nat;
  start_time : option Q;
  end_time : option Q
}.

(** [__init__] *)
Definition init : stats := Stats 0 0 0 0 0 None None.

(** *** Extract *)

(** [s.endswith(suffix)] *)
Definition endswith (s suffix : string) : bool :=
  let n := String.length s in
  let k := String.length suffix in
  bool_decide (k ≤ n)%nat && String.eqb (String.substring (n - k) k s) suffix.

Definition is_capture_name (f : string) : bool :=
  endswith f ".pcap" || endswith f ".pcapng".

(** What [rdpcap] does on a path: the packets it reads, or the message of
    the exception it raises. *)
Definition capture : Type := string + list packet.

(** What the file system holds at a path: a regular file, or a directory
    with its entries in [os.listdir] order. *)
Inductive node :=
| File (content : capture)
| Dir (entries : list (string * capture)).

Definition filesystem : Type := string → option node.

(** [rdpcap] over the capture files of a directory, in order; the first
    failure is raised. *)
Fixpoint read_all (files : list (string * capture)) (packets : list packet)
  : string + list packet :=
  match files with
  | [] => inr packets
  | (_, inl e) :: _ => inl e
  | (_, inr file_packets) :: files => read_all files (packets ++ file_packets)
  end.

(** [extract]; [now] is the reading of [datetime.now()].  The state is
    returned on both outcomes: [start_time] is set before anything can
    raise, [total_packets] only on success. *)
Definition extract (fs : filesystem) (st : stats) (source : string) (now : Q)
  : stats * (string + list packet) :=
  let st := Stats (total_packets st) (processed_packets st) (failed_packets st)
                  (connections_created st) (attacks_detected st)
                  (Some now) (end_time st) in
  let outcome :=
    match fs source with
    | Some (File content) =>
        if is_capture_name source then content
        else inl ("Unsupported file format: " +:+ source)
    | Some (Dir entries) =>
        let pcap_files := filter (λ e, is_capture_name e.1 = true) entries in
        match pcap_files with
        | [] => inl ("No PCAP files found in directory: " +:+ source)
        | _ => read_all pcap_files []
        end
    | None => inl ("Source path does not exist: " +:+ source)
    end in
  match outcome with
  | inr packets =>
      (Stats (length packets) (processed_packets st) (failed_packets st)
             (connections_created st) (attacks_detected st)
             (start_time st) (end_time st), inr packets)
  | inl e => (st, inl e)
  end.

(** *** Transform *)

Record flag_bits := FlagBits {
  syn : bool; ack : bool; fin : bool; rst : bool; psh : bool; urg : bool
}.

(** [bool(flags & mask)] *)
Definition flag_set (flags mask : Z) : bool := negb (Z.land flags mask =? 0)%Z.

(** The record a packet is decoded to.  An absent key is [None].  The
    keys that no later step reads ([raw_size], [ether_type],
    [ip_version], [ip_ttl], [ip_proto], [ip_len], [tcp_seq], [tcp_ack],
    [tcp_window], [udp_len], [icmp_type], [icmp_code], [arp_op]) are left
    out. *)
Record packet_data := PacketData {
  packet_index : nat;
  timestamp : Q;
  packet_size : nat;
  src_mac : option string;
  dst_mac : option string;
  src_ip : option string;
  dst_ip : option string;
  protocol : string;
  src_port : option Z;
  dst_port : option Z;
  tcp_flags : option flag_bits
}.

(** [datetime.fromtimestamp] accepts the years 1 to 9999 and raises
    outside them (the bounds are those of UTC; a local zone moves them by
    less than a day). *)
Definition fromtimestamp (t : Q) : option Q :=
  if bool_decide (-62135596800 <= t)%Q && bool_decide (t < 253402300800)%Q
  then Some t else None.

(** [_transform_packet]: [None] is the value returned from its own
    exception handler. *)
Definition _transform_packet (p : packet) (index : nat) : option packet_data :=
  match fromtimestamp (time p) with
  | None => None
  | Some ts =>
      let src_mac := ether_src <$> ether p in
      let dst_mac := ether_dst <$> ether p in
      match ip p with
      | Some ip_layer =>
          let src := Some (ip_src ip_layer) in
          let dst := Some (ip_dst ip_layer) in
          match tcp p, udp p, icmp p, arp p with
          | Some l, _, _, _ =>
              Some (PacketData index ts (len p) src_mac dst_mac src dst "TCP"
                      (Some (Scapy.tcp_sport l)) (Some (Scapy.tcp_dport l))
                      (Some (FlagBits (flag_set (Scapy.tcp_flags l) 2)
                                      (flag_set (Scapy.tcp_flags l) 16)
                                      (flag_set (Scapy.tcp_flags l) 1)
                                      (flag_set (Scapy.tcp_flags l) 4)
                                      (flag_set (Scapy.tcp_flags l) 8)
                                      (flag_set (Scapy.tcp_flags l) 32))))
          | None, Some l, _, _ =>
              Some (PacketData index ts (len p) src_mac dst_mac src dst "UDP"
                      (Some (udp_sport l)) (Some (udp_dport l)) None)
          | None, None, Some _, _ =>
              Some (PacketData index ts (len p) src_mac dst_mac src dst "ICMP"
                      None None None)
          | None, None, None, Some l =>
              Some (PacketData index ts (len p) (Some (hwsrc l)) (Some (hwdst l))
                      (Some (psrc l)) (Some (pdst l)) "ARP" None None None)
          | None, None, None, None =>
              Some (PacketData index ts (len p) src_mac dst_mac src dst "OTHER"
                      None None None)
          end
      | None =>
          Some (PacketData index ts (len p) src_mac dst_mac None None "NON-IP"
                  None None None)
      end
  end.

(** A value of the [ip_stats] table.  The two attack counters are keys
    that [_detect_attacks] adds; they are [None] until then. *)
Record ip_entry := IpEntry {
  ie_packet_count : nat;
  bytes_sent : nat;
  bytes_received : nat;
  protocols : gset string;
  ports : gset Z;
  first_seen : option Q;
  last_seen : option Q;
  syn_packet_count : option nat;
  udp_packet_count : option nat
}.

Inductive direction := src | dst.

Definition add_port (o : option Z) (s : gset Z) : gset Z :=
  match o with Some x => {[x]} ∪ s | None => s end.

(** A Python string used as a condition: [None] and [''] are false. *)
Definition truthy (o : option string) : option string :=
  match o with
  | Some s => if String.eqb s "" then None else Some s
  | None => None
  end.

Definition _update_ip_stats (ip_stats : gmap string ip_entry)
    (pd : packet_data) (d : direction) : gmap string ip_entry :=
  match truthy (match d with src => src_ip pd | dst => dst_ip pd end) with
  | None => ip_stats
  | Some ip_key =>
      let e := default (IpEntry 0 0 0 ∅ ∅ (Some (timestamp pd)) (Some (timestamp pd))
                                None None)
                       (ip_stats !! ip_key) in
      let e := IpEntry (S (ie_packet_count e))
                 (match d with src => bytes_sent e + packet_size pd
                             | dst => bytes_sent e end)
                 (match d with src => bytes_received e
                             | dst => bytes_received e + packet_size pd end)
                 ({[protocol pd]} ∪ protocols e)
                 (add_port (match d with src => src_port pd | dst => dst_port pd end)
                           (ports e))
                 (match first_seen e with
                  | Some t => Some t | None => Some (timestamp pd) end)
                 (Some (timestamp pd))
                 (syn_packet_count e) (udp_packet_count e) in
      <[ip_key := e]> ip_stats
  end.

Definition _get_connection_key (src_ip dst_ip protocol : string) : string :=
  src_ip +:+ ":" +:+ dst_ip +:+ ":" +:+ protocol.

Record connection := Connection {
  c_src_ip : string;
  c_dst_ip : string;
  c_protocol : string;
  c_packet_count : nat;
  bytes_transferred : nat;
  c_first_seen : Q;
  c_last_seen : Q;
  c_src_port : option Z;
  c_dst_port : option Z
}.

(** An attack record (its ['details'] repeat the protocol, the
    destination port and the flags of the packet). *)
Record attack := Attack {
  attack_type : string;
  source_ip : string;
  destination_ip : option string;
  severity : string;
  a_packet_count : nat;
  a_timestamp : Q;
  a_port : option Z;
  a_flags : option flag_bits
}.

Definition set_syn (e : ip_entry) (n : nat) : ip_entry :=
  IpEntry (ie_packet_count e) (bytes_sent e) (bytes_received e) (protocols e)
          (ports e) (first_seen e) (last_seen e) (Some n) (udp_packet_count e).

Definition set_udp (e : ip_entry) (n : nat) : ip_entry :=
  IpEntry (ie_packet_count e) (bytes_sent e) (bytes_received e) (protocols e)
          (ports e) (first_seen e) (last_seen e) (syn_packet_count e) (Some n).

(** The test [tcp_flags.get('syn') and not tcp_flags.get('ack')], with
    [{}] for absent flags. *)
Definition syn_without_ack (pd : packet_data) : bool :=
  match tcp_flags pd with
  | Some fl => syn fl && negb (ack fl)
  | None => false
  end.

Definition _detect_attacks (pd : packet_data) (ip_stats : gmap string ip_entry)
  : gmap string ip_entry * option attack :=
  match truthy (src_ip pd) with
  | None => (ip_stats, None)
  | Some src_ip =>
      if String.eqb (protocol pd) "TCP" then
        if syn_without_ack pd then
          match ip_stats !! src_ip with
          | Some e =>
              let syn_count := (default 0 (syn_packet_count e) + 1)%nat in
              (<[src_ip := set_syn e syn_count]> ip_stats,
               if bool_decide (5 < syn_count)%nat then
                 Some (Attack "SYN Flood" src_ip (dst_ip pd) "high" syn_count
                              (timestamp pd) (dst_port pd) (tcp_flags pd))
               else None)
          | None => (ip_stats, None)
          end
        else (ip_stats, None)
      else if String.eqb (protocol pd) "UDP" then
        match ip_stats !! src_ip with
        | Some e =>
            let udp_count := (default 0 (udp_packet_count e) + 1)%nat in
            (<[src_ip := set_udp e udp_count]> ip_stats,
             if bool_decide (100 < udp_count)%nat then
               Some (Attack "UDP Flood" src_ip (dst_ip pd) "medium" udp_count
                            (timestamp pd) (dst_port pd) None)
             else None)
        | None => (ip_stats, None)
        end
      else (ip_stats, None)
  end.

(** The output of [transform].  ['connections'] lists the values of the
    connection map in the order of [map_to_list], not Python's insertion
    order. *)
Record transformed_data := TransformedData {
  td_packets : list packet_data;
  td_connections : list connection;
  td_attacks : list attack;
  ip_statistics : gmap string ip_entry
}.

(** What the loop of [transform] carries from packet to packet. *)
Record loop_state := LoopState {
  ls_stats : stats;
  ls_packets : list packet_data;
  ls_attacks : list attack;
  connections_map : gmap string connection;
  ip_stats : gmap string ip_entry
}.

Definition track_connection (st : stats) (m : gmap string connection)
    (pd : packet_data) : stats * gmap string connection :=
  match src_ip pd, dst_ip pd with
  | Some s, Some d =>
      let conn_key := _get_connection_key s d (protocol pd) in
      let '(st, c) :=
        match m !! conn_key with
        | Some c => (st, c)
        | None =>
            (Stats (total_packets st) (processed_packets st) (failed_packets st)
                   (S (connections_created st)) (attacks_detected st)
                   (start_time st) (end_time st),
             Connection s d (protocol pd) 0 0 (timestamp pd) (timestamp pd)
                        (src_port pd) (dst_port pd))
        end in
      (st, <[conn_key := Connection (c_src_ip c) (c_dst_ip c) (c_protocol c)
                           (S (c_packet_count c))
                           (bytes_transferred c + packet_size pd)
                           (c_first_seen c) (timestamp pd)
                           (c_src_port c) (c_dst_port c)]> m)
  | _, _ => (st, m)
  end.

(** The two guarded calls of [_update_ip_stats], for the source and for
    the destination of a record. *)
Definition update_both (ips : gmap string ip_entry) (pd : packet_data)
  : gmap string ip_entry :=
  let ips := if src_ip pd is Some _ then _update_ip_stats ips pd src else ips in
  if dst_ip pd is Some _ then _update_ip_stats ips pd dst else ips.

(** One iteration of the loop of [transform].  On a decoded record no
    statement of the body raises, so the handler of the loop (the only
    place that adds to [failed_packets]) is never entered; a record that
    [_transform_packet] gave up on is [None] and falls through the
    [if packet_data:] without an [else]. *)
Definition transform_step (ls : loop_state) (p : packet) (idx : nat)
  : loop_state :=
  match _transform_packet p idx with
  | Some pd =>
      let st := ls_stats ls in
      let st := Stats (total_packets st) (S (processed_packets st))
                      (failed_packets st) (connections_created st)
                      (attacks_detected st) (start_time st) (end_time st) in
      let ips := update_both (ip_stats ls) pd in
      let '(st, m) := track_connection st (connections_map ls) pd in
      let '(ips, attack_data) := _detect_attacks pd ips in
      match attack_data with
      | Some a =>
          LoopState
            (Stats (total_packets st) (processed_packets st) (failed_packets st)
                   (connections_created st) (S (attacks_detected st))
                   (start_time st) (end_time st))
            (ls_packets ls ++ [pd]) (ls_attacks ls ++ [a]) m ips
      | None => LoopState st (ls_packets ls ++ [pd]) (ls_attacks ls) m ips
      end
  | None => ls
  end.

(** [for idx, packet in enumerate(packets)], from index [idx] on. *)
Fixpoint transform_loop (ls : loop_state) (packets : list packet) (idx : nat)
  : loop_state :=
  match packets with
  | [] => ls
  | p :: packets => transform_loop (transform_step ls p idx) packets (S idx)
  end.

Definition transform (st : stats) (packets : list packet)
  : stats * transformed_data :=
  let ls := transform_loop (LoopState st [] [] ∅ ∅) packets 0 in
  (ls_stats ls,
   TransformedData (ls_packets ls) ((map_to_list (connections_map ls)).*2)
                   (ls_attacks ls) (ip_stats ls)).

(** *** Load *)

(** The sink as [load] sees it: whether Firestore is in use, and for
    each write whether it goes through.  A batch write is named by its
    collection and the index of its first record. *)
Record sink := Sink {
  use_firestore : bool;
  commit_ok : string → nat → bool;
  save_ok : string → nat → bool;
  log_attack_ok : attack → bool
}.

(** Where a batch ended up. *)
Inductive written := Committed | SavedLocally | Lost.

(** [_save_to_local_file] swallows its own failure. *)
Definition _save_to_local_file (s : sink) (collection : string) (i : nat)
  : written :=
  if save_ok s collection i then SavedLocally else Lost.

(** [_load_batch] never raises: a failed commit falls back to the local
    file. *)
Definition _load_batch (s : sink) (collection : string) (i : nat) : written :=
  if negb (use_firestore s) then _save_to_local_file s collection i
  else if commit_ok s collection i then Committed
  else _save_to_local_file s collection i.

Record load_stats := LoadStats {
  packets_loaded : nat;
  connections_loaded : nat;
  attacks_loaded : nat;
  errors : nat
}.

(** [range(0, n, step)]: raises on a zero step, is empty on a negative
    one. *)
Definition range0 (n : nat) (step : Z) : string + list nat :=
  if (step =? 0)%Z then inl "range() arg 3 must not be zero"
  else if (step <? 0)%Z then inr []
  else let k := Z.to_nat step in
       inr ((λ j, j * k)%nat <$> seq 0 ((n + k - 1) / k)).

(** The slice [l[i:i + batch_size]] for a positive [batch_size]. *)
Definition slice {A : Type} (l : list A) (i : nat) (batch_size : Z) : list A :=
  take (Z.to_nat batch_size) (drop i l).

(** The batched loop over one collection, guarded by [if records:];
    returns the number of records counted as loaded and where each batch
    went. *)
Definition load_batches {A : Type} (s : sink) (collection : string)
    (records : list A) (batch_size : Z) : string + (nat * list written) :=
  match records with
  | [] => inr (0%nat, [])
  | _ =>
      match range0 (length records) batch_size with
      | inl e => inl e
      | inr starts =>
          inr (foldr (λ i n, (length (slice records i batch_size) + n)%nat) 0%nat starts,
               (λ i, _load_batch s collection i) <$> starts)
      end
  end.

(** [_load_statistics] swallows its own failure. *)
Definition _load_statistics (s : sink) : written :=
  if negb (use_firestore s) then _save_to_local_file s "ip_statistics" 0
  else if commit_ok s "ip_statistics" 0 then Committed
  else Lost.

(** [load]; [now] is the reading of [datetime.now()] at the end.
    Returns the new state and either the message of an exception leaving
    [load] (its handler raises it again) or the returned statistics with
    where the batches went. *)
Definition load (s : sink) (st : stats) (td : transformed_data)
    (batch_size : Z) (now : Q) : stats * (string + (load_stats * list written)) :=
  match load_batches s "packets" (td_packets td) batch_size with
  | inl e => (st, inl e)
  | inr (np, wp) =>
      match load_batches s "connections" (td_connections td) batch_size with
      | inl e => (st, inl e)
      | inr (nc, wc) =>
          let na := length (filter (λ a, log_attack_ok s a = true) (td_attacks td)) in
          let ne := length (filter (λ a, log_attack_ok s a = false) (td_attacks td)) in
          let ws := _load_statistics s in
          let st := Stats (total_packets st) (processed_packets st)
                          (failed_packets st) (connections_created st)
                          (attacks_detected st) (start_time st) (Some now) in
          match start_time st with
          | Some _ => (st, inr (LoadStats np nc na ne, wp ++ wc ++ [ws]))
          | None =>
              (st, inl "unsupported operand type(s) for -: 'datetime.datetime' and 'NoneType'")
          end
      end
  end.

(** *** Run *)

(** The dictionary returned by [run]: the counters of [self.stats], the
    load statistics when the run went through, ['success'] and, on
    failure, ['error']. *)
Record run_result := RunResult {
  res_stats : stats;
  res_load : option load_stats;
  success : bool;
  error : option string
}.

(** [run]; [t0] and [t1] are the readings of [datetime.now()] in
    [extract] and at the end of [load]. *)
Definition run (s : sink) (fs : filesystem) (st : stats) (source : string)
    (batch_size : Z) (t0 t1 : Q) : stats * run_result :=
  match extract fs st source t0 with
  | (st, inl e) => (st, RunResult st None false (Some e))
  | (st, inr packets) =>
      let '(st, transformed) := transform st packets in
      match load s st transformed batch_size t1 with
      | (st, inr (ls, _)) => (st, RunResult st (Some ls) true None)
      | (st, inl e) => (st, RunResult st None false (Some e))
      end
  end.

(** Successive calls of [run] on one pipeline object. *)
Fixpoint run_all (s : sink) (fs : filesystem) (st : stats)
    (calls : list (string * Z * Q * Q)) : stats * list run_result :=
  match calls with
  | [] => (st, [])
  | (source, batch_size, t0, t1) :: calls =>
      let '(st, r) := run s fs st source batch_size t0 t1 in
      let '(st, rs) := run_all s fs st calls in
      (st, r :: rs)
  end.

(** *** Vocabulary of the statements about the pipeline *)

(** A packet that [_transform_packet] decodes: one whose capture time can
    be formatted. *)
Definition decodable (p : packet) : Prop := is_Some (fromtimestamp (time p)).

(** The lifetime counters of a source in the [ip_stats] table, with the
    [0] that [.get(key, 0)] reads for an absent key. *)
Definition syn_count_of (ips : gmap string ip_entry) (s : string) : nat :=
  default 0%nat (ips !! s ≫= syn_packet_count).

Definition udp_count_of (ips : gmap string ip_entry) (s : string) : nat :=
  default 0%nat (ips !! s ≫= udp_packet_count).

(** A decoded record that [_detect_attacks] counts as a SYN of [s], and one
    that it counts as a UDP packet of [s]. *)
Definition pd_syn_from (s : string) (pd : packet_data) : Prop :=
  truthy (src_ip pd) = Some s ∧ protocol pd = "TCP" ∧ syn_without_ack pd = true.

Definition pd_udp_from (s : string) (pd : packet_data) : Prop :=
  truthy (src_ip pd) = Some s ∧ protocol pd = "UDP".

(** A decodable TCP packet from the non-empty address [s] with SYN set and
    ACK clear, whatever its other flags. *)
Definition raw_syn_from (s : string) (p : packet) : Prop :=
  decodable p ∧ s ≠ "" ∧ (ip_src <$> ip p) = Some s
  ∧ ∃ l, tcp p = Some l
         ∧ flag_set (Scapy.tcp_flags l) 2 = true
         ∧ flag_set (Scapy.tcp_flags l) 16 = false.

#[global] Instance raw_syn_from_dec s p : Decision (raw_syn_from s p).
Proof.
  unfold raw_syn_from, decodable. destruct (tcp p) as [l|].
  - destruct (decide (is_Some (fromtimestamp (time p)) ∧ s ≠ ""
                      ∧ (ip_src <$> ip p) = Some s
                      ∧ flag_set (Scapy.tcp_flags l) 2 = true
                      ∧ flag_set (Scapy.tcp_flags l) 16 = false)) as [H|H].
    + left. destruct H as (? & ? & ? & ? & ?). eauto 10.
    + right. intros (? & ? & ? & l' & [= <-] & ? & ?). tauto.
  - right. intros (_ & _ & _ & l' & ? & _). discriminate.
Defined.

(** A decodable UDP packet (UDP layer, no TCP layer) from the non-empty
    address [s]. *)
Definition raw_udp_from (s : string) (p : packet) : Prop :=
  decodable p ∧ s ≠ "" ∧ (ip_src <$> ip p) = Some s
  ∧ tcp p = None ∧ is_Some (udp p).

#[global] Instance raw_udp_from_dec s p : Decision (raw_udp_from s p).
Proof. unfold raw_udp_from, decodable. apply _. Defined.

(** The packets of a capture that can be read. *)
Definition packets_of (c : capture) : list packet :=
  match c with inr packets => packets | inl _ => [] end.

(** A capture that [rdpcap] reads. *)
Definition readable (c : capture) : Prop := ∃ packets, c = inr packets.

(** A string without a colon, as a dotted IPv4 address is. *)
Fixpoint colon_free (s : string) : Prop :=
  match s with
  | EmptyString => True
  | String c s => String c "" ≠ ":" ∧ colon_free s
  end.

(** The invariant of the connection map: every connection is stored under
    the key of its own endpoints and protocol, and has counted at least
    one packet. *)
Definition connections_well_keyed (m : gmap string connection) : Prop :=
  ∀ k c, m !! k = Some c →
    k = _get_connection_key (c_src_ip c) (c_dst_ip c) (c_protocol c)
    ∧ (1 ≤ c_packet_count c)%nat.

(** The packet count that the statistics hold for an address, [0] for an
    address they do not know. *)
Definition packets_seen (ips : gmap string ip_entry) (s : string) : nat :=
  default 0%nat (ie_packet_count <$> ips !! s).

(** The bytes that the statistics hold as sent and as received by an
    address. *)
Definition bytes_sent_by (ips : gmap string ip_entry) (s : string) : nat :=
  default 0%nat (bytes_sent <$> ips !! s).

Definition bytes_received_by (ips : gmap string ip_entry) (s : string) : nat :=
  default 0%nat (bytes_received <$> ips !! s).

(** The attack records of one type that name one source. *)
Definition records_of (type s : string) (attacks : list attack) : nat :=
  length (filter (λ a, attack_type a = type ∧ source_ip a = s) attacks).

End ETLPipeline.

(** ** network_monitoring/backend/etl_api.py *)

Module ETLApi.
Import ETLPipeline.

(** A value of the JSON body of a request, as [get_json] decodes it.
    The contents of an array and of an object play no part below. *)
Inductive json_value :=
| JNull
| JBool (b : bool)
| JInt (z : Z)
| JFloat (q : Q)
| JString (s : string)
| JArray
| JObject.

(** [type(v).__name__] *)
Definition type_name (v : json_value) : string :=
  match v with
  | JNull => "NoneType"
  | JBool _ => "bool"
  | JInt _ => "int"
  | JFloat _ => "float"
  | JString _ => "str"
  | JArray => "list"
  | JObject => "dict"
  end.

(** [data.get('batch_size', 100)] as the third argument of [range]: the
    step it stands for, or the message of the [TypeError] that [range]
    raises on it.  A Boolean is an integer, [True] being 1 and [False]
    0; every other value that is not an integer is refused. *)
Definition batch_step (batch_size : option json_value) : string + Z :=
  match batch_size with
  | None => inr 100%Z
  | Some (JInt z) => inr z
  | Some (JBool b) => inr (if b then 1 else 0)%Z
  | Some v =>
      inl ("'" +:+ type_name v +:+ "' object cannot be interpreted as an integer")
  end.

(** [load] with a batch size that is not an integer: [range] raises in the
    first batched loop that is entered, and [load] raises it again; with
    no packet and no connection neither loop is entered and the batch size
    is not looked at. *)
Definition load_not_integer (s : sink) (st : stats) (td : transformed_data)
    (type_error : string) (now : Q)
  : stats * (string + (load_stats * list written)) :=
  match td_packets td, td_connections td with
  | [], [] =>
      let na := length (filter (λ a, log_attack_ok s a = true) (td_attacks td)) in
      let ne := length (filter (λ a, log_attack_ok s a = false) (td_attacks td)) in
      let ws := _load_statistics s in
      let st := Stats (total_packets st) (processed_packets st)
                      (failed_packets st) (connections_created st)
                      (attacks_detected st) (start_time st) (Some now) in
      match start_time st with
      | Some _ => (st, inr (LoadStats 0 0 na ne, [ws]))
      | None =>
          (st, inl "unsupported operand type(s) for -: 'datetime.datetime' and 'NoneType'")
      end
  | _, _ => (st, inl type_error)
  end.

(** [run] with whatever the request gave as batch size. *)
Definition run_request (s : sink) (fs : filesystem) (st : stats) (source : string)
    (batch_size : option json_value) (t0 t1 : Q) : stats * run_result :=
  match batch_step batch_size with
  | inr step => run s fs st source step t0 t1
  | inl type_error =>
      match extract fs st source t0 with
      | (st, inl e) => (st, RunResult st None false (Some e))
      | (st, inr packets) =>
          let '(st, transformed) := transform st packets in
          match load_not_integer s st transformed type_error t1 with
          | (st, inr (ls, _)) => (st, RunResult st (Some ls) true None)
          | (st, inl e) => (st, RunResult st None false (Some e))
          end
      end
  end.

(** [process_pcap]: the HTTP status of the answer and, when the pipeline
    was run, its result.  The body of the request is a JSON object;
    [source] is its ['source'], a string, and [batch_size] its
    ['batch_size'], both [None] when absent.  The pipeline is the module's
    one [etl_pipeline] object, whose state is threaded through. *)
Definition process_pcap (s : sink) (fs : filesystem) (st : stats)
    (source : option string) (batch_size : option json_value) (t0 t1 : Q)
  : stats * (nat * option run_result) :=
  match truthy source with
  | None => (st, (400%nat, None))
  | Some source =>
      match fs source with
      | None => (st, (404%nat, None))
      | Some _ =>
          let '(st, result) := run_request s fs st source batch_size t0 t1 in
          if success result then (st, (200%nat, Some result))
          else (st, (500%nat, Some result))
      end
  end.

(** The answer of [validate_source] (for a request that names a
    source). *)
Record validation := Validation {
  valid : bool;
  exists_ : bool;
  is_file : bool;
  is_directory : bool;
  is_pcap : bool;
  pcap_files_count : nat;
  pcap_files : list string
}.

Definition validate_source (fs : filesystem) (source : string) : validation :=
  let exists_ := bool_decide (is_Some (fs source)) in
  let is_file := if fs source is Some (File _) then true else false in
  let is_dir := if fs source is Some (Dir _) then true else false in
  let is_pcap := if is_file then is_capture_name source else false in
  let pcap_files :=
    match fs source with
    | Some (Dir entries) => filter (λ f, is_capture_name f = true) entries.*1
    | _ => []
    end in
  Validation (exists_ && (is_pcap || bool_decide (0 < length pcap_files)%nat))
             exists_ is_file is_dir is_pcap
             (if is_dir then length pcap_files else 0%nat)
             (if is_dir then take 10 pcap_files else []).

End ETLApi.

(** ** network_monitoring/backend/test_generator.py *)

Module TestGenerator.
Import Scapy.

(** Whether a port fits its 16-bit field. *)
Definition port_fits (port : Z) : bool := (0 <=? port)%Z && (port <=? 65535)%Z.

(** Whether [wrpcap] can build a packet: the ports of its TCP or UDP layer
    fit their fields. *)
Definition can_build (p : packet) : bool :=
  (if tcp p is Some l then port_fits (tcp_sport l) && port_fits (tcp_dport l)
   else true)
  && (if udp p is Some l then port_fits (udp_sport l) && port_fits (udp_dport l)
      else true).

(** What a call of a generator leaves behind: the packets in the file it
    wrote, and whether it raised. *)
Record generated := Generated { on_disk : list packet; raised : bool }.

(** [wrpcap] writes the packets in order, and raises at the first one it
    cannot build; what it wrote before stays in the file. *)
Fixpoint wrpcap (packets : list packet) : generated :=
  match packets with
  | [] => Generated [] false
  | p :: packets =>
      if can_build p then
        let g := wrpcap packets in Generated (p :: on_disk g) (raised g)
      else Generated [] true
  end.

(** [create_syn_flood_pcap]: [num_packets] SYN packets (flags ["S"],
    [0x02]) from [src_ip] to [dst_ip], source ports from 1024 up,
    destination port 80, handed to [wrpcap].  [time i] is the creation time
    of packet [i], which [wrpcap] records for it; 40 bytes are an IP and a
    TCP header, and there is no link layer. *)
Definition create_syn_flood_pcap (time : nat → Q) (num_packets : nat)
    (src_ip dst_ip : string) : generated :=
  wrpcap ((λ i, Packet (time i) 40 None (Some (MkIP src_ip dst_ip))
                       (Some (MkTCP 2 (1024 + Z.of_nat i) 80)) None None None)
            <$> seq 0 num_packets).

(** [create_udp_flood_pcap]: [num_packets] UDP packets to port 53, source
    ports from 1024 up; 28 bytes are an IP and a UDP header. *)
Definition create_udp_flood_pcap (time : nat → Q) (num_packets : nat)
    (src_ip dst_ip : string) : generated :=
  wrpcap ((λ i, Packet (time i) 28 None (Some (MkIP src_ip dst_ip))
                       None (Some (MkUDP (1024 + Z.of_nat i) 53)) None None)
            <$> seq 0 num_packets).

End TestGenerator.

(** ** network_monitoring/backend/packet_capture.py

    The capture runs [sniff] on a thread of its own; what is modelled is
    each method as one step, and the handler as [sniff] calls it, one
    packet at a time. *)

Module PacketCapture.
Import Scapy.

(** [self.capture_stats] *)
Record stats := Stats {
  start_time : option Q;
  packet_count : nat;
  bytes_captured : nat;
  interface : option string;
  filter : option string
}.

Record t := Build {
  is_capturing : bool;
  stop_event : bool;
  captured_packets : list packet;
  capture_stats : stats
}.

(** [__init__] *)
Definition init : t := Build false false [] (Stats None 0 0 None None).

(** [x or fallback] on an optional string. *)
Definition or_else (x : option string) (fallback : string) : string :=
  match x with
  | Some s => if String.eqb s "" then fallback else s
  | None => fallback
  end.

(** [start_capture], up to the start of the thread; returns the
    ['status'] of the answer. *)
Definition start_capture (c : t) (interface filter : option string) (now : Q)
  : t * string :=
  if is_capturing c then (c, "error")
  else
    (Build true false []
           (Stats (Some now) 0 0 (Some (or_else interface "default"))
                  (Some (or_else filter "none"))),
     "success").

(** [packet_handler]; [packet_count] is the limit given to
    [start_capture], [None] or [0] for no limit. *)
Definition packet_handler (limit : option nat) (c : t) (p : packet) : t :=
  if stop_event c then c
  else
    let st := capture_stats c in
    let count := S (packet_count st) in
    let st := Stats (start_time st) count (bytes_captured st + len p)
                    (interface st) (filter st) in
    let stop :=
      match limit with
      | Some n => negb (n =? 0)%nat && (n <=? count)%nat
      | None => false
      end in
    Build (is_capturing c) (stop || stop_event c) (captured_packets c ++ [p]) st.

(** The handler over the packets that [sniff] hands to it, in order. *)
Definition handle_all (limit : option nat) (c : t) (ps : list packet) : t :=
  foldl (packet_handler limit) c ps.

(** The end of [_capture_packets]: whatever happened, the [finally]
    clause clears [is_capturing]. *)
Definition capture_finished (c : t) : t :=
  Build false (stop_event c) (captured_packets c) (capture_stats c).

(** The answer of a successful [stop_capture]. *)
Record stop_result := StopResult {
  stats_at_stop : stats;
  duration_seconds : Q;
  packets_captured : nat;
  filename : option string
}.

(** [stop_capture]; [now] is the reading of the clock, and [saved] what
    [_save_capture] does if it is called: the name of the file written, or
    the message of the exception of [wrpcap], which [_save_capture] raises
    again.  The answer is [inr None] for the error answer. *)
Definition stop_capture (c : t) (save_file : bool) (now : Q)
    (saved : string + string) : t * (string + option stop_result) :=
  if negb (is_capturing c) then (c, inr None)
  else
    let c := Build false true (captured_packets c) (capture_stats c) in
    let duration :=
      match start_time (capture_stats c) with
      | Some t0 => (now - t0)%Q
      | None => 0%Q
      end in
    let result := StopResult (capture_stats c) duration
                             (length (captured_packets c)) None in
    if save_file && negb (bool_decide (captured_packets c = [])) then
      match saved with
      | inr name =>
          (c, inr (Some (StopResult (capture_stats c) duration
                                    (length (captured_packets c)) (Some name))))
      | inl e => (c, inl e)
      end
    else (c, inr (Some result)).

(** The invariant of a capture: the two counters describe the buffer. *)
Definition consistent (c : t) : Prop :=
  packet_count (capture_stats c) = length (captured_packets c)
  ∧ bytes_captured (capture_stats c) = sum_list (len <$> captured_packets c).

End PacketCapture.

(** ** Concrete traffic

    The packets and captures the examples below are run on. *)

Module Scenario.
Import Scapy.

(** A TCP packet from [10.0.0.5] to [10.0.0.1] with the given flags. *)
Definition tcp_packet (flags : Z) : packet :=
  Packet 1700000000 60 None (Some (MkIP "10.0.0.5" "10.0.0.1"))
         (Some (MkTCP flags 40000 80)) None None None.

(** A UDP packet between the same hosts. *)
Definition udp_packet : packet :=
  Packet 1700000000 60 None (Some (MkIP "10.0.0.5" "10.0.0.1"))
         None (Some (MkUDP 5353 53)) None None.

(** A UDP packet whose capture time lies beyond the year 9999, as a
    damaged [pcapng] record can carry (64-bit timestamps). *)
Definition undatable_packet : packet :=
  Packet 18446744073709 60 None (Some (MkIP "10.0.0.5" "10.0.0.1"))
         None (Some (MkUDP 5353 53)) None None.

(** All three clock readings of a packet's processing at one instant. *)
Definition at_time (t : Q) : PacketAnalyzer.clock := PacketAnalyzer.Clock t t t.

(** SYN packets (flags [0x02]) processed at the given instants. *)
Definition syns_at (ts : list Q) : list (packet * PacketAnalyzer.clock) :=
  (λ t, (tcp_packet 2, at_time t)) <$> ts.

(** Six SYN packets within half a second. *)
Definition six_syns : list (packet * PacketAnalyzer.clock) :=
  syns_at [1; 1.1; 1.2; 1.3; 1.4; 1.5]%Q.

(** A file system with a one-packet capture, a capture whose only packet
    cannot be dated, and a capture of seven SYN packets. *)
Definition disk : ETLPipeline.filesystem :=
  λ path,
    if String.eqb path "one.pcap" then
      Some (ETLPipeline.File (inr [udp_packet]))
    else if String.eqb path "damaged.pcapng" then
      Some (ETLPipeline.File (inr [undatable_packet]))
    else if String.eqb path "empty.pcap" then
      Some (ETLPipeline.File (inr []))
    else if String.eqb path "flood.pcap" then
      Some (ETLPipeline.File (inr (replicate 7 (tcp_packet 2))))
    else if String.eqb path "notes" then
      Some (ETLPipeline.Dir [("readme.txt", inl "not a capture")])
    else None.

(** A sink in which every write goes through, and one in which every
    write fails. *)
Definition good_sink : ETLPipeline.sink :=
  ETLPipeline.Sink true (λ _ _, true) (λ _ _, true) (λ _, true).

Definition broken_sink : ETLPipeline.sink :=
  ETLPipeline.Sink true (λ _ _, false) (λ _ _, false) (λ _, false).

(** A directory with two captures and a file that is not one. *)
Definition archive : ETLPipeline.filesystem :=
  λ path,
    if String.eqb path "captures" then
      Some (ETLPipeline.Dir
              [("monday.pcap", inr [udp_packet; tcp_packet 2]);
               ("readme.txt", inl "not a capture");
               ("tuesday.pcapng", inr [tcp_packet 16])])
    else None.

End Scenario.

(** * Properties *)

(** ** The flood detector *)

Section detector.
Import SYNDetector.

Lemma check_threshold d A now : threshold (check_syn_flood d A now).1 = threshold d.
Proof. unfold check_syn_flood. by case_bool_decide. Qed.

Lemma check_window_seconds d A now :
  window_seconds (check_syn_flood d A now).1 = window_seconds d.
Proof. unfold check_syn_flood. by case_bool_decide. Qed.

(** The window stored for the observed address after a call. *)
Lemma check_window d A now :
  window_of (check_syn_flood d A now).1 A
  = filter (λ t, (now - window_seconds d <= t)%Q) (window_of d A) ++ [now].
Proof.
  unfold check_syn_flood.
  case_bool_decide; cbn; unfold window_of; cbn;
    by rewrite !lookup_insert_eq.
Qed.

(** The windows of the other addresses are left alone. *)
Lemma check_frame d A B now :
  A ≠ B → window_of (check_syn_flood d B now).1 A = window_of d A.
Proof.
  intros Hne. unfold check_syn_flood.
  case_bool_decide; cbn; unfold window_of; cbn;
    by rewrite !lookup_insert_ne.
Qed.

(** The answer of a call, in terms of the window it leaves. *)
Lemma check_answer d A now :
  (check_syn_flood d A now).2
  = Result (bool_decide
              (threshold d
               <= Z.of_nat (length (window_of (check_syn_flood d A now).1 A)))%Z)
           A (length (window_of (check_syn_flood d A now).1 A))
           (window_seconds d).
Proof.
  rewrite check_window. unfold check_syn_flood.
  case_bool_decide as H; cbn in *; unfold window_of in *; cbn in *;
    rewrite !lookup_insert_eq in *; cbn in *.
  - by rewrite bool_decide_eq_true_2.
  - by rewrite bool_decide_eq_false_2.
Qed.

Lemma within_window_app_cons w pre t ts :
  within_window w (pre ++ t :: ts) → Forall (λ p, (t - w <= p)%Q) pre.
Proof.
  induction pre as [|p pre IH]; cbn; [constructor|].
  intros [Hp Hrest]. constructor; [|by apply IH].
  rewrite Forall_app, Forall_cons in Hp. tauto.
Qed.


Lemma filter_all {A} (P : A → Prop) `{∀ x, Decision (P x)} (l : list A) :
  Forall P l → filter P l = l.
Proof.
  induction 1 as [|x l Hx Hl IH]; [done|].
  by rewrite filter_cons_True, IH.
Qed.

Lemma filter_none {A} (P : A → Prop) `{∀ x, Decision (P x)} (l : list A) :
  Forall (λ x, ¬ P x) l → filter P l = [].
Proof.
  induction 1 as [|x l Hx Hl IH]; [done|].
  by rewrite filter_cons_False.
Qed.

Lemma times_of_cons_eq A now calls :
  times_of A ((A, now) :: calls) = now :: times_of A calls.
Proof. unfold times_of. by rewrite filter_cons_True. Qed.

Lemma times_of_cons_ne A B now calls :
  A ≠ B → times_of A ((B, now) :: calls) = times_of A calls.
Proof. intros. unfold times_of. rewrite filter_cons_False; [done|]. cbn. congruence. Qed.

Lemma observe_cons d B now calls :
  observe d ((B, now) :: calls)
  = ((observe (check_syn_flood d B now).1 calls).1,
     (check_syn_flood d B now).2 :: (observe (check_syn_flood d B now).1 calls).2).
Proof.
  cbn. destruct (check_syn_flood d B now) as [d' r]. cbn.
  by destruct (observe d' calls).
Qed.

Lemma source_ip_check d B now : source_ip (check_syn_flood d B now).2 = B.
Proof. by rewrite check_answer. Qed.

(** One answer per call made for the address. *)
Lemma answers_length d A calls :
  length (answers_for A (observe d calls).2) = length (times_of A calls).
Proof.
  revert d. induction calls as [|[B now] calls IH]; intros d; [done|].
  rewrite observe_cons. cbn [snd]. unfold answers_for.
  destruct (decide (B = A)) as [->|Hne].
  - rewrite filter_cons_True by apply source_ip_check.
    rewrite times_of_cons_eq. cbn. f_equal. apply IH.
  - rewrite filter_cons_False by (rewrite source_ip_check; congruence).
    rewrite times_of_cons_ne by congruence. apply IH.
Qed.

(** While every stored and every coming reading of an address stays
    inside the window, each call counts one more. *)
Lemma observe_within d A calls :
  within_window (window_seconds d) (window_of d A ++ times_of A calls) →
  ∀ i r, answers_for A (observe d calls).2 !! i = Some r →
    packet_count r = (length (window_of d A) + S i)%nat
    ∧ is_attack r = bool_decide (threshold d <= Z.of_nat (packet_count r))%Z.
Proof.
  revert d. induction calls as [|[B now] calls IH]; intros d Hw i r; [done|].
  rewrite observe_cons. cbn [snd]. unfold answers_for.
  destruct (decide (B = A)) as [->|Hne].
  - rewrite filter_cons_True by apply source_ip_check.
    rewrite times_of_cons_eq in Hw.
    assert (Hkeep : window_of (check_syn_flood d A now).1 A = window_of d A ++ [now]).
    { rewrite check_window, filter_all; [done|].
      by eapply within_window_app_cons. }
    destruct i as [|i]; cbn.
    + intros [= <-]. rewrite check_answer, Hkeep. cbn.
      rewrite length_app. cbn. done.
    + intros Hr. apply IH in Hr.
      * rewrite check_threshold, Hkeep, length_app in Hr. cbn in Hr.
        destruct Hr as [-> ->]. split; [lia|done].
      * rewrite check_window_seconds, Hkeep, <-app_assoc. done.
  - rewrite filter_cons_False by (rewrite source_ip_check; congruence).
    rewrite times_of_cons_ne in Hw by congruence.
    intros Hr. apply IH in Hr.
    + by rewrite check_threshold, check_frame in Hr by congruence.
    + by rewrite check_window_seconds, check_frame by congruence.
Qed.


(** Every answer compares the count it reports with the threshold. *)
Lemma observe_is_attack d calls r :
  r ∈ (observe d calls).2 →
  is_attack r = bool_decide (threshold d <= Z.of_nat (packet_count r))%Z.
Proof.
  revert d. induction calls as [|[B now] calls IH]; intros d.
  { cbn. by intros ?%elem_of_nil. }
  rewrite observe_cons. cbn [snd]. rewrite elem_of_cons. intros [->|Hr].
  - by rewrite check_answer.
  - apply IH in Hr. by rewrite check_threshold in Hr.
Qed.

(** C2. Starting from an empty window for address [A], let [T >= 1] be the
    configured threshold and let the calls made for [A] (interleaved with
    calls for any other addresses) be [T] observations that all stay
    within the window.  Then the detector gives [T] answers for [A], the
    [i]-th reporting the count [i]: the first [T-1] have
    [is_attack = false] and the [T]-th has [is_attack = true].  Moreover
    every call, in any state, first discards the stored readings older
    than [now - window_seconds], then appends [now], reports the length of
    the window it leaves, and answers [is_attack] exactly when that count
    is at least the threshold. *)
Theorem check_syn_flood_threshold (d : t) (A : string) (calls : list (string * Q)) :
  (1 <= threshold d)%Z →
  window_of d A = [] →
  within_window (window_seconds d) (times_of A calls) →
  length (times_of A calls) = Z.to_nat (threshold d) →
  let answers := answers_for A (observe d calls).2 in
  length answers = Z.to_nat (threshold d)
  ∧ (∀ i r, answers !! i = Some r →
       packet_count r = S i
       ∧ ((S i < Z.to_nat (threshold d))%nat → is_attack r = false)
       ∧ (S i = Z.to_nat (threshold d) → is_attack r = true))
  ∧ (∀ d' B now,
       let kept :=
         filter (λ t, (now - window_seconds d' <= t)%Q) (window_of d' B) in
       let out := check_syn_flood d' B now in
       window_of out.1 B = kept ++ [now]
       ∧ packet_count out.2 = length (window_of out.1 B)
       ∧ is_attack out.2
         = bool_decide (threshold d' <= Z.of_nat (packet_count out.2))%Z).
Proof.
  intros HT Hempty Hwin Hlen answers. split; [|split].
  - subst answers. by rewrite answers_length.
  - intros i r Hr.
    apply observe_within in Hr; [|by rewrite Hempty].
    rewrite Hempty in Hr. cbn in Hr. destruct Hr as [Hc Ha].
    split; [done|]. rewrite Ha, Hc. split; intros Hi.
    + apply bool_decide_eq_false_2. lia.
    + apply bool_decide_eq_true_2. lia.
  - intros d' B now kept out. subst kept out.
    pose proof (check_answer d' B now) as E.
    pose proof (check_window d' B now) as W.
    destruct (check_syn_flood d' B now) as [d2 r]. cbn in *.
    subst r. by cbn.
Qed.

Lemma check_syn_flood_threshold_witness :
  let d := init 3 2 in
  let calls :=
    [("10.0.0.5", 1); ("10.0.0.9", 1.2); ("10.0.0.5", 2); ("10.0.0.5", 3)]%Q in
  ∃ r, answers_for "10.0.0.5" (observe d calls).2 !! 2%nat = Some r
       ∧ packet_count r = 3%nat ∧ is_attack r = true.
Proof.
  intros d calls.
  assert (H1 : (1 <= threshold d)%Z) by (cbn; lia).
  assert (H2 : window_of d "10.0.0.5" = []) by reflexivity.
  assert (H3 : within_window (window_seconds d) (times_of "10.0.0.5" calls)).
  { cbn. repeat split; repeat constructor; cbn; lra. }
  assert (H4 : length (times_of "10.0.0.5" calls) = Z.to_nat (threshold d))
    by reflexivity.
  destruct (check_syn_flood_threshold d "10.0.0.5" calls H1 H2 H3 H4)
    as (_ & Hi & _).
  eexists. split; [reflexivity|].
  edestruct (Hi 2%nat) as (Hc & _ & Ht); [reflexivity|].
  split; [exact Hc|]. apply Ht. reflexivity.
Defined.





End detector.

(** ** The blocking manager *)

Section firewall.
Import FirewallManager.

(** Every listed entry comes from a stored one that has not expired. *)
Lemma get_blocked_ips_listed f now e :
  e ∈ (get_blocked_ips f now).2 →
  ∃ info, blocked_ips f !! ab_ip_address e = Some info
          ∧ ¬ (unblock_time info <= now)%Q.
Proof.
  unfold get_blocked_ips. cbn.
  intros ([ip info] & -> & [Hlive Hin]%list_elem_of_filter)%list_elem_of_fmap.
  apply elem_of_map_to_list in Hin. cbn in *. eauto.
Qed.

(** Every stored entry that has not expired is listed. *)
Lemma get_blocked_ips_lists f now A info :
  blocked_ips f !! A = Some info → ¬ (unblock_time info <= now)%Q →
  ∃ e, e ∈ (get_blocked_ips f now).2 ∧ ab_ip_address e = A.
Proof.
  intros Hin Hlive. unfold get_blocked_ips. cbn.
  eexists. split.
  - apply list_elem_of_fmap. exists (A, info). split; [reflexivity|].
    apply list_elem_of_filter. split; [done|]. by apply elem_of_map_to_list.
  - done.
Qed.

(** C8. [is_blocked(A)] read at time [now] answers true exactly when an
    entry for [A] is stored with [now < unblock_time], and then leaves the
    state as it is.  When the stored entry has [now >= unblock_time] the
    answer is false and the entry is removed, so that no later listing of
    the blocked addresses contains [A].  For an address without an entry
    the answer is false and the state is unchanged. *)
Theorem is_blocked_lazy_expiry (f : t) (A : string) (now : Q) :
  ((is_blocked f A now).2 = true
   ↔ ∃ info, blocked_ips f !! A = Some info ∧ (now < unblock_time info)%Q)
  ∧ ((is_blocked f A now).2 = true → (is_blocked f A now).1 = f)
  ∧ (∀ info, blocked_ips f !! A = Some info → (unblock_time info <= now)%Q →
       (is_blocked f A now).2 = false
       ∧ blocked_ips (is_blocked f A now).1 = delete A (blocked_ips f)
       ∧ blocked_ips (is_blocked f A now).1 !! A = None
       ∧ ∀ now' e, e ∈ (get_blocked_ips (is_blocked f A now).1 now').2 →
                   ab_ip_address e ≠ A)
  ∧ (blocked_ips f !! A = None → is_blocked f A now = (f, false)).
Proof.
  unfold is_blocked. destruct (blocked_ips f !! A) as [info|] eqn:Hlook.
  - case_bool_decide as Hexp; cbn -[get_blocked_ips].
    + split; [|split; [|split]]; try done.
      * split; [done|]. intros (info' & [= <-] & Hlt). lra.
      * intros info' [= <-] _. split; [done|]. split; [done|].
        split; [apply lookup_delete_eq|].
        intros now' e (info'' & Hin & _)%get_blocked_ips_listed Heq.
        cbn in Hin. rewrite Heq, lookup_delete_eq in Hin. done.
    + split; [|split; [|split]]; try done.
      * split; [|done]. intros _. exists info. split; [done|]. lra.
      * intros info' [= <-] Hle. done.
  - cbn. split; [|split; [|split]]; try done.
    split; [done|]. by intros (info & ? & _).
Qed.

End firewall.

(** ** The traffic analyzer *)

Section analyzer.
Import Scapy PacketAnalyzer.

(** Opens [_process_packet] on a packet with an IP layer along its
    branches: the SYN test, the detector's answer, the guard on the block
    and the UDP test. *)
Ltac open_process_packet Hip :=
  unfold _process_packet; rewrite Hip;
  cbn [syn_detector attack_classifier firewall_manager firestore_logger
       connections packet_count attack_count blocked_ips];
  unfold FirewallManager.block_ip;
  match goal with
  | |- context [is_syn_packet ?p] =>
      destruct (is_syn_packet p) eqn:?;
      [ match goal with
        | |- context [SYNDetector.check_syn_flood ?d ?s ?t] =>
            destruct (SYNDetector.check_syn_flood d s t) as [? [[] ? ? ?]] eqn:?;
            cbn [SYNDetector.is_attack];
            [ case_bool_decide | ]
        end
      | destruct (has_layer (udp p)) eqn:?;
        [ match goal with
          | |- context [_detect_udp_flood ?a ?s] =>
              destruct (_detect_udp_flood a s) eqn:?
          end
        | ] ]
  end.

(** Every packet with an IP layer adds one connection to its source. *)
Lemma process_packet_connections a p c r l :
  ip p = Some l →
  connections (_process_packet a p c r).1
  = <[ip_src l := connections_of a (ip_src l)
                  ++ [Connection (ip_dst l) (now_dt c) (_get_protocol p)]]>
      (connections a).
Proof. intros Hip. open_process_packet Hip; reflexivity. Qed.

Lemma process_packet_classifier a p c r :
  attack_classifier (_process_packet a p c r).1 = attack_classifier a.
Proof.
  destruct (ip p) eqn:Hip; [|by unfold _process_packet; rewrite Hip].
  open_process_packet Hip; reflexivity.
Qed.

Lemma is_syn_packet_true p :
  is_syn_packet p = true ↔ ∃ l, tcp p = Some l ∧ tcp_flags l = 2%Z.
Proof.
  unfold is_syn_packet. destruct (tcp p) as [l|].
  - rewrite bool_decide_eq_true. split; [eauto|]. by intros (? & [= <-] & ?).
  - split; [done|]. by intros (? & ? & _).
Qed.

(** What the detector holds after a packet: the state left by a call, or
    the state before. *)
Lemma process_packet_detector a p c r l :
  ip p = Some l →
  syn_detector (_process_packet a p c r).1
  = if is_syn_packet p
    then (SYNDetector.check_syn_flood (syn_detector a) (ip_src l) (now_check c)).1
    else syn_detector a.
Proof. intros Hip. open_process_packet Hip; reflexivity. Qed.

(** C6, as the code has it.  For a processed record (one with an IP
    layer): when it is TCP with flags exactly [0x02] (SYN alone) the
    analyzer calls the flood detector for the record's source, and the
    detector is left in the state of that call; when it is TCP with any
    other flag value, in particular with ACK set, or not TCP at all, the
    detector is not called and keeps its state. *)
Theorem syn_test_is_exact
    (a : t) (p : packet) (c : clock) (r : results) (ip_layer : IP) :
  ip p = Some ip_layer →
  let a' := (_process_packet a p c r).1 in
  (∀ l, tcp p = Some l → tcp_flags l = 2%Z →
     syn_detector a'
     = (SYNDetector.check_syn_flood (syn_detector a) (ip_src ip_layer)
                                    (now_check c)).1)
  ∧ (∀ l, tcp p = Some l → tcp_flags l ≠ 2%Z → syn_detector a' = syn_detector a)
  ∧ (∀ l, tcp p = Some l → Z.land (tcp_flags l) 16 ≠ 0%Z →
       syn_detector a' = syn_detector a)
  ∧ (tcp p = None → syn_detector a' = syn_detector a).
Proof.
  intros Hip a'. subst a'. rewrite (process_packet_detector _ _ _ _ _ Hip).
  unfold is_syn_packet. repeat split.
  - intros l -> Hfl. by rewrite bool_decide_eq_true_2.
  - intros l -> Hfl. by rewrite bool_decide_eq_false_2.
  - intros l -> Hack. rewrite bool_decide_eq_false_2; [done|].
    intros Hfl. by rewrite Hfl in Hack.
  - by intros ->.
Qed.

Lemma syn_test_is_exact_witness :
  let p := Packet 100 60 None (Some (MkIP "10.0.0.5" "10.0.0.1"))
                  (Some (MkTCP 2 40000 80)) None None None in
  let c := Clock 1 1 1 in
  SYNDetector.window_of
    (syn_detector (_process_packet app_analyzer p c (Results 1 0 0 [] ∅)).1)
    "10.0.0.5" = [1%Q].
Proof.
  intros p c.
  destruct (syn_test_is_exact app_analyzer p c (Results 1 0 0 [] ∅)
              (MkIP "10.0.0.5" "10.0.0.1") eq_refl) as (Hcall & _).
  rewrite (Hcall (MkTCP 2 40000 80) eq_refl eq_refl).
  reflexivity.
Defined.

(** C6 fails as stated: a TCP record with SYN and PSH set and ACK clear
    (flags [0x0A]) has an IP layer and is processed, but the detector is
    not called for it: its state is the one before, with no observation
    stored for the source, where a call would have stored one. *)
Lemma syn_psh_skips_detector :
  let p := Packet 100 60 None (Some (MkIP "10.0.0.5" "10.0.0.1"))
                  (Some (MkTCP 10 40000 80)) None None None in
  let c := Clock 1 1 1 in
  let a' := (_process_packet app_analyzer p c (Results 1 0 0 [] ∅)).1 in
  (∃ l, tcp p = Some l ∧ Z.land (tcp_flags l) 2 ≠ 0%Z
        ∧ Z.land (tcp_flags l) 16 = 0%Z)
  ∧ analyzed_packets (_process_packet app_analyzer p c (Results 1 0 0 [] ∅)).2 = 1%nat
  ∧ syn_detector a' = syn_detector app_analyzer
  ∧ SYNDetector.window_of (syn_detector a') "10.0.0.5" = []
  ∧ SYNDetector.window_of
      (SYNDetector.check_syn_flood (syn_detector app_analyzer) "10.0.0.5" 1).1
      "10.0.0.5" = [1%Q].
Proof.
  cbv zeta. split; [|repeat split].
  eexists. split; [reflexivity|]. split; [|reflexivity]. by vm_compute.
Qed.

Lemma get_protocol_udp p :
  _get_protocol p = "UDP" → tcp p = None ∧ has_layer (udp p) = true.
Proof.
  unfold _get_protocol.
  destruct (tcp p), (udp p), (icmp p); cbn; intros; try done.
Qed.

Lemma connections_of_insert a a' A src l :
  connections a' = <[src := l]> (connections a) →
  connections_of a' A = if decide (src = A) then l else connections_of a A.
Proof.
  intros H. unfold connections_of. rewrite H. case_decide as Hd.
  - subst. by rewrite lookup_insert_eq.
  - by rewrite lookup_insert_ne.
Qed.

(** A packet with an IP layer adds one to the UDP count of its source
    when it is recorded as UDP, and changes no other count. *)
Lemma process_packet_udp_seen a p c r l A :
  ip p = Some l →
  udp_seen (_process_packet a p c r).1 A
  = (udp_seen a A
     + if decide (ip_src l = A ∧ _get_protocol p = "UDP") then 1 else 0)%nat.
Proof.
  intros Hip. unfold udp_seen.
  rewrite (connections_of_insert a _ A _ _ (process_packet_connections a p c r l Hip)).
  destruct (decide (ip_src l = A)) as [<-|Hne].
  - rewrite filter_app, length_app. f_equal.
    destruct (decide (_get_protocol p = "UDP")) as [Hu|Hu].
    + rewrite filter_cons_True by exact Hu. rewrite decide_True by done. done.
    + rewrite filter_cons_False by exact Hu. rewrite decide_False by tauto. done.
  - rewrite decide_False by tauto. lia.
Qed.

(** The UDP count of a source over a run: what it was, plus the UDP
    packets of the run; nothing is ever removed and no clock is read. *)
Lemma process_all_udp_seen a ps r A :
  udp_seen (process_all a ps r).1 A
  = (udp_seen a A + length (filter (is_udp_from A) ps))%nat.
Proof.
  revert a r. induction ps as [|[p c] ps IH]; intros a r; [cbn; lia|].
  cbn [process_all].
  destruct (ip p) as [l|] eqn:Hip; cbn [has_layer].
  - destruct (_process_packet a p c r) as [a1 r1] eqn:Hstep.
    rewrite IH.
    pose proof (process_packet_udp_seen a p c r l A Hip) as Hone.
    rewrite Hstep in Hone. cbn in Hone. rewrite Hone.
    destruct (decide (ip_src l = A ∧ _get_protocol p = "UDP")) as [[H1 H2]|Hn].
    + rewrite filter_cons_True; [cbn; lia|].
      unfold is_udp_from. cbn. rewrite Hip. cbn. by rewrite H1.
    + rewrite filter_cons_False; [lia|].
      unfold is_udp_from. cbn. rewrite Hip. cbn.
      intros [[= H1] H2]. tauto.
  - rewrite IH. rewrite filter_cons_False; [done|].
    unfold is_udp_from. cbn. rewrite Hip. cbn. by intros [? _].
Qed.

(** The UDP branch of [_process_packet], for a record recorded as UDP. *)
Lemma process_packet_udp a p c r l :
  ip p = Some l →
  _get_protocol p = "UDP" →
  let out := _process_packet a p c r in
  ((10 < S (udp_seen a (ip_src l)))%nat →
     firestore_logger out.1
     = firestore_logger a
       ++ [udp_flood_entry (attack_classifier a) p (now_dt c) (ip_src l) (ip_dst l)]
     ∧ attacks_detected out.2 = S (attacks_detected r)
     ∧ attack_count out.1 = S (attack_count a))
  ∧ ((S (udp_seen a (ip_src l)) ≤ 10)%nat →
       firestore_logger out.1 = firestore_logger a
       ∧ attacks_detected out.2 = attacks_detected r
       ∧ attack_count out.1 = attack_count a).
Proof.
  intros Hip Hudp out.
  assert (Hflood :
    ∀ a', connections a'
          = <[ip_src l := connections_of a (ip_src l)
                          ++ [Connection (ip_dst l) (now_dt c) "UDP"]]> (connections a) →
          _detect_udp_flood a' (ip_src l)
          = bool_decide (10 < S (udp_seen a (ip_src l)))%nat).
  { intros a' Hc. unfold _detect_udp_flood, udp_seen.
    rewrite (connections_of_insert a a' (ip_src l) _ _ Hc), decide_True by done.
    rewrite filter_app, length_app, filter_cons_True by reflexivity. cbn.
    by rewrite Nat.add_1_r. }
  destruct (get_protocol_udp p Hudp) as [Htcp Hhas].
  assert (Hsyn : is_syn_packet p = false) by (unfold is_syn_packet; by rewrite Htcp).
  subst out. unfold _process_packet. rewrite Hip, Hsyn, Hhas, Hudp.
  cbn [syn_detector attack_classifier firewall_manager firestore_logger
       connections packet_count attack_count blocked_ips].
  rewrite Hflood by reflexivity.
  split.
  - intros Hgt. rewrite bool_decide_eq_true_2 by done. by cbn.
  - intros Hle. rewrite bool_decide_eq_false_2 by lia. by cbn.
Qed.

(** Past the threshold, a run of UDP records from one source logs one
    UDP-flood entry per record. *)
Lemma process_all_udp_past src ps : ∀ a r,
  Forall (is_udp_from src) ps →
  (10 ≤ udp_seen a src)%nat →
  ∃ new, firestore_logger (process_all a ps r).1 = firestore_logger a ++ new
         ∧ length new = length ps
         ∧ Forall (λ e, attack_type e = "UDP Flood" ∧ log_source_ip e = src) new.
Proof.
  induction ps as [|[p c] ps IH]; intros a r Hall Hpast.
  { exists []. cbn. by rewrite app_nil_r. }
  apply Forall_cons in Hall as [[Hsrc Hudp] Hall]. cbn in Hsrc, Hudp.
  destruct (ip p) as [l|] eqn:Hip; [|done]. cbn in Hsrc. injection Hsrc as Hsrc.
  cbn [process_all]. rewrite Hip. cbn [has_layer].
  destruct (process_packet_udp a p c r l Hip Hudp) as [Hfire _].
  pose proof (process_packet_udp_seen a p c r l src Hip) as Hseen.
  rewrite decide_True in Hseen by done.
  destruct (_process_packet a p c r) as [a1 r1]. cbn in Hfire, Hseen.
  destruct Hfire as (Hlog & _); [rewrite Hsrc; lia|].
  destruct (IH a1 r1 Hall) as (new & Hnew & Hlen & Hty); [lia|].
  eexists (_ :: new). rewrite Hnew, Hlog, <-app_assoc. split; [reflexivity|].
  split; [cbn; by rewrite Hlen|].
  constructor; [|done]. by cbn.
Qed.

(** C9. For a processed record from source [src] that the analyzer
    records as UDP, the UDP-flood check counts the UDP connections stored
    for [src], this record included, and an attack is logged and counted
    exactly when that count exceeds 10; at or below 10 nothing is logged.
    The count is a lifetime count: over any run it is the count before
    plus the number of UDP records from the source in the run, whatever
    the clock says.  There is no guard: once the count has reached 10,
    every further UDP record from the source logs one more UDP-flood
    entry. *)
Theorem udp_flood_lifetime_count
    (a : t) (p : packet) (c : clock) (r : results) (ip_layer : IP) :
  ip p = Some ip_layer →
  _get_protocol p = "UDP" →
  let src := ip_src ip_layer in
  let out := _process_packet a p c r in
  udp_seen out.1 src = S (udp_seen a src)
  ∧ ((10 < S (udp_seen a src))%nat →
       firestore_logger out.1
       = firestore_logger a
         ++ [udp_flood_entry (attack_classifier a) p (now_dt c) src (ip_dst ip_layer)]
       ∧ attacks_detected out.2 = S (attacks_detected r)
       ∧ attack_count out.1 = S (attack_count a))
  ∧ ((S (udp_seen a src) ≤ 10)%nat →
       firestore_logger out.1 = firestore_logger a
       ∧ attacks_detected out.2 = attacks_detected r
       ∧ attack_count out.1 = attack_count a)
  ∧ (∀ a0 ps r0 A,
       udp_seen (process_all a0 ps r0).1 A
       = (udp_seen a0 A + length (filter (is_udp_from A) ps))%nat)
  ∧ (∀ a0 ps r0 A,
       Forall (is_udp_from A) ps → (10 ≤ udp_seen a0 A)%nat →
       length (logged_by a0 (process_all a0 ps r0).1) = length ps
       ∧ Forall (λ e, attack_type e = "UDP Flood" ∧ log_source_ip e = A)
                (logged_by a0 (process_all a0 ps r0).1)).
Proof.
  intros Hip Hudp src out.
  split.
  { subst out src. rewrite (process_packet_udp_seen _ _ _ _ _ _ Hip).
    rewrite decide_True by done. lia. }
  destruct (process_packet_udp a p c r ip_layer Hip Hudp) as [Hfire Hquiet].
  split; [exact Hfire|]. split; [exact Hquiet|]. split.
  - intros. apply process_all_udp_seen.
  - intros a0 ps r0 A Hall Hpast.
    destruct (process_all_udp_past A ps a0 r0 Hall Hpast) as (new & Hnew & Hlen & Hty).
    unfold logged_by. rewrite Hnew, drop_app_length. done.
Qed.

Lemma udp_flood_lifetime_count_witness :
  let p := Packet 100 60 None (Some (MkIP "10.0.0.5" "10.0.0.1"))
                  None (Some (MkUDP 5353 53)) None None in
  let ps := replicate 10 (p, Clock 1 1 1) in
  let a := (process_all app_analyzer ps (Results 11 0 0 [] ∅)).1 in
  let out := _process_packet a p (Clock 9 9 9) (Results 11 10 0 [] ∅) in
  udp_seen a "10.0.0.5" = 10%nat
  ∧ length (firestore_logger a) = 0%nat
  ∧ length (firestore_logger out.1) = 1%nat.
Proof.
  intros p ps a out.
  assert (Hseen : udp_seen a "10.0.0.5" = 10%nat) by (by vm_compute).
  destruct (udp_flood_lifetime_count a p (Clock 9 9 9) (Results 11 10 0 [] ∅)
              (MkIP "10.0.0.5" "10.0.0.1") eq_refl eq_refl)
    as (_ & Hfire & _).
  split; [exact Hseen|]. split; [by vm_compute|].
  destruct Hfire as (Hlog & _).
  { change (10 < S (udp_seen a "10.0.0.5"))%nat. rewrite Hseen. lia. }
  subst out. rewrite Hlog, length_app. by vm_compute.
Defined.

(** *** SYN floods over a run *)

Lemma process_all_app a ps qs r :
  process_all a (ps ++ qs) r
  = process_all (process_all a ps r).1 qs (process_all a ps r).2.
Proof.
  revert a r. induction ps as [|[p c] ps IH]; intros a r; [done|].
  cbn [app process_all].
  destruct (if has_layer (ip p) then _process_packet a p c r else (a, r)) as [a1 r1].
  apply IH.
Qed.

(** A call inside the window keeps every stored reading. *)
Lemma check_keeps_window d A now rest :
  SYNDetector.within_window (SYNDetector.window_seconds d)
    (SYNDetector.window_of d A ++ now :: rest) →
  SYNDetector.window_of (SYNDetector.check_syn_flood d A now).1 A
  = SYNDetector.window_of d A ++ [now].
Proof.
  intros Hw. rewrite check_window, filter_all; [done|].
  by eapply within_window_app_cons.
Qed.

(** The SYN branch of [_process_packet]. *)
Lemma process_packet_syn a p c r src dst :
  syn_from src dst (p, c) →
  let chk := SYNDetector.check_syn_flood (syn_detector a) src (now_check c) in
  let out := _process_packet a p c r in
  syn_detector out.1 = chk.1
  ∧ attack_classifier out.1 = attack_classifier a
  ∧ (SYNDetector.is_attack chk.2 = false →
       firestore_logger out.1 = firestore_logger a
       ∧ firewall_manager out.1 = firewall_manager a
       ∧ attack_count out.1 = attack_count a
       ∧ blocked_ips out.2 = blocked_ips r)
  ∧ (SYNDetector.is_attack chk.2 = true →
       firestore_logger out.1
       = firestore_logger a ++ [syn_event (attack_classifier a) src dst (p, c)]
       ∧ attack_count out.1 = S (attack_count a)
       ∧ (src ∈ blocked_ips r →
            firewall_manager out.1 = firewall_manager a
            ∧ blocked_ips out.2 = blocked_ips r)
       ∧ (src ∉ blocked_ips r →
            firewall_manager out.1
            = (FirewallManager.block_ip (firewall_manager a) src (now_block c)).1
            ∧ blocked_ips out.2 = blocked_ips r ++ [src])).
Proof.
  intros [Hip Hsyn] chk out. cbn in Hip, Hsyn. subst chk out.
  unfold _process_packet. rewrite Hip, Hsyn.
  cbn [ip_src ip_dst syn_detector attack_classifier firewall_manager
       firestore_logger connections packet_count attack_count blocked_ips].
  destruct (SYNDetector.check_syn_flood (syn_detector a) src (now_check c))
    as [d [[] ? ? ?]]; cbn [SYNDetector.is_attack fst snd].
  - case_bool_decide; cbn; repeat split; intros; done.
  - cbn. repeat split; intros; done.
Qed.

(** Below the threshold a run of SYN packets only fills the window. *)
Lemma process_all_syn_quiet src dst ps : ∀ a r,
  Forall (syn_from src dst) ps →
  SYNDetector.within_window (SYNDetector.window_seconds (syn_detector a))
    (SYNDetector.window_of (syn_detector a) src ++ check_times ps) →
  (Z.of_nat (length (SYNDetector.window_of (syn_detector a) src) + length ps)
   < SYNDetector.threshold (syn_detector a))%Z →
  let out := process_all a ps r in
  firestore_logger out.1 = firestore_logger a
  ∧ firewall_manager out.1 = firewall_manager a
  ∧ attack_classifier out.1 = attack_classifier a
  ∧ attack_count out.1 = attack_count a
  ∧ blocked_ips out.2 = blocked_ips r
  ∧ SYNDetector.threshold (syn_detector out.1) = SYNDetector.threshold (syn_detector a)
  ∧ SYNDetector.window_seconds (syn_detector out.1)
    = SYNDetector.window_seconds (syn_detector a)
  ∧ SYNDetector.window_of (syn_detector out.1) src
    = SYNDetector.window_of (syn_detector a) src ++ check_times ps.
Proof.
  induction ps as [|[p c] ps IH]; intros a r Hall Hwin Hlt out.
  { subst out. cbn. by rewrite app_nil_r. }
  apply Forall_cons in Hall as [Hp Hall].
  pose proof Hp as [Hip _]. cbn in Hip.
  subst out. cbn [process_all]. rewrite Hip. cbn [has_layer].
  destruct (process_packet_syn a p c r src dst Hp) as (Hd & Hcls & Hquiet & _).
  cbn [check_times fmap list_fmap] in Hwin. cbn [snd] in Hwin.
  pose proof (check_keeps_window _ _ _ _ Hwin) as Hkeep.
  destruct (_process_packet a p c r) as [a1 r1]. cbn [fst snd] in *.
  destruct Hquiet as (Hlog & Hfw & Hcnt & Hbl).
  { rewrite check_answer, Hkeep, length_app. cbn.
    apply bool_decide_eq_false_2. cbn in Hlt. lia. }
  destruct (IH a1 r1 Hall) as (E1 & E2 & E3 & E4 & E5 & E6 & E7 & E8).
  - rewrite Hd, check_window_seconds, Hkeep, <-app_assoc. exact Hwin.
  - rewrite Hd, check_threshold, Hkeep, length_app. cbn in *. lia.
  - rewrite E1, E2, E3, E4, E5, E6, E7, E8.
    rewrite Hd, check_threshold, check_window_seconds, Hkeep, <-app_assoc.
    repeat split; congruence.
Qed.

(** At the threshold, with the source already blocked in this run, every
    SYN packet inside the window logs one entry and nothing is blocked. *)
Lemma process_all_syn_loud src dst ps : ∀ a r,
  Forall (syn_from src dst) ps →
  SYNDetector.within_window (SYNDetector.window_seconds (syn_detector a))
    (SYNDetector.window_of (syn_detector a) src ++ check_times ps) →
  (SYNDetector.threshold (syn_detector a)
   <= Z.of_nat (S (length (SYNDetector.window_of (syn_detector a) src))))%Z →
  src ∈ blocked_ips r →
  let out := process_all a ps r in
  firestore_logger out.1
  = firestore_logger a ++ (syn_event (attack_classifier a) src dst <$> ps)
  ∧ firewall_manager out.1 = firewall_manager a
  ∧ attack_count out.1 = (attack_count a + length ps)%nat
  ∧ blocked_ips out.2 = blocked_ips r.
Proof.
  induction ps as [|[p c] ps IH]; intros a r Hall Hwin Hge Hin out.
  { subst out. cbn. rewrite app_nil_r. repeat split; lia. }
  apply Forall_cons in Hall as [Hp Hall].
  pose proof Hp as [Hip _]. cbn in Hip.
  subst out. cbn [process_all]. rewrite Hip. cbn [has_layer].
  destruct (process_packet_syn a p c r src dst Hp) as (Hd & Hcls & _ & Hloud).
  cbn [check_times fmap list_fmap] in Hwin. cbn [snd] in Hwin.
  pose proof (check_keeps_window _ _ _ _ Hwin) as Hkeep.
  destruct (_process_packet a p c r) as [a1 r1]. cbn [fst snd] in *.
  destruct Hloud as (Hlog & Hcnt & Hblocked & _).
  { rewrite check_answer, Hkeep, length_app. cbn.
    apply bool_decide_eq_true_2. lia. }
  destruct (Hblocked Hin) as [Hfw Hbl].
  destruct (IH a1 r1 Hall) as (E1 & E2 & E3 & E4).
  - rewrite Hd, check_window_seconds, Hkeep, <-app_assoc. exact Hwin.
  - rewrite Hd, check_threshold, Hkeep, length_app. lia.
  - by rewrite Hbl.
  - rewrite E1, E2, E3, E4, Hlog, Hcls, Hfw, Hcnt, Hbl, <-app_assoc.
    cbn. repeat split; lia.
Qed.

(** C1, as the code has it.  Take a run whose packets all pass the
    analyzer's SYN test (TCP flags exactly [0x02]) from one source to one
    destination, with all detector clock readings inside one window, the
    threshold being 5 and the source's window empty at the start.  The
    first four packets log nothing.  From the fifth packet on, every
    packet logs one "SYN Flood" entry: two entries for six packets, and
    one more for each further SYN packet of the run.  The source is
    blocked once, when the fifth packet is processed, until that reading
    of the clock plus the configured duration; later packets of the run do
    not block again. *)
Theorem syn_flood_logged_per_packet
    (a : t) (src dst : string)
    (quiet : list (packet * clock)) (fifth : packet * clock)
    (rest : list (packet * clock)) :
  SYNDetector.threshold (syn_detector a) = 5%Z →
  SYNDetector.window_of (syn_detector a) src = [] →
  length quiet = 4%nat →
  Forall (syn_from src dst) (quiet ++ fifth :: rest) →
  SYNDetector.within_window (SYNDetector.window_seconds (syn_detector a))
    (check_times (quiet ++ fifth :: rest)) →
  let out := analyze_pcap a (quiet ++ fifth :: rest) in
  logged_by a out.1 = syn_event (attack_classifier a) src dst <$> (fifth :: rest)
  ∧ blocked_ips out.2 = [src]
  ∧ firewall_manager out.1
    = (FirewallManager.block_ip (firewall_manager a) src (now_block fifth.2)).1
  ∧ FirewallManager.blocked_ips (firewall_manager out.1) !! src
    = Some (FirewallManager.BlockInfo
              (now_block fifth.2)
              (now_block fifth.2
               + FirewallManager.block_duration (firewall_manager a))%Q)
  ∧ attacks_detected out.2 = (attack_count a + S (length rest))%nat.
Proof.
  intros HT Hempty Hlen Hall Hwin out.
  apply Forall_app in Hall as [Hquiet Hall].
  apply Forall_cons in Hall as [Hfifth Hrest].
  unfold check_times in Hwin. rewrite fmap_app, fmap_cons in Hwin.
  fold (check_times quiet) in Hwin. fold (check_times rest) in Hwin.
  set (r0 := Results (length (quiet ++ fifth :: rest)) 0 0 [] ∅).
  (* the four quiet packets *)
  destruct (process_all_syn_quiet src dst quiet a r0 Hquiet)
    as (Q1 & Q2 & Q3 & Q4 & Q5 & Q6 & Q7 & Q8).
  { rewrite Hempty. cbn [app].
    clear -Hwin. revert Hwin. generalize (check_times quiet) as l.
    induction l as [|t l IH]; cbn; [done|].
    intros [Ht Hl]. split; [|by apply IH].
    rewrite Forall_app in Ht. tauto. }
  { rewrite Hempty, HT, Hlen. cbn. lia. }
  rewrite Hempty in Q8. cbn [app] in Q8.
  (* the fifth packet *)
  destruct fifth as [p5 c5].
  pose proof Hfifth as [Hip5 _]. cbn in Hip5.
  set (a4 := (process_all a quiet r0).1) in *.
  set (r4 := (process_all a quiet r0).2) in *.
  destruct (process_packet_syn a4 p5 c5 r4 src dst Hfifth) as (Hd & Hcls & _ & Hloud).
  assert (Hkeep :
    SYNDetector.window_of
      (SYNDetector.check_syn_flood (syn_detector a4) src (now_check c5)).1 src
    = check_times quiet ++ [now_check c5]).
  { rewrite <-Q8. apply (check_keeps_window _ _ _ (check_times rest)).
    rewrite Q7, Q8. exact Hwin. }
  assert (Hlenq : length (check_times quiet) = 4%nat).
  { unfold check_times. by rewrite length_fmap. }
  destruct Hloud as (Hlog & Hcnt & _ & Hblock).
  { rewrite check_answer, Hkeep, length_app, Hlenq, Q6, HT. done. }
  destruct Hblock as [Hfw Hbl].
  { rewrite Q5. subst r0. cbn. apply not_elem_of_nil. }
  (* the packets after it *)
  set (a5 := (_process_packet a4 p5 c5 r4).1) in *.
  set (r5 := (_process_packet a4 p5 c5 r4).2) in *.
  destruct (process_all_syn_loud src dst rest a5 r5 Hrest) as (L1 & L2 & L3 & L4).
  { rewrite Hd, check_window_seconds, Hkeep, Q7, <-app_assoc. exact Hwin. }
  { rewrite Hd, check_threshold, Hkeep, length_app, Hlenq, Q6, HT. cbn. lia. }
  { rewrite Hbl. apply elem_of_app. right. by apply list_elem_of_singleton. }
  (* the run as a whole *)
  assert (Hrun : process_all a (quiet ++ (p5, c5) :: rest) r0 = process_all a5 rest r5).
  { rewrite process_all_app. fold a4 r4. cbn [process_all].
    rewrite Hip5. cbn [has_layer]. subst a5 r5.
    by destruct (_process_packet a4 p5 c5 r4). }
  assert (Hout1 : out.1 = (process_all a5 rest r5).1).
  { subst out. unfold analyze_pcap. fold r0. rewrite Hrun.
    by destruct (process_all a5 rest r5). }
  assert (Hout2 : blocked_ips out.2 = blocked_ips (process_all a5 rest r5).2
                  ∧ attacks_detected out.2 = attack_count (process_all a5 rest r5).1).
  { subst out. unfold analyze_pcap. fold r0. rewrite Hrun.
    by destruct (process_all a5 rest r5). }
  destruct Hout2 as [Hob Hoa].
  unfold logged_by.
  rewrite Hout1, Hob, Hoa, L1, L2, L3, L4, Hlog, Hcls, Hfw, Hcnt, Hbl, Q1, Q2, Q3, Q4, Q5.
  split; [|split; [|split; [|split]]].
  - rewrite <-app_assoc, drop_app_length.
    rewrite fmap_cons. done.
  - subst r0. done.
  - done.
  - cbn. by rewrite lookup_insert_eq.
  - cbn. lia.
Qed.

Lemma syn_flood_logged_per_packet_witness :
  let out := analyze_pcap app_analyzer Scenario.six_syns in
  length (logged_by app_analyzer out.1) = 2%nat
  ∧ blocked_ips out.2 = ["10.0.0.5"]
  ∧ FirewallManager.blocked_ips (firewall_manager out.1) !! "10.0.0.5"
    = Some (FirewallManager.BlockInfo 1.4 (1.4 + 10 * 60)%Q).
Proof.
  intros out.
  destruct (syn_flood_logged_per_packet app_analyzer "10.0.0.5" "10.0.0.1"
              (Scenario.syns_at [1; 1.1; 1.2; 1.3]%Q)
              (Scenario.tcp_packet 2, Scenario.at_time 1.4)
              (Scenario.syns_at [1.5]%Q))
    as (Hlog & Hbl & _ & Hfw & _).
  - reflexivity.
  - reflexivity.
  - reflexivity.
  - repeat constructor.
  - cbn. repeat split; repeat constructor; cbn; lra.
  - subst out. split; [|split].
    + change Scenario.six_syns
        with (Scenario.syns_at [1; 1.1; 1.2; 1.3]%Q
              ++ (Scenario.tcp_packet 2, Scenario.at_time 1.4)
                 :: Scenario.syns_at [1.5]%Q).
      rewrite Hlog. reflexivity.
    + exact Hbl.
    + exact Hfw.
Defined.

(** C1 fails as stated: six packets with SYN set and ACK clear from
    [10.0.0.5] to [10.0.0.1], processed within half a second under
    threshold 5 and window 2 s, log two "SYN Flood" entries, not one; and a
    seventh SYN packet of the same run, still inside the window, logs a
    third. *)
Lemma six_syns_log_two_events :
  let out := analyze_pcap app_analyzer Scenario.six_syns in
  let more := analyze_pcap app_analyzer (Scenario.six_syns ++ Scenario.syns_at [1.6]%Q) in
  Forall (λ pc, ∃ l, tcp pc.1 = Some l
                     ∧ Z.land (tcp_flags l) 2 ≠ 0%Z
                     ∧ Z.land (tcp_flags l) 16 = 0%Z)
         Scenario.six_syns
  ∧ attack_type <$> logged_by app_analyzer out.1 = ["SYN Flood"; "SYN Flood"]
  ∧ attacks_detected out.2 = 2%nat
  ∧ attack_type <$> logged_by app_analyzer more.1
    = ["SYN Flood"; "SYN Flood"; "SYN Flood"].
Proof.
  cbv zeta. split; [|by vm_compute].
  repeat constructor; eexists; (split; [reflexivity|]); by vm_compute.
Qed.

End analyzer.

(** ** The batch aggregator *)

Section etl.
Import Scapy ETLPipeline.

Lemma transform_packet_None p idx :
  _transform_packet p idx = None ↔ fromtimestamp (time p) = None.
Proof.
  unfold _transform_packet.
  destruct (fromtimestamp (time p)); [|done].
  destruct (ip p), (tcp p), (udp p), (icmp p), (arp p); done.
Qed.

Lemma transform_packet_Some p idx :
  decodable p → ∃ pd, _transform_packet p idx = Some pd.
Proof.
  intros Hd. destruct (_transform_packet p idx) eqn:E; [eauto|].
  apply transform_packet_None in E. destruct Hd as [? Hd]. congruence.
Qed.

(** Tracking a connection touches [connections_created] only. *)
Lemma track_connection_stats st m pd :
  let st' := (track_connection st m pd).1 in
  total_packets st' = total_packets st
  ∧ processed_packets st' = processed_packets st
  ∧ failed_packets st' = failed_packets st
  ∧ attacks_detected st' = attacks_detected st
  ∧ start_time st' = start_time st
  ∧ end_time st' = end_time st.
Proof.
  unfold track_connection.
  destruct (src_ip pd), (dst_ip pd); cbn; try done.
  destruct (m !! _); cbn; done.
Qed.

(** What one iteration of the loop does to the counters and to the list
    of decoded records. *)
Lemma transform_step_stats ls p idx :
  let ls' := transform_step ls p idx in
  total_packets (ls_stats ls') = total_packets (ls_stats ls)
  ∧ failed_packets (ls_stats ls') = failed_packets (ls_stats ls)
  ∧ start_time (ls_stats ls') = start_time (ls_stats ls)
  ∧ end_time (ls_stats ls') = end_time (ls_stats ls)
  ∧ processed_packets (ls_stats ls')
    = (processed_packets (ls_stats ls) + if decide (decodable p) then 1 else 0)%nat
  ∧ length (ls_packets ls')
    = (length (ls_packets ls) + if decide (decodable p) then 1 else 0)%nat.
Proof.
  unfold transform_step.
  destruct (_transform_packet p idx) as [pd|] eqn:E.
  - assert (Hd : decodable p).
    { unfold decodable. destruct (fromtimestamp (time p)) eqn:F; [eauto|].
      apply (transform_packet_None p idx) in F. congruence. }
    rewrite decide_True by done.
    match goal with
    | |- context [track_connection ?st ?m pd] =>
        pose proof (track_connection_stats st m pd) as Ht;
        destruct (track_connection st m pd) as [st1 m1]
    end.
    cbn in Ht. destruct Ht as (T1 & T2 & T3 & T4 & T5 & T6).
    match goal with
    | |- context [_detect_attacks pd ?ips] =>
        destruct (_detect_attacks pd ips) as [ips1 [a1|]]
    end; cbn; rewrite ?length_app; cbn; repeat split; lia || congruence.
  - assert (Hd : ¬ decodable p).
    { apply transform_packet_None in E. unfold decodable. rewrite E.
      by intros [? ?]. }
    rewrite decide_False by done. cbn. repeat split; lia.
Qed.

(** The same over the whole loop: [total_packets] and [failed_packets]
    are left as they were, and [processed_packets] grows by the number of
    decodable packets. *)
Lemma transform_loop_stats ps : ∀ ls idx,
  let ls' := transform_loop ls ps idx in
  total_packets (ls_stats ls') = total_packets (ls_stats ls)
  ∧ failed_packets (ls_stats ls') = failed_packets (ls_stats ls)
  ∧ start_time (ls_stats ls') = start_time (ls_stats ls)
  ∧ end_time (ls_stats ls') = end_time (ls_stats ls)
  ∧ processed_packets (ls_stats ls')
    = (processed_packets (ls_stats ls) + length (filter decodable ps))%nat
  ∧ length (ls_packets ls')
    = (length (ls_packets ls) + length (filter decodable ps))%nat.
Proof.
  induction ps as [|p ps IH]; intros ls idx; cbn [transform_loop].
  { cbn. repeat split; lia. }
  destruct (IH (transform_step ls p idx) (S idx)) as (I1 & I2 & I3 & I4 & I5 & I6).
  destruct (transform_step_stats ls p idx) as (S1 & S2 & S3 & S4 & S5 & S6).
  cbv zeta. rewrite I1, I2, I3, I4, I5, I6, S1, S2, S3, S4, S5, S6.
  destruct (decide (decodable p)).
  - rewrite filter_cons_True by done. cbn. repeat split; lia.
  - rewrite filter_cons_False by done. repeat split; lia.
Qed.

(** A loop over packets that cannot be decoded changes nothing. *)
Lemma transform_loop_undecodable ps : ∀ ls idx,
  Forall (λ p, ¬ decodable p) ps → transform_loop ls ps idx = ls.
Proof.
  induction ps as [|p ps IH]; intros ls idx Hall; [done|].
  apply Forall_cons in Hall as [Hp Hall]. cbn [transform_loop].
  assert (transform_step ls p idx = ls) as ->; [|by apply IH].
  unfold transform_step.
  destruct (_transform_packet p idx) eqn:E; [|done].
  exfalso. apply Hp. unfold decodable.
  destruct (fromtimestamp (time p)) eqn:F; [eauto|].
  apply (transform_packet_None p idx) in F. congruence.
Qed.

(** *** Extraction *)

Lemma read_all_inl files : ∀ acc,
  (∃ e, read_all files acc = inl e) ↔ Exists (λ f, ∃ m, f.2 = inl m) files.
Proof.
  induction files as [|[name [m|ps]] files IH]; intros acc; cbn.
  - split; [by intros [? ?]|by intros ?%Exists_nil].
  - split; [|eauto]. intros _. apply Exists_cons_hd. cbn. eauto.
  - rewrite IH, Exists_cons. cbn. split; [tauto|].
    intros [[? ?]|?]; [done|tauto].
Qed.

(** [extract] sets [start_time] whatever happens, and on success sets
    [total_packets] to the number of packets read and touches no other
    counter. *)
Lemma extract_stats fs st source now :
  let out := extract fs st source now in
  start_time out.1 = Some now
  ∧ end_time out.1 = end_time st
  ∧ processed_packets out.1 = processed_packets st
  ∧ failed_packets out.1 = failed_packets st
  ∧ connections_created out.1 = connections_created st
  ∧ attacks_detected out.1 = attacks_detected st
  ∧ (∀ packets, out.2 = inr packets → total_packets out.1 = length packets)
  ∧ (∀ e, out.2 = inl e → total_packets out.1 = total_packets st).
Proof.
  unfold extract.
  match goal with |- context [match ?o with inl _ => _ | inr _ => _ end] =>
    destruct o as [e|packets] end; cbn; repeat split; try done.
  - by intros ? [= <-].
Qed.

(** When [extract] fails: the path is missing, or is a file that is not
    named as a capture or cannot be read, or is a directory without
    capture files or with one that cannot be read. *)
Lemma extract_fails fs st source now :
  (∃ e, (extract fs st source now).2 = inl e)
  ↔ match fs source with
    | None => True
    | Some (File content) =>
        is_capture_name source = false ∨ ∃ m, content = inl m
    | Some (Dir entries) =>
        filter (λ e, is_capture_name e.1 = true) entries = []
        ∨ Exists (λ f, ∃ m, f.2 = inl m)
                 (filter (λ e, is_capture_name e.1 = true) entries)
    end.
Proof.
  unfold extract. destruct (fs source) as [[content|entries]|]; cbn.
  - destruct (is_capture_name source); cbn.
    + destruct content as [m|ps]; cbn.
      * split; [eauto|eauto].
      * split; [by intros [? ?]|]. intros [?|[? ?]]; done.
    + split; [eauto|eauto].
  - destruct (filter _ entries) as [|f files] eqn:Hf; cbn [snd].
    + cbn. split; [eauto|eauto].
    + pose proof (read_all_inl (f :: files) []) as Hr.
      destruct (read_all (f :: files) []) as [m|ps]; cbn.
      * split; [|eauto]. intros _. right. apply Hr. eauto.
      * split; [by intros [? ?]|]. intros [?|Hex]; [done|].
        apply Hr in Hex as [? ?]. done.
  - split; eauto.
Qed.

(** *** Loading *)

Lemma range0_inl n step : (∃ e, range0 n step = inl e) ↔ step = 0%Z.
Proof.
  unfold range0. destruct (Z.eqb_spec step 0) as [->|Hne].
  - split; eauto.
  - destruct (step <? 0)%Z; split; try done; by intros [? ?].
Qed.

Lemma load_batches_inl {A} s collection (records : list A) batch_size :
  (∃ e, load_batches s collection records batch_size = inl e)
  ↔ records ≠ [] ∧ batch_size = 0%Z.
Proof.
  unfold load_batches. destruct records as [|x records].
  - split; [by intros [? ?]|by intros [? _]].
  - pose proof (range0_inl (length (x :: records)) batch_size) as Hr.
    destruct (range0 (length (x :: records)) batch_size) as [e|starts].
    + split; [|eauto]. intros _. split; [done|]. apply Hr. eauto.
    + split; [by intros [? ?]|]. intros [_ H0]. apply Hr in H0 as [? ?]. done.
Qed.

(** [load] leaves the counters alone, and once [extract] has set
    [start_time] it raises only on a zero batch size with something to
    load; no outcome of a write to the sink enters into it. *)
Lemma load_outcome s st td batch_size now t0 :
  start_time st = Some t0 →
  let out := load s st td batch_size now in
  total_packets out.1 = total_packets st
  ∧ processed_packets out.1 = processed_packets st
  ∧ failed_packets out.1 = failed_packets st
  ∧ connections_created out.1 = connections_created st
  ∧ attacks_detected out.1 = attacks_detected st
  ∧ ((∃ e, out.2 = inl e)
     ↔ batch_size = 0%Z ∧ (td_packets td ≠ [] ∨ td_connections td ≠ [])).
Proof.
  intros Hstart. unfold load.
  pose proof (load_batches_inl s "packets" (td_packets td) batch_size) as Hp.
  pose proof (load_batches_inl s "connections" (td_connections td) batch_size) as Hc.
  destruct (load_batches s "packets" (td_packets td) batch_size) as [e|[np wp]].
  { assert (td_packets td ≠ [] ∧ batch_size = 0%Z) as [? ?] by (apply Hp; eauto).
    cbn. split_and!; try done. split; eauto. }
  destruct (load_batches s "connections" (td_connections td) batch_size) as [e|[nc wc]].
  { assert (td_connections td ≠ [] ∧ batch_size = 0%Z) as [? ?] by (apply Hc; eauto).
    cbn. split_and!; try done. split; eauto. }
  cbn [start_time]. rewrite Hstart. cbn. split_and!; try done.
  split; [by intros [? ?]|].
  intros [H0 [Hne|Hne]].
  - destruct Hp as [_ Hp]. destruct Hp as [? ?]; done.
  - destruct Hc as [_ Hc]. destruct Hc as [? ?]; done.
Qed.

(** *** Whole runs *)

Lemma filter_nil_Forall {A} (P : A → Prop) `{∀ x, Decision (P x)} (l : list A) :
  length (filter P l) = 0%nat → Forall (λ x, ¬ P x) l.
Proof.
  induction l as [|x l IH]; [constructor|].
  destruct (decide (P x)).
  - rewrite filter_cons_True by done. done.
  - rewrite filter_cons_False by done. intros. constructor; auto.
Qed.

(** The counters and the verdict of one [run], from the state it starts
    in. *)
Lemma run_counts s fs st source batch_size t0 t1 :
  let out := run s fs st source batch_size t0 t1 in
  res_stats out.2 = out.1
  ∧ failed_packets out.1 = failed_packets st
  ∧ (∀ packets, (extract fs st source t0).2 = inr packets →
       total_packets out.1 = length packets
       ∧ processed_packets out.1
         = (processed_packets st + length (filter decodable packets))%nat
       ∧ (success out.2 = true
          ↔ batch_size ≠ 0%Z ∨ Forall (λ p, ¬ decodable p) packets))
  ∧ (∀ e, (extract fs st source t0).2 = inl e →
       success out.2 = false ∧ error out.2 = Some e
       ∧ total_packets out.1 = total_packets st
       ∧ processed_packets out.1 = processed_packets st).
Proof.
  unfold run.
  destruct (extract_stats fs st source t0) as (X1 & X2 & X3 & X4 & X5 & X6 & X7 & X8).
  destruct (extract fs st source t0) as [st1 [e|packets]]; cbn [fst snd] in *.
  { split_and!; try done.
    intros e' [= <-]. split_and!; try done. exact (X8 _ eq_refl). }
  unfold transform.
  destruct (transform_loop_stats packets (LoopState st1 [] [] ∅ ∅) 0)
    as (T1 & T2 & T3 & T4 & T5 & T6).
  pose proof (transform_loop_undecodable packets (LoopState st1 [] [] ∅ ∅) 0) as Hund.
  set (ls := transform_loop (LoopState st1 [] [] ∅ ∅) packets 0) in *.
  cbn [ls_stats ls_packets] in *.
  set (td := TransformedData (ls_packets ls) ((map_to_list (connections_map ls)).*2)
                             (ls_attacks ls) (ip_stats ls)).
  destruct (load_outcome s (ls_stats ls) td batch_size t1 t0)
    as (L1 & L2 & L3 & L4 & L5 & L6); [congruence|].
  destruct (load s (ls_stats ls) td batch_size t1) as [st3 [e|[lst w]]];
    cbn [fst snd] in *.
  - split_and!; try done; [congruence|].
    intros ? [= <-]. split_and!; [rewrite L1, T1; exact (X7 _ eq_refl)|congruence|].
    cbn. split; [done|]. intros Hok.
    destruct L6 as [L6 _]. destruct L6 as [H0 Hne]; [eauto|].
    destruct Hok as [?|Hall]; [done|].
    subst td. cbn [td_packets td_connections] in Hne.
    rewrite (Hund Hall) in Hne. cbn in Hne. rewrite map_to_list_empty in Hne.
    destruct Hne; done.
  - split_and!; try done; [congruence|].
    intros ? [= <-]. split_and!; [rewrite L1, T1; exact (X7 _ eq_refl)|congruence|].
    cbn. split; [|done]. intros _.
    destruct (decide (batch_size = 0%Z)) as [H0|]; [|by left]. right.
    apply (filter_nil_Forall decodable packets).
    destruct (ls_packets ls) as [|pd pds] eqn:Hps; [cbn in T6; lia|].
    destruct L6 as [_ L6]. destruct L6 as [? ?]; [|done].
    split; [done|]. left. subst td. by cbn.
Qed.

(** C4, as the code has it.  A run always returns a result that carries
    the accumulated counters.  Its [success] is true exactly when the
    extraction succeeded and [load] raised nothing, and [load] raises only
    when the batch size is 0 and at least one record was decoded.  The
    outcome of the writes to the sink plays no part: with every batch
    commit, local save and attack write failing, [success] is what it is
    with all of them succeeding.  The extraction fails exactly when the
    source is missing, is a file without a capture suffix or that cannot be
    read, or is a directory without capture files or with a capture file
    that cannot be read. *)
Theorem run_success_iff
    (s : sink) (fs : filesystem) (st : stats) (source : string)
    (batch_size : Z) (t0 t1 : Q) :
  let out := run s fs st source batch_size t0 t1 in
  res_stats out.2 = out.1
  ∧ (success out.2 = true
     ↔ ∃ packets, (extract fs st source t0).2 = inr packets
                  ∧ (batch_size ≠ 0%Z ∨ Forall (λ p, ¬ decodable p) packets))
  ∧ ((∃ e, (extract fs st source t0).2 = inl e)
     ↔ match fs source with
       | None => True
       | Some (File content) =>
           is_capture_name source = false ∨ ∃ m, content = inl m
       | Some (Dir entries) =>
           filter (λ e, is_capture_name e.1 = true) entries = []
           ∨ Exists (λ f, ∃ m, f.2 = inl m)
                    (filter (λ e, is_capture_name e.1 = true) entries)
       end)
  ∧ (∀ s', success (run s' fs st source batch_size t0 t1).2 = success out.2).
Proof.
  intros out.
  assert (Hiff : ∀ s0,
    success (run s0 fs st source batch_size t0 t1).2 = true
    ↔ ∃ packets, (extract fs st source t0).2 = inr packets
                 ∧ (batch_size ≠ 0%Z ∨ Forall (λ p, ¬ decodable p) packets)).
  { intros s0.
    destruct (run_counts s0 fs st source batch_size t0 t1) as (_ & _ & Hok & Hko).
    destruct ((extract fs st source t0).2) as [e|packets].
    - destruct (Hko e eq_refl) as (-> & _). split; [done|]. by intros (? & ? & _).
    - destruct (Hok packets eq_refl) as (_ & _ & ->).
      split; [eauto|]. by intros (? & [= <-] & ?). }
  split_and!.
  - by destruct (run_counts s fs st source batch_size t0 t1) as (? & _).
  - apply Hiff.
  - apply extract_fails.
  - intros s'. subst out.
    pose proof (Hiff s) as H1. pose proof (Hiff s') as H2.
    destruct (success (run s fs st source batch_size t0 t1).2),
             (success (run s' fs st source batch_size t0 t1).2); try done.
    + by apply H2, H1.
    + symmetry. by apply H1, H2.
Qed.

(** C4 fails as stated: with a batch size of 0 the extraction of a
    one-packet capture succeeds, and yet the run answers [success = false]:
    [range] raises in [load] and the handler of [run] catches it. *)
Lemma zero_batch_size_fails_run :
  let out := run Scenario.good_sink Scenario.disk init "one.pcap" 0 0 1 in
  (extract Scenario.disk init "one.pcap" 0).2 = inr [Scenario.udp_packet]
  ∧ success out.2 = false
  ∧ error out.2 = Some "range() arg 3 must not be zero"
  ∧ processed_packets (res_stats out.2) = 1%nat.
Proof. by vm_compute. Qed.

(** C3, at the failing input: a capture whose only packet cannot be dated
    is extracted ([total_packets = 1]) and the run succeeds, but the
    packet is counted neither as processed nor as failed, so
    [total_packets] is not [processed_packets + failed_packets]. *)
Theorem undatable_packet_not_counted :
  let out := run Scenario.good_sink Scenario.disk init "damaged.pcapng" 100 0 1 in
  success out.2 = true
  ∧ total_packets (res_stats out.2) = 1%nat
  ∧ processed_packets (res_stats out.2) = 0%nat
  ∧ failed_packets (res_stats out.2) = 0%nat
  ∧ total_packets (res_stats out.2)
    ≠ (processed_packets (res_stats out.2) + failed_packets (res_stats out.2))%nat.
Proof. by vm_compute. Qed.

(** C5, at the failing input: two runs of one pipeline object over the
    same one-packet capture.  The second result reports one extracted
    packet but two processed packets and two created connections: the
    counters of the first run were not reset. *)
Theorem second_run_keeps_counters :
  let calls := [("one.pcap", 100%Z, 0%Q, 1%Q); ("one.pcap", 100%Z, 2%Q, 3%Q)] in
  let results := (run_all Scenario.good_sink Scenario.disk init calls).2 in
  (λ r, (success r, total_packets (res_stats r), processed_packets (res_stats r),
         connections_created (res_stats r))) <$> results
  = [(true, 1, 1, 1); (true, 1, 2, 2)]%nat.
Proof. by vm_compute. Qed.

(** *** Attack detection in the transform phase *)

Lemma truthy_Some o s : truthy o = Some s ↔ o = Some s ∧ s ≠ "".
Proof.
  unfold truthy. destruct o as [x|]; [|by split; [|intros [? _]]].
  destruct (String.eqb_spec x "") as [->|Hne].
  - split; [done|]. by intros [[= <-] ?].
  - split; [by intros [= <-]|]. by intros [[= <-] _].
Qed.

(** Updating the statistics of an address keeps the attack counters of
    every address, and keeps every entry present. *)
Lemma update_ip_stats_counts ips pd d s :
  (_update_ip_stats ips pd d !! s) ≫= syn_packet_count
  = (ips !! s) ≫= syn_packet_count
  ∧ (_update_ip_stats ips pd d !! s) ≫= udp_packet_count
    = (ips !! s) ≫= udp_packet_count
  ∧ (is_Some (ips !! s) → is_Some (_update_ip_stats ips pd d !! s)).
Proof.
  unfold _update_ip_stats.
  destruct (truthy _) as [k|]; [|done].
  destruct (decide (k = s)) as [->|Hne].
  - rewrite lookup_insert_eq. destruct (ips !! s); cbn; eauto.
  - rewrite lookup_insert_ne by done. done.
Qed.

Lemma update_ip_stats_src ips pd s :
  truthy (src_ip pd) = Some s → is_Some (_update_ip_stats ips pd src !! s).
Proof.
  intros H. unfold _update_ip_stats. rewrite H, lookup_insert_eq. eauto.
Qed.

(** The table that [_detect_attacks] receives: the source is present in
    it, and no attack counter has moved. *)
Lemma update_both_counts ips pd k :
  syn_count_of (update_both ips pd) k = syn_count_of ips k
  ∧ udp_count_of (update_both ips pd) k = udp_count_of ips k.
Proof.
  unfold update_both, syn_count_of, udp_count_of.
  destruct (src_ip pd), (dst_ip pd);
    repeat match goal with
    | |- context [_update_ip_stats ?m pd ?d !! k] =>
        destruct (update_ip_stats_counts m pd d k) as (-> & -> & _)
    end; done.
Qed.

Lemma update_both_src ips pd s :
  truthy (src_ip pd) = Some s → is_Some (update_both ips pd !! s).
Proof.
  intros Hs. unfold update_both.
  pose proof (update_ip_stats_src ips pd s Hs) as Hin.
  destruct (src_ip pd); [|done].
  destruct (dst_ip pd); [|done].
  by apply update_ip_stats_counts.
Qed.

(** The SYN branch of [_detect_attacks]. *)
Lemma detect_attacks_syn pd ips s :
  pd_syn_from s pd → is_Some (ips !! s) →
  let c := syn_count_of ips s in
  let out := _detect_attacks pd ips in
  syn_count_of out.1 s = S c
  ∧ (∀ k, k ≠ s → syn_count_of out.1 k = syn_count_of ips k)
  ∧ (∀ k, udp_count_of out.1 k = udp_count_of ips k)
  ∧ out.2 = if bool_decide (5 < S c)%nat
            then Some (Attack "SYN Flood" s (dst_ip pd) "high" (S c)
                              (timestamp pd) (dst_port pd) (tcp_flags pd))
            else None.
Proof.
  intros (Hs & Hp & Hf) [e He] c out. subst c out.
  unfold _detect_attacks, syn_count_of, udp_count_of.
  rewrite Hs, Hp, Hf, He. cbn. rewrite lookup_insert_eq. cbn.
  rewrite Nat.add_1_r. split_and!; try done.
  - intros k Hk. by rewrite lookup_insert_ne.
  - intros k. destruct (decide (s = k)) as [<-|Hk].
    + by rewrite lookup_insert_eq, He.
    + by rewrite lookup_insert_ne.
Qed.

(** The UDP branch of [_detect_attacks]. *)
Lemma detect_attacks_udp pd ips s :
  pd_udp_from s pd → is_Some (ips !! s) →
  let c := udp_count_of ips s in
  let out := _detect_attacks pd ips in
  udp_count_of out.1 s = S c
  ∧ (∀ k, k ≠ s → udp_count_of out.1 k = udp_count_of ips k)
  ∧ (∀ k, syn_count_of out.1 k = syn_count_of ips k)
  ∧ out.2 = if bool_decide (100 < S c)%nat
            then Some (Attack "UDP Flood" s (dst_ip pd) "medium" (S c)
                              (timestamp pd) (dst_port pd) None)
            else None.
Proof.
  intros (Hs & Hp) [e He] c out. subst c out.
  unfold _detect_attacks, syn_count_of, udp_count_of.
  rewrite Hs, Hp, He. cbn. rewrite lookup_insert_eq. cbn.
  rewrite Nat.add_1_r. split_and!; try done.
  - intros k Hk. by rewrite lookup_insert_ne.
  - intros k. destruct (decide (s = k)) as [<-|Hk].
    + by rewrite lookup_insert_eq, He.
    + by rewrite lookup_insert_ne.
Qed.

(** Any other record leaves both counters of every address alone and
    yields no attack. *)
Lemma detect_attacks_other pd ips :
  (∀ s, ¬ pd_syn_from s pd) → (∀ s, ¬ pd_udp_from s pd) →
  _detect_attacks pd ips = (ips, None).
Proof.
  intros Hsyn Hudp. unfold _detect_attacks.
  destruct (truthy (src_ip pd)) as [s|] eqn:Hs; [|done].
  destruct (String.eqb_spec (protocol pd) "TCP") as [Hp|Hp].
  - destruct (syn_without_ack pd) eqn:Hf; [|done].
    by destruct (Hsyn s).
  - destruct (String.eqb_spec (protocol pd) "UDP") as [Hu|Hu]; [|done].
    by destruct (Hudp s).
Qed.

(** What [_detect_attacks] counts, read off the packet itself. *)
Lemma pd_syn_from_raw p idx pd s :
  _transform_packet p idx = Some pd → pd_syn_from s pd ↔ raw_syn_from s p.
Proof.
  unfold _transform_packet, pd_syn_from, raw_syn_from, decodable, syn_without_ack.
  destruct (fromtimestamp (time p)) as [ts|]; [|done].
  rewrite truthy_Some.
  destruct (ip p) as [l|], (tcp p) as [t|], (udp p), (icmp p), (arp p);
    intros [= <-]; cbn;
    try (split; [intros (_ & ? & _); done | intros (_ & _ & ? & ? & ? & _); done]).
  all: rewrite andb_true_iff, negb_true_iff.
  all: split;
    [ intros ([[= <-] ?] & _ & ? & ?); split_and!; eauto
    | intros (_ & ? & [= <-] & ? & [= <-] & ? & ?); split_and!; eauto ].
Qed.

Lemma pd_udp_from_raw p idx pd s :
  _transform_packet p idx = Some pd → pd_udp_from s pd ↔ raw_udp_from s p.
Proof.
  unfold _transform_packet, pd_udp_from, raw_udp_from, decodable.
  destruct (fromtimestamp (time p)) as [ts|]; [|done].
  rewrite truthy_Some.
  destruct (ip p) as [l|], (tcp p) as [t|], (udp p), (icmp p), (arp p);
    intros [= <-]; cbn;
    try (split; [intros (_ & ?); done
                | intros (_ & _ & ? & ? & [? ?]); done]).
  all: split;
    [ intros ([[= <-] ?] & _); split_and!; eauto
    | intros (_ & ? & [= <-] & _); split_and!; eauto ].
Qed.

(** The counters after [_detect_attacks], for any record and any
    address, when the record's source is in the table. *)
Lemma detect_attacks_counts pd ips s :
  (∀ s', truthy (src_ip pd) = Some s' → is_Some (ips !! s')) →
  syn_count_of (_detect_attacks pd ips).1 s
  = (syn_count_of ips s + if decide (pd_syn_from s pd) then 1 else 0)%nat
  ∧ udp_count_of (_detect_attacks pd ips).1 s
    = (udp_count_of ips s + if decide (pd_udp_from s pd) then 1 else 0)%nat.
Proof.
  intros Hin.
  assert (Hcase : (∃ s', truthy (src_ip pd) = Some s') ∨ truthy (src_ip pd) = None)
    by (destruct (truthy (src_ip pd)); eauto).
  destruct Hcase as [[s' Hs']|Hs'].
  - specialize (Hin s' Hs').
    destruct (decide (pd_syn_from s' pd)) as [Hsyn|Hnsyn].
    + destruct (detect_attacks_syn pd ips s' Hsyn Hin) as (C1 & C2 & C3 & _).
      pose proof Hsyn as (_ & Hp & _).
      rewrite (decide_False (P := pd_udp_from s pd))
        by (intros (_ & Hu); congruence).
      rewrite C3. split; [|lia].
      destruct (decide (s = s')) as [->|Hne].
      * rewrite decide_True by done. lia.
      * rewrite decide_False by (intros (Hs & _); congruence).
        rewrite C2 by done. lia.
    + destruct (decide (pd_udp_from s' pd)) as [Hudp|Hnudp].
      * destruct (detect_attacks_udp pd ips s' Hudp Hin) as (C1 & C2 & C3 & _).
        pose proof Hudp as (_ & Hp).
        rewrite (decide_False (P := pd_syn_from s pd))
          by (intros (_ & Hu & _); congruence).
        rewrite C3. split; [lia|].
        destruct (decide (s = s')) as [->|Hne].
        -- rewrite decide_True by done. lia.
        -- rewrite decide_False by (intros (Hs & _); congruence).
           rewrite C2 by done. lia.
      * rewrite detect_attacks_other.
        -- rewrite !decide_False; [cbn; lia| |];
             intros Hq; pose proof Hq as (Hs & _);
             assert (s = s') as -> by congruence; done.
        -- intros s0 Hq. pose proof Hq as (Hs & _).
           assert (s0 = s') as -> by congruence. done.
        -- intros s0 Hq. pose proof Hq as (Hs & _).
           assert (s0 = s') as -> by congruence. done.
  - rewrite detect_attacks_other.
    + rewrite !decide_False; [cbn; lia| |]; intros (Hs & _); congruence.
    + intros s0 (Hs & _). congruence.
    + intros s0 (Hs & _). congruence.
Qed.

(** One iteration of the loop on a decoded record, in terms of what
    [_detect_attacks] answers. *)
Lemma transform_step_Some ls p idx pd :
  _transform_packet p idx = Some pd →
  let det := _detect_attacks pd (update_both (ip_stats ls) pd) in
  let ls' := transform_step ls p idx in
  ip_stats ls' = det.1
  ∧ ls_attacks ls' = ls_attacks ls ++ (if det.2 is Some a then [a] else [])
  ∧ attacks_detected (ls_stats ls')
    = (attacks_detected (ls_stats ls) + if det.2 is Some _ then 1 else 0)%nat.
Proof.
  intros E det ls'. subst det ls'. unfold transform_step. rewrite E.
  match goal with
  | |- context [track_connection ?st ?m pd] =>
      pose proof (track_connection_stats st m pd) as Ht;
      destruct (track_connection st m pd) as [st1 m1]
  end.
  cbn in Ht. destruct Ht as (_ & _ & _ & T4 & _).
  destruct (_detect_attacks pd (update_both (ip_stats ls) pd)) as [ips1 [a1|]]; cbn.
  - split_and!; [done|done|lia].
  - rewrite app_nil_r. split_and!; [done|done|lia].
Qed.

(** Both counters are lifetime counters: an iteration adds one for a
    qualifying packet of the address and never takes anything away. *)
Lemma transform_step_counts ls p idx s :
  syn_count_of (ip_stats (transform_step ls p idx)) s
  = (syn_count_of (ip_stats ls) s + if decide (raw_syn_from s p) then 1 else 0)%nat
  ∧ udp_count_of (ip_stats (transform_step ls p idx)) s
    = (udp_count_of (ip_stats ls) s + if decide (raw_udp_from s p) then 1 else 0)%nat.
Proof.
  destruct (_transform_packet p idx) as [pd|] eqn:E.
  - destruct (transform_step_Some ls p idx pd E) as (-> & _).
    destruct (detect_attacks_counts pd (update_both (ip_stats ls) pd) s) as [-> ->].
    { intros s'. apply update_both_src. }
    destruct (update_both_counts (ip_stats ls) pd s) as [-> ->].
    rewrite (decide_ext (pd_syn_from s pd) (raw_syn_from s p))
      by exact (pd_syn_from_raw p idx pd s E).
    rewrite (decide_ext (pd_udp_from s pd) (raw_udp_from s p))
      by exact (pd_udp_from_raw p idx pd s E).
    done.
  - unfold transform_step. rewrite E.
    apply transform_packet_None in E.
    rewrite !decide_False; [lia| |]; intros ([? Hd] & _); congruence.
Qed.

Lemma transform_loop_counts ps : ∀ ls idx s,
  syn_count_of (ip_stats (transform_loop ls ps idx)) s
  = (syn_count_of (ip_stats ls) s + length (filter (raw_syn_from s) ps))%nat
  ∧ udp_count_of (ip_stats (transform_loop ls ps idx)) s
    = (udp_count_of (ip_stats ls) s + length (filter (raw_udp_from s) ps))%nat.
Proof.
  induction ps as [|p ps IH]; intros ls idx s; cbn [transform_loop].
  { cbn. lia. }
  destruct (IH (transform_step ls p idx) (S idx) s) as [-> ->].
  destruct (transform_step_counts ls p idx s) as [-> ->].
  destruct (decide (raw_syn_from s p));
    [rewrite (filter_cons_True (raw_syn_from s)) by done
    |rewrite (filter_cons_False (raw_syn_from s)) by done];
    (destruct (decide (raw_udp_from s p));
     [rewrite (filter_cons_True (raw_udp_from s)) by done
     |rewrite (filter_cons_False (raw_udp_from s)) by done]);
    cbn; lia.
Qed.

(** Every attack record is counted in [attacks_detected], one for one. *)
Lemma transform_loop_attacks ps : ∀ ls idx,
  ∃ new, ls_attacks (transform_loop ls ps idx) = ls_attacks ls ++ new
         ∧ attacks_detected (ls_stats (transform_loop ls ps idx))
           = (attacks_detected (ls_stats ls) + length new)%nat.
Proof.
  induction ps as [|p ps IH]; intros ls idx; cbn [transform_loop].
  { exists []. rewrite app_nil_r. split; [done|cbn; lia]. }
  destruct (IH (transform_step ls p idx) (S idx)) as (new & -> & ->).
  destruct (_transform_packet p idx) as [pd|] eqn:E.
  - destruct (transform_step_Some ls p idx pd E) as (_ & -> & ->).
    eexists. rewrite <-app_assoc. split; [done|].
    rewrite length_app. destruct (_detect_attacks _ _).2; cbn; lia.
  - unfold transform_step. rewrite E. eauto.
Qed.

(** A qualifying SYN packet: the counter of its source goes up by one and
    one attack record is appended exactly when the new count is past 5. *)
Lemma transform_step_syn ls p idx s :
  raw_syn_from s p →
  let n := S (syn_count_of (ip_stats ls) s) in
  let ls' := transform_step ls p idx in
  syn_count_of (ip_stats ls') s = n
  ∧ ((5 < n)%nat →
       ∃ a, ls_attacks ls' = ls_attacks ls ++ [a]
            ∧ attack_type a = "SYN Flood" ∧ source_ip a = s
            ∧ a_packet_count a = n
            ∧ attacks_detected (ls_stats ls') = S (attacks_detected (ls_stats ls)))
  ∧ ((n ≤ 5)%nat →
       ls_attacks ls' = ls_attacks ls
       ∧ attacks_detected (ls_stats ls') = attacks_detected (ls_stats ls)).
Proof.
  intros Hraw n ls'. subst n ls'.
  pose proof Hraw as (Hd & _).
  destruct (transform_packet_Some p idx Hd) as [pd E].
  pose proof (proj2 (pd_syn_from_raw p idx pd s E) Hraw) as Hpd.
  pose proof Hpd as (Hs & _).
  destruct (transform_step_Some ls p idx pd E) as (-> & -> & ->).
  destruct (detect_attacks_syn pd (update_both (ip_stats ls) pd) s Hpd
              (update_both_src _ _ _ Hs)) as (-> & _ & _ & ->).
  destruct (update_both_counts (ip_stats ls) pd s) as [-> _].
  split_and!; [done| |].
  - intros Hgt. rewrite bool_decide_eq_true_2 by done.
    eexists. split_and!; try done. lia.
  - intros Hle. rewrite bool_decide_eq_false_2 by lia.
    rewrite app_nil_r. split; [done|lia].
Qed.

(** A qualifying UDP packet: the same with the threshold 100. *)
Lemma transform_step_udp ls p idx s :
  raw_udp_from s p →
  let n := S (udp_count_of (ip_stats ls) s) in
  let ls' := transform_step ls p idx in
  udp_count_of (ip_stats ls') s = n
  ∧ ((100 < n)%nat →
       ∃ a, ls_attacks ls' = ls_attacks ls ++ [a]
            ∧ attack_type a = "UDP Flood" ∧ source_ip a = s
            ∧ a_packet_count a = n
            ∧ attacks_detected (ls_stats ls') = S (attacks_detected (ls_stats ls)))
  ∧ ((n ≤ 100)%nat →
       ls_attacks ls' = ls_attacks ls
       ∧ attacks_detected (ls_stats ls') = attacks_detected (ls_stats ls)).
Proof.
  intros Hraw n ls'. subst n ls'.
  pose proof Hraw as (Hd & _).
  destruct (transform_packet_Some p idx Hd) as [pd E].
  pose proof (proj2 (pd_udp_from_raw p idx pd s E) Hraw) as Hpd.
  pose proof Hpd as (Hs & _).
  destruct (transform_step_Some ls p idx pd E) as (-> & -> & ->).
  destruct (detect_attacks_udp pd (update_both (ip_stats ls) pd) s Hpd
              (update_both_src _ _ _ Hs)) as (-> & _ & _ & ->).
  destruct (update_both_counts (ip_stats ls) pd s) as [_ ->].
  split_and!; [done| |].
  - intros Hgt. rewrite bool_decide_eq_true_2 by done.
    eexists. split_and!; try done. lia.
  - intros Hle. rewrite bool_decide_eq_false_2 by lia.
    rewrite app_nil_r. split; [done|lia].
Qed.

(** C10. In the transform phase each source has two lifetime counters:
    over any stretch of the loop the SYN counter of a source grows by the
    number of its decodable TCP packets with SYN set and ACK clear, the
    UDP counter by the number of its decodable UDP packets, and neither is
    ever reset or reduced.  There is no dedupe: a qualifying SYN packet
    that brings the counter of its source past 5 (a qualifying UDP packet:
    past 100) appends exactly one attack record, of type "SYN Flood"
    ("UDP Flood"), carrying the new count, and adds one to
    [attacks_detected]; at or below the threshold nothing is appended.  So
    once a source is past the threshold every further qualifying packet
    adds one more record, and [attacks_detected] grows with the attacks
    output, one for one. *)
Theorem detect_attacks_lifetime_no_dedupe
    (ls : loop_state) (p : packet) (idx : nat) (s : string) :
  let ls' := transform_step ls p idx in
  (raw_syn_from s p →
     let n := S (syn_count_of (ip_stats ls) s) in
     syn_count_of (ip_stats ls') s = n
     ∧ ((5 < n)%nat →
          ∃ a, ls_attacks ls' = ls_attacks ls ++ [a]
               ∧ attack_type a = "SYN Flood" ∧ source_ip a = s
               ∧ a_packet_count a = n
               ∧ attacks_detected (ls_stats ls') = S (attacks_detected (ls_stats ls)))
     ∧ ((n ≤ 5)%nat →
          ls_attacks ls' = ls_attacks ls
          ∧ attacks_detected (ls_stats ls') = attacks_detected (ls_stats ls)))
  ∧ (raw_udp_from s p →
       let n := S (udp_count_of (ip_stats ls) s) in
       udp_count_of (ip_stats ls') s = n
       ∧ ((100 < n)%nat →
            ∃ a, ls_attacks ls' = ls_attacks ls ++ [a]
                 ∧ attack_type a = "UDP Flood" ∧ source_ip a = s
                 ∧ a_packet_count a = n
                 ∧ attacks_detected (ls_stats ls') = S (attacks_detected (ls_stats ls)))
       ∧ ((n ≤ 100)%nat →
            ls_attacks ls' = ls_attacks ls
            ∧ attacks_detected (ls_stats ls') = attacks_detected (ls_stats ls)))
  ∧ (∀ ls0 ps i0 k,
       syn_count_of (ip_stats (transform_loop ls0 ps i0)) k
       = (syn_count_of (ip_stats ls0) k + length (filter (raw_syn_from k) ps))%nat
       ∧ udp_count_of (ip_stats (transform_loop ls0 ps i0)) k
         = (udp_count_of (ip_stats ls0) k + length (filter (raw_udp_from k) ps))%nat)
  ∧ (∀ st ps,
       attacks_detected (transform st ps).1
       = (attacks_detected st + length (td_attacks (transform st ps).2))%nat).
Proof.
  intros ls'. split_and!.
  - apply transform_step_syn.
  - apply transform_step_udp.
  - intros. apply transform_loop_counts.
  - intros st ps. unfold transform. cbn.
    destruct (transform_loop_attacks ps (LoopState st [] [] ∅ ∅) 0) as (new & -> & ->).
    done.
Qed.

(** Seven SYN packets from one source: the sixth and the seventh each add
    a record, with the counts 6 and 7. *)
Lemma detect_attacks_lifetime_no_dedupe_witness :
  let ls := transform_loop (LoopState init [] [] ∅ ∅)
                           (replicate 5 (Scenario.tcp_packet 2)) 0 in
  let ls6 := transform_step ls (Scenario.tcp_packet 2) 5 in
  let ls7 := transform_step ls6 (Scenario.tcp_packet 2) 6 in
  a_packet_count <$> ls_attacks ls = []
  ∧ length (ls_attacks ls6) = 1%nat
  ∧ a_packet_count <$> ls_attacks ls7 = [6; 7]%nat.
Proof.
  intros ls ls6 ls7.
  assert (Hraw : raw_syn_from "10.0.0.5" (Scenario.tcp_packet 2)).
  { split; [by vm_compute; eauto|]. split; [done|]. split; [done|].
    eexists. split; [reflexivity|]. by vm_compute. }
  destruct (detect_attacks_lifetime_no_dedupe ls (Scenario.tcp_packet 2) 5 "10.0.0.5")
    as (Hsyn & _).
  destruct (Hsyn Hraw) as (_ & Hfire & _).
  destruct Hfire as (a & Ha & _); [by vm_compute; lia|].
  split; [by vm_compute|]. split; [|by vm_compute].
  subst ls6. rewrite Ha, length_app. by vm_compute.
Defined.

(** *** The pipeline on the concrete captures *)

Example endswith_capture_names :
  is_capture_name <$> ["trace.pcap"; "trace.pcapng"; "trace.pcap.txt"; "pcap"; ".pcap"]
  = [true; true; false; false; true].
Proof. reflexivity. Qed.

(** An empty capture: the run succeeds with every counter at zero. *)
Example empty_capture_run :
  let out := run Scenario.good_sink Scenario.disk init "empty.pcap" 100 0 1 in
  success out.2 = true
  ∧ total_packets (res_stats out.2) = 0%nat
  ∧ processed_packets (res_stats out.2) = 0%nat
  ∧ failed_packets (res_stats out.2) = 0%nat
  ∧ res_load out.2 = Some (LoadStats 0 0 0 0).
Proof. by vm_compute. Qed.

(** A missing path and a directory without capture files: the run fails
    in [extract], with the message of the exception. *)
Example missing_source_run :
  error (run Scenario.good_sink Scenario.disk init "nowhere.pcap" 100 0 1).2
  = Some "Source path does not exist: nowhere.pcap"
  ∧ error (run Scenario.good_sink Scenario.disk init "notes" 100 0 1).2
    = Some "No PCAP files found in directory: notes".
Proof. by vm_compute. Qed.

(** Seven SYN packets through a sink that refuses every write: the run
    still succeeds, the seven packets and the connection are counted as
    loaded, the two attack records as errors. *)
Example broken_sink_run :
  let out := run Scenario.broken_sink Scenario.disk init "flood.pcap" 3 0 1 in
  success out.2 = true
  ∧ attacks_detected (res_stats out.2) = 2%nat
  ∧ res_load out.2 = Some (LoadStats 7 1 0 2).
Proof. by vm_compute. Qed.

End etl.

(** * Further properties *)

(** ** More of the flood detector *)

Section detector_more.
Import SYNDetector.

(** X1. Forgetting an address: after [reset_detection] the next
    observation of that address counts 1, whatever was stored before, and
    is an attack only under a threshold of at most 1; the windows of the
    other addresses, the threshold and the window length are untouched. *)
Theorem reset_detection_restarts (d : t) (A : string) (now : Q) :
  let d' := reset_detection d A in
  window_of d' A = []
  ∧ (∀ B, B ≠ A → window_of d' B = window_of d B)
  ∧ threshold d' = threshold d ∧ window_seconds d' = window_seconds d
  ∧ window_of (check_syn_flood d' A now).1 A = [now]
  ∧ packet_count (check_syn_flood d' A now).2 = 1%nat
  ∧ is_attack (check_syn_flood d' A now).2 = bool_decide (threshold d <= 1)%Z.
Proof.
  intros d'.
  assert (Hempty : window_of d' A = []).
  { unfold window_of, d', reset_detection. cbn. by rewrite lookup_delete_eq. }
  split_and!; try done.
  - intros B HB. unfold window_of, d', reset_detection. cbn.
    by rewrite lookup_delete_ne.
  - by rewrite check_window, Hempty.
  - by rewrite check_answer, check_window, Hempty.
  - by rewrite check_answer, check_window, Hempty.
Qed.

(** The count of an answer is at least 1 and at most what was stored
    before plus the calls made so far for the address. *)
Lemma observe_count_bounds d A calls :
  ∀ i r, answers_for A (observe d calls).2 !! i = Some r →
    (1 ≤ packet_count r ≤ length (window_of d A) + S i)%nat.
Proof.
  revert d. induction calls as [|[B now] calls IH]; intros d i r; [done|].
  rewrite observe_cons. cbn [snd]. unfold answers_for.
  destruct (decide (B = A)) as [->|Hne].
  - rewrite filter_cons_True by apply source_ip_check.
    assert (Hlen : (1 ≤ length (window_of (check_syn_flood d A now).1 A)
                      ≤ S (length (window_of d A)))%nat).
    { rewrite check_window, length_app. cbn.
      pose proof (length_filter (λ t, (now - window_seconds d <= t)%Q) (window_of d A)).
      lia. }
    destruct i as [|i]; cbn.
    + intros [= <-]. rewrite check_answer. cbn. lia.
    + intros Hr. apply IH in Hr. lia.
  - rewrite filter_cons_False by (rewrite source_ip_check; congruence).
    intros Hr. apply IH in Hr. by rewrite check_frame in Hr by congruence.
Qed.

(** X2. Over any sequence of observations, interleaved over any
    addresses and with any clock readings, the count reported for an
    address is at least 1 and never more than the readings stored for it
    at the start plus the observations made for it so far.  So an address
    whose window starts empty is never reported as attacking before its
    [threshold]-th observation. *)
Theorem count_never_exceeds_observations
    (d : t) (A : string) (calls : list (string * Q)) (i : nat) (r : result) :
  answers_for A (observe d calls).2 !! i = Some r →
  (1 ≤ packet_count r ≤ length (window_of d A) + S i)%nat
  ∧ (window_of d A = [] → is_attack r = true → (threshold d <= Z.of_nat (S i))%Z).
Proof.
  intros Hr. pose proof (observe_count_bounds d A calls i r Hr) as Hb.
  split; [done|]. intros Hempty Hatt. rewrite Hempty in Hb. cbn in Hb.
  assert (Hin : r ∈ (observe d calls).2).
  { apply list_elem_of_lookup_2 in Hr. unfold answers_for in Hr.
    by apply list_elem_of_filter in Hr as [_ ?]. }
  rewrite (observe_is_attack _ _ _ Hin) in Hatt.
  apply bool_decide_eq_true in Hatt. lia.
Qed.

Lemma count_never_exceeds_observations_witness :
  let calls := [("10.0.0.5", 1); ("10.0.0.9", 1); ("10.0.0.5", 9); ("10.0.0.5", 9.5)]%Q in
  ∃ r, answers_for "10.0.0.5" (observe (init 5 2) calls).2 !! 2%nat = Some r
       ∧ (1 ≤ packet_count r ≤ 3)%nat.
Proof.
  intros calls. eexists. split; [reflexivity|].
  apply (count_never_exceeds_observations (init 5 2) "10.0.0.5" calls 2).
  reflexivity.
Defined.

(** No method of the detector writes its block table. *)
Lemma do_call_blocked_ips_empty d c :
  blocked_ips d = ∅ → blocked_ips (do_call d c) = ∅.
Proof.
  intros He. destruct c as [A now|A now|A now|A]; cbn; try done.
  - unfold check_syn_flood. by case_bool_decide.
  - unfold is_blocked. by rewrite He, lookup_empty.
Qed.

(** X3. The detector never blocks: starting from a new detector, after
    any sequence of calls of its methods its block table is empty, so
    [is_blocked] answers false for every address and
    [get_remaining_block_time] answers 0. *)
Theorem detector_never_blocks
    (thr : Z) (w : Q) (cs : list call) (A : string) (now : Q) :
  let d := do_calls (init thr w) cs in
  blocked_ips d = ∅
  ∧ is_blocked d A now = (d, false)
  ∧ get_remaining_block_time d A now = 0%Q.
Proof.
  intros d.
  assert (He : blocked_ips d = ∅).
  { subst d. unfold do_calls.
    assert (∀ d0, blocked_ips d0 = ∅ → blocked_ips (foldl do_call d0 cs) = ∅) as H.
    { induction cs as [|c cs IH]; intros d0 H0; [done|].
      cbn. apply IH. by apply do_call_blocked_ips_empty. }
    by apply H. }
  split; [done|].
  unfold is_blocked, get_remaining_block_time. by rewrite He, lookup_empty.
Qed.

(** X4. The two readers of the detector's block table agree: at any
    time, [is_blocked] answers true exactly when
    [get_remaining_block_time] is positive; the remaining time is never
    negative, and it is 0 for an address that is not in the table. *)
Theorem remaining_time_agrees_with_is_blocked (d : t) (A : string) (now : Q) :
  ((is_blocked d A now).2 = true ↔ (0 < get_remaining_block_time d A now)%Q)
  ∧ (0 <= get_remaining_block_time d A now)%Q
  ∧ (blocked_ips d !! A = None → get_remaining_block_time d A now = 0%Q)
  ∧ (∀ u, blocked_ips d !! A = Some u → (now < u)%Q →
       get_remaining_block_time d A now = (u - now)%Q).
Proof.
  unfold is_blocked, get_remaining_block_time.
  destruct (blocked_ips d !! A) as [u|]; cbn.
  - destruct (decide (now < u)%Q) as [Hlt|Hge].
    + rewrite !bool_decide_eq_true_2 by lra. cbn. split_and!.
      * split; [intros _; lra|done].
      * lra.
      * done.
      * by intros u' [= <-] _.
    + rewrite !bool_decide_eq_false_2 by lra. cbn. split_and!.
      * split; [done|]. lra.
      * lra.
      * done.
      * intros u' [= <-] ?. lra.
  - split_and!; [|lra|done|done]. split; [done|]. lra.
Qed.

End detector_more.

(** ** More of the blocking manager *)

Section firewall_more.
Import FirewallManager.

Lemma foldr_delete_lookup {V} (m : gmap string V) (ks : list string) (k : string) :
  foldr (λ ip m, delete ip m) m ks !! k
  = if decide (k ∈ ks) then None else m !! k.
Proof.
  induction ks as [|x ks IH]; cbn.
  { rewrite decide_False; [done|]. apply not_elem_of_nil. }
  destruct (decide (x = k)) as [->|Hne].
  - rewrite lookup_delete_eq, decide_True; [done|]. by left.
  - rewrite lookup_delete_ne, IH by done.
    destruct (decide (k ∈ ks)).
    + rewrite decide_True; [done|]. by right.
    + rewrite decide_False; [done|]. rewrite elem_of_cons. by intros [?|?].
Qed.

(** The table left by the sweep of [get_blocked_ips] and of
    [check_and_unblock_expired]: the entries that have not expired. *)
Lemma swept_lookup (m : gmap string block_info) (now : Q) (k : string) :
  foldr (λ ip m, delete ip m) m
        ((filter (λ e, (unblock_time e.2 <= now)%Q) (map_to_list m)).*1) !! k
  = match m !! k with
    | Some info => if decide (unblock_time info <= now)%Q then None else Some info
    | None => None
    end.
Proof.
  rewrite foldr_delete_lookup.
  destruct (m !! k) as [info|] eqn:Hk.
  - destruct (decide (unblock_time info <= now)%Q) as [Hexp|Hlive].
    + rewrite decide_True; [done|].
      apply list_elem_of_fmap. exists (k, info). split; [done|].
      apply list_elem_of_filter. split; [done|]. by apply elem_of_map_to_list.
    + rewrite decide_False; [done|].
      intros ([k' info'] & Hkk & [Hexp Hin]%list_elem_of_filter)%list_elem_of_fmap.
      apply elem_of_map_to_list in Hin. cbn [fst snd] in *. subst k'.
      rewrite Hk in Hin. injection Hin as <-. done.
  - rewrite decide_False; [done|].
    intros ([k' info'] & Hkk & [Hexp Hin]%list_elem_of_filter)%list_elem_of_fmap.
    apply elem_of_map_to_list in Hin. cbn [fst snd] in *. subst k'. congruence.
Qed.

Lemma int_of_Q_nonneg (q : Q) : (0 <= q)%Q → (0 <= int_of_Q q)%Z.
Proof.
  intros Hq. unfold int_of_Q. apply Z.quot_pos; [|lia].
  unfold Qle in Hq. cbn in Hq. lia.
Qed.

(** X5. Blocking again extends the block: after two calls of [block_ip]
    for one address the table is what the second call alone would have
    left, so the address is unblocked [block_duration] after the second
    call, not after the first; the answer of the second call says so, and
    no other address is touched. *)
Theorem block_ip_twice_extends (f : t) (A : string) (t1 t2 : Q) :
  let f1 := (block_ip f A t1).1 in
  let out := block_ip f1 A t2 in
  out.1 = (block_ip f A t2).1
  ∧ blocked_ips out.1 !! A
    = Some (BlockInfo t2 (t2 + block_duration f)%Q)
  ∧ br_unblock_at out.2 = (t2 + block_duration f)%Q
  ∧ block_duration out.1 = block_duration f
  ∧ (∀ B, B ≠ A → blocked_ips out.1 !! B = blocked_ips f !! B).
Proof.
  cbn. rewrite insert_insert_eq, lookup_insert_eq. split_and!; try done.
  intros B HB. by rewrite lookup_insert_ne.
Qed.

(** X6. A block holds for its duration and no longer: after
    [block_ip] at time [t], [is_blocked] answers true and changes nothing
    at every time before [t + block_duration], and from
    [t + block_duration] on it answers false and removes the entry.  With
    a duration of 0 or less the address is never reported as blocked at or
    after the time of the block. *)
Theorem block_holds_for_duration (f : t) (A : string) (t now : Q) :
  let f' := (block_ip f A t).1 in
  ((now < t + block_duration f)%Q → is_blocked f' A now = (f', true))
  ∧ ((t + block_duration f <= now)%Q →
       (is_blocked f' A now).2 = false
       ∧ blocked_ips (is_blocked f' A now).1 = delete A (blocked_ips f))
  ∧ ((block_duration f <= 0)%Q → (t <= now)%Q → (is_blocked f' A now).2 = false).
Proof.
  cbn. unfold is_blocked. cbn. rewrite lookup_insert_eq. cbn.
  split_and!.
  - intros Hlt. by rewrite bool_decide_eq_false_2 by lra.
  - intros Hge. rewrite bool_decide_eq_true_2 by lra. cbn.
    by rewrite delete_insert_eq.
  - intros Hd Hge. by rewrite bool_decide_eq_true_2 by lra.
Qed.

(** X7. Unblocking is idempotent and final: [unblock_ip] removes the
    entry of the address and of no other, answers ["unblocked"] exactly
    when there was one, and afterwards [is_blocked] answers false at any
    time, however much of the block was left, and a second [unblock_ip]
    answers ["not_blocked"] and changes nothing.  [manual_unblock] is the
    same operation. *)
Theorem unblock_ip_is_final (f : t) (A : string) :
  let out := unblock_ip f A in
  blocked_ips out.1 = delete A (blocked_ips f)
  ∧ block_duration out.1 = block_duration f
  ∧ (out.2 = "unblocked" ↔ is_Some (blocked_ips f !! A))
  ∧ (out.2 = "not_blocked" ↔ blocked_ips f !! A = None)
  ∧ (∀ now, is_blocked out.1 A now = (out.1, false))
  ∧ unblock_ip out.1 A = (out.1, "not_blocked")
  ∧ manual_unblock f A = out.
Proof.
  unfold unblock_ip, manual_unblock, unblock_ip, is_blocked.
  destruct (blocked_ips f !! A) as [info|] eqn:Hk; cbn.
  - rewrite lookup_delete_eq. split_and!; try done.
  - rewrite Hk. split_and!; try done.
    all: try (by rewrite delete_id).
    all: try (split; [done|by intros [? ?]]).
Qed.

(** X8. The listing of [get_blocked_ips] at time [now] holds one entry
    for each stored address whose block has not expired and for no other,
    no address twice, each with the stored times and a remaining time
    that is not negative; and the call sweeps the table: what is left are
    exactly the entries that have not expired, so a second call at the
    same time changes nothing. *)
Theorem get_blocked_ips_lists_live (f : t) (now : Q) :
  let out := get_blocked_ips f now in
  (∀ A, (∃ e, e ∈ out.2 ∧ ab_ip_address e = A)
        ↔ ∃ info, blocked_ips f !! A = Some info ∧ (now < unblock_time info)%Q)
  ∧ (∀ e, e ∈ out.2 →
       blocked_ips f !! ab_ip_address e
       = Some (BlockInfo (ab_blocked_at e) (ab_unblock_at e))
       ∧ (0 <= remaining_seconds e)%Z
       ∧ remaining_seconds e = int_of_Q (ab_unblock_at e - now))
  ∧ NoDup (ab_ip_address <$> out.2)
  ∧ (∀ A info, blocked_ips out.1 !! A = Some info
               ↔ blocked_ips f !! A = Some info ∧ (now < unblock_time info)%Q)
  ∧ (get_blocked_ips out.1 now).1 = out.1.
Proof.
  intros out.
  assert (Hstate : ∀ A info, blocked_ips out.1 !! A = Some info
               ↔ blocked_ips f !! A = Some info ∧ (now < unblock_time info)%Q).
  { intros A info. subst out. unfold get_blocked_ips. cbn. rewrite swept_lookup.
    destruct (blocked_ips f !! A) as [info'|]; [|split; [done|by intros [? _]]].
    destruct (decide (unblock_time info' <= now)%Q).
    - split; [done|]. intros [[= <-] ?]. lra.
    - split; [intros [= <-]; split; [done|lra]|]. by intros [[= <-] _]. }
  split_and!.
  - intros A. subst out. unfold get_blocked_ips. cbn. split.
    + intros (e & ([ip info] & -> & [Hlive Hin]%list_elem_of_filter)%list_elem_of_fmap & <-).
      apply elem_of_map_to_list in Hin. cbn in *. exists info. split; [done|lra].
    + intros (info & Hin & Hlive). eexists. split.
      * apply list_elem_of_fmap. exists (A, info). split; [reflexivity|].
        apply list_elem_of_filter. split; [cbn; lra|]. by apply elem_of_map_to_list.
      * done.
  - intros e. subst out. unfold get_blocked_ips. cbn.
    intros ([ip [b u]] & -> & [Hlive Hin]%list_elem_of_filter)%list_elem_of_fmap.
    apply elem_of_map_to_list in Hin. cbn in *. split_and!; [done| |done].
    apply int_of_Q_nonneg. lra.
  - subst out. unfold get_blocked_ips. cbn. rewrite <-list_fmap_compose.
    eapply (sublist_NoDup _ ((map_to_list (blocked_ips f)).*1)).
    + apply NoDup_fst_map_to_list.
    + apply fmap_sublist. apply sublist_filter.
  - exact Hstate.
  - destruct out.1 as [dur m] eqn:Hout. unfold get_blocked_ips. cbn. f_equal.
    apply map_eq. intros k. rewrite swept_lookup.
    destruct (m !! k) as [info|] eqn:Hk; [|done].
    rewrite decide_False; [done|].
    pose proof (proj1 (Hstate k info)) as Hs. cbn in Hs.
    destruct (Hs Hk). lra.
Qed.

(** X9. [check_and_unblock_expired] at time [now] leaves the table that
    [get_blocked_ips] leaves, and returns the number of entries it
    removed: together with the entries that [get_blocked_ips] lists they
    are all the entries of the table.  A second sweep at the same time
    removes nothing, and [is_blocked] answers after the sweep what it
    answered before it. *)
Theorem check_and_unblock_expired_counts (f : t) (now : Q) :
  let out := check_and_unblock_expired f now in
  out.1 = (get_blocked_ips f now).1
  ∧ (out.2 + length (get_blocked_ips f now).2)%nat = size (blocked_ips f)
  ∧ (check_and_unblock_expired out.1 now).2 = 0%nat
  ∧ (∀ A, (is_blocked out.1 A now).2 = (is_blocked f A now).2).
Proof.
  intros out. split_and!.
  - done.
  - subst out. unfold check_and_unblock_expired, get_blocked_ips. cbn.
    rewrite !length_fmap, <-length_map_to_list, <-length_app.
    apply Permutation_length, filter_app_complement.
  - subst out. unfold check_and_unblock_expired. cbn.
    rewrite length_fmap. rewrite filter_none; [done|].
    apply Forall_forall. intros [k info] Hin. cbn.
    apply elem_of_map_to_list in Hin. rewrite swept_lookup in Hin.
    destruct (blocked_ips f !! k) as [info'|]; [|done].
    destruct (decide (unblock_time info' <= now)%Q); [done|].
    by injection Hin as <-.
  - intros A. subst out. unfold check_and_unblock_expired, is_blocked. cbn.
    rewrite swept_lookup.
    destruct (blocked_ips f !! A) as [info|]; [|done].
    destruct (decide (unblock_time info <= now)%Q) as [Hexp|Hlive].
    + by rewrite bool_decide_eq_true_2.
    + by rewrite !bool_decide_eq_false_2.
Qed.

(** Every method keeps the duration and the shape of the entries. *)
Lemma do_call_entries_well_formed f c :
  (∀ A info, blocked_ips f !! A = Some info →
     unblock_time info = (blocked_at info + block_duration f)%Q) →
  block_duration (do_call f c) = block_duration f
  ∧ ∀ A info, blocked_ips (do_call f c) !! A = Some info →
      unblock_time info = (blocked_at info + block_duration f)%Q.
Proof.
  intros Hwf. destruct c as [B now|B|B now|now|now]; cbn.
  - split; [done|]. intros A info.
    destruct (decide (B = A)) as [->|Hne].
    + rewrite lookup_insert_eq. by intros [= <-].
    + rewrite lookup_insert_ne by done. apply Hwf.
  - unfold unblock_ip. destruct (blocked_ips f !! B); cbn; [|done].
    split; [done|]. intros A info Hin. apply (Hwf A).
    by apply lookup_delete_Some in Hin as [_ ?].
  - unfold is_blocked. destruct (blocked_ips f !! B); cbn; [|done].
    case_bool_decide; cbn; [|done].
    split; [done|]. intros A info Hin. apply (Hwf A).
    by apply lookup_delete_Some in Hin as [_ ?].
  - split; [done|]. intros A info. rewrite swept_lookup.
    destruct (blocked_ips f !! A) as [info'|] eqn:Hk; [|done].
    destruct (decide _); [done|]. intros [= <-]. by apply (Hwf A).
  - split; [done|]. intros A info. rewrite swept_lookup.
    destruct (blocked_ips f !! A) as [info'|] eqn:Hk; [|done].
    destruct (decide _); [done|]. intros [= <-]. by apply (Hwf A).
Qed.

(** X10. An invariant of the manager: from a new manager, after any
    sequence of calls of its methods, the duration is the configured
    number of minutes times 60 and every stored entry expires exactly that
    long after the time it was blocked at. *)
Theorem entries_expire_after_duration
    (minutes : Q) (cs : list call) (A : string) (info : block_info) :
  let f := do_calls (init minutes) cs in
  block_duration f = (minutes * 60)%Q
  ∧ (blocked_ips f !! A = Some info →
       unblock_time info = (blocked_at info + minutes * 60)%Q).
Proof.
  intros f.
  assert (H : ∀ f0,
    (∀ A info, blocked_ips f0 !! A = Some info →
       unblock_time info = (blocked_at info + block_duration f0)%Q) →
    block_duration (foldl do_call f0 cs) = block_duration f0
    ∧ ∀ A info, blocked_ips (foldl do_call f0 cs) !! A = Some info →
        unblock_time info = (blocked_at info + block_duration f0)%Q).
  { induction cs as [|c cs IH]; intros f0 Hwf; [done|]. cbn.
    destruct (do_call_entries_well_formed f0 c Hwf) as [Hd Hwf'].
    destruct (IH (do_call f0 c)) as [Hd2 Hwf2].
    { intros ? ? ?. rewrite Hd. eauto. }
    rewrite Hd in *. split; [done|]. exact Hwf2. }
  destruct (H (init minutes)) as [Hd Hwf]; [done|].
  split; [exact Hd|]. apply Hwf.
Qed.

End firewall_more.

(** ** More of the traffic analyzer *)

Section analyzer_more.
Import Scapy PacketAnalyzer.

(** Opens [_process_packet] on a packet with an IP layer along its six
    branches. *)
Ltac branches_of_process_packet Hip :=
  unfold _process_packet; rewrite Hip;
  cbn [syn_detector attack_classifier firewall_manager firestore_logger
       connections packet_count attack_count blocked_ips attack_types
       analyzed_packets attacks_detected total_packets];
  unfold FirewallManager.block_ip;
  match goal with
  | |- context [is_syn_packet ?p] =>
      destruct (is_syn_packet p) eqn:?;
      [ match goal with
        | |- context [SYNDetector.check_syn_flood ?d ?s ?t] =>
            destruct (SYNDetector.check_syn_flood d s t) as [? [[] ? ? ?]] eqn:?;
            cbn [SYNDetector.is_attack];
            [ case_bool_decide | ]
        end
      | destruct (has_layer (udp p)) eqn:?;
        [ match goal with
          | |- context [_detect_udp_flood ?a ?s] =>
              destruct (_detect_udp_flood a s) eqn:?
          end
        | ] ]
  end;
  cbn [fst snd syn_detector attack_classifier firewall_manager firestore_logger
       connections packet_count attack_count blocked_ips attack_types
       analyzed_packets attacks_detected total_packets].

Lemma process_all_cons a p c ps r :
  process_all a ((p, c) :: ps) r
  = match ip p with
    | Some _ => process_all (_process_packet a p c r).1 ps (_process_packet a p c r).2
    | None => process_all a ps r
    end.
Proof.
  cbn [process_all]. destruct (ip p); cbn [has_layer]; [|done].
  by destruct (_process_packet a p c r).
Qed.

(** An induction principle for runs: a property of the pair of analyzer
    and results that every processed packet preserves holds after the
    run. *)
Lemma process_all_ind (P : t → results → Prop) :
  (∀ a p c r l, ip p = Some l → P a r →
     P (_process_packet a p c r).1 (_process_packet a p c r).2) →
  ∀ ps a r, P a r → P (process_all a ps r).1 (process_all a ps r).2.
Proof.
  intros Hstep ps. induction ps as [|[p c] ps IH]; intros a r HP; [done|].
  rewrite process_all_cons. destruct (ip p) as [l|] eqn:Hip; [|by apply IH].
  apply IH. by eapply Hstep.
Qed.

Lemma analyze_pcap_unfold a ps :
  let run := process_all a ps (Results (length ps) 0 0 [] ∅) in
  analyze_pcap a ps
  = (run.1, Results (total_packets run.2) (analyzed_packets run.2)
                    (attack_count run.1) (blocked_ips run.2) (attack_types run.2)).
Proof. unfold analyze_pcap. cbn. by destruct (process_all _ _ _). Qed.

(** The counters of the results that every packet with an IP layer
    moves. *)
Lemma process_packet_analyzed a p c r l :
  ip p = Some l →
  total_packets (_process_packet a p c r).2 = total_packets r
  ∧ analyzed_packets (_process_packet a p c r).2 = S (analyzed_packets r).
Proof. intros Hip. branches_of_process_packet Hip; done. Qed.

Lemma process_all_analyzed ps : ∀ a r,
  total_packets (process_all a ps r).2 = total_packets r
  ∧ analyzed_packets (process_all a ps r).2
    = (analyzed_packets r + length (filter (λ pc, is_Some (ip pc.1)) ps))%nat.
Proof.
  induction ps as [|[p c] ps IH]; intros a r; [cbn; lia|].
  rewrite process_all_cons. destruct (ip p) as [l|] eqn:Hip.
  - destruct (IH (_process_packet a p c r).1 (_process_packet a p c r).2) as [-> ->].
    destruct (process_packet_analyzed a p c r l Hip) as [-> ->].
    rewrite filter_cons_True by (simpl; rewrite Hip; by eexists). cbn. lia.
  - destruct (IH a r) as [-> ->].
    rewrite filter_cons_False; [done|]. cbn. rewrite Hip. by intros [? ?].
Qed.

Lemma process_all_no_ip ps : ∀ a r,
  Forall (λ pc, ip pc.1 = None) ps → process_all a ps r = (a, r).
Proof.
  induction ps as [|[p c] ps IH]; intros a r Hall; [done|].
  apply Forall_cons in Hall as [Hp Hall]. cbn in Hp.
  rewrite process_all_cons, Hp. by apply IH.
Qed.

(** X11. A run reports as [total_packets] the number of packets of the
    capture and as [analyzed_packets] the number of those that have an IP
    layer; the others are skipped without a trace: a capture without any
    IP packet leaves the analyzer exactly as it was and reports nothing
    analyzed, nothing blocked and no attack type. *)
Theorem analyze_pcap_counts_ip_packets (a : t) (ps : list (packet * clock)) :
  let out := analyze_pcap a ps in
  total_packets out.2 = length ps
  ∧ analyzed_packets out.2 = length (filter (λ pc, is_Some (ip pc.1)) ps)
  ∧ (Forall (λ pc, ip pc.1 = None) ps →
       out = (a, Results (length ps) 0 (attack_count a) [] ∅)).
Proof.
  intros out. subst out. rewrite analyze_pcap_unfold. cbn zeta.
  destruct (process_all_analyzed ps a (Results (length ps) 0 0 [] ∅)) as [Ht Ha].
  cbn [fst snd total_packets analyzed_packets].
  split_and!; [by rewrite Ht|by rewrite Ha|].
  intros Hall. by rewrite (process_all_no_ip ps a _ Hall).
Qed.

(** A packet that fails the SYN test reaches neither the detector nor
    the blocking manager. *)
Lemma process_packet_not_syn a p c r :
  is_syn_packet p = false →
  syn_detector (_process_packet a p c r).1 = syn_detector a
  ∧ firewall_manager (_process_packet a p c r).1 = firewall_manager a
  ∧ blocked_ips (_process_packet a p c r).2 = blocked_ips r.
Proof.
  intros Hsyn. destruct (ip p) as [l|] eqn:Hip.
  - unfold _process_packet. rewrite Hip, Hsyn.
    destruct (has_layer (udp p)); [|done].
    by destruct (_detect_udp_flood _ _).
  - unfold _process_packet. by rewrite Hip.
Qed.

Lemma process_all_without_syn ps : ∀ a r,
  Forall (λ pc, is_syn_packet pc.1 = false) ps →
  syn_detector (process_all a ps r).1 = syn_detector a
  ∧ firewall_manager (process_all a ps r).1 = firewall_manager a
  ∧ blocked_ips (process_all a ps r).2 = blocked_ips r.
Proof.
  induction ps as [|[p c] ps IH]; intros a r Hall; [done|].
  apply Forall_cons in Hall as [Hp Hall]. cbn in Hp.
  rewrite process_all_cons. destruct (ip p); [|by apply IH].
  destruct (IH (_process_packet a p c r).1 (_process_packet a p c r).2 Hall)
    as (-> & -> & ->).
  by apply process_packet_not_syn.
Qed.

(** X12. Only the SYN branch blocks.  Over a run without any packet that
    passes the SYN test, whatever else it holds and however many UDP-flood
    entries it logs, the detector and the blocking manager are left as
    they were and the results list no blocked address. *)
Theorem run_without_syn_never_blocks (a : t) (ps : list (packet * clock)) :
  Forall (λ pc, is_syn_packet pc.1 = false) ps →
  let out := analyze_pcap a ps in
  syn_detector out.1 = syn_detector a
  ∧ firewall_manager out.1 = firewall_manager a
  ∧ blocked_ips out.2 = [].
Proof.
  intros Hall out. subst out. rewrite analyze_pcap_unfold. cbn zeta.
  cbn [fst snd blocked_ips].
  by destruct (process_all_without_syn ps a (Results (length ps) 0 0 [] ∅) Hall)
    as (-> & -> & ->).
Qed.

Lemma run_without_syn_never_blocks_witness :
  let ps := replicate 12 (Scenario.udp_packet, Scenario.at_time 1) in
  let out := analyze_pcap app_analyzer ps in
  length (logged_by app_analyzer out.1) = 2%nat
  ∧ firewall_manager out.1 = firewall_manager app_analyzer
  ∧ blocked_ips out.2 = [].
Proof.
  intros ps out. split; [by vm_compute|].
  apply (run_without_syn_never_blocks app_analyzer ps).
  repeat constructor.
Defined.

(** *** The blocked list of a run *)

(** What a packet does to the blocked list, the manager's table and the
    log: either the list and the table stay, or the packet's source, not
    yet in the list, is appended to it and blocked, after a SYN-flood
    entry for it was logged. *)
Lemma process_packet_blocks a p c r l :
  ip p = Some l →
  let out := _process_packet a p c r in
  (blocked_ips out.2 = blocked_ips r ∧ firewall_manager out.1 = firewall_manager a)
  ∨ ((ip_src l ∉ blocked_ips r)
     ∧ blocked_ips out.2 = blocked_ips r ++ [ip_src l]
     ∧ firewall_manager out.1
       = (FirewallManager.block_ip (firewall_manager a) (ip_src l) (now_block c)).1
     ∧ firestore_logger out.1
       = firestore_logger a
         ++ [syn_flood_entry (attack_classifier a) p (now_dt c) (ip_src l) (ip_dst l)]).
Proof.
  intros Hip. branches_of_process_packet Hip; try (by left).
  right. done.
Qed.

(** The log only grows. *)
Lemma process_packet_log_grows a p c r :
  ∃ new, firestore_logger (_process_packet a p c r).1 = firestore_logger a ++ new.
Proof.
  destruct (ip p) as [l|] eqn:Hip.
  - branches_of_process_packet Hip;
      first [by eexists (cons _ nil) | by (exists []; rewrite app_nil_r)].
  - unfold _process_packet. rewrite Hip. exists []. by rewrite app_nil_r.
Qed.

(** X13. The blocked list of a run names each address once; every
    address in it is in the manager's table when the run ends, and a
    "SYN Flood" entry with that source was logged during the run. *)
Theorem blocked_list_is_sound (a : t) (ps : list (packet * clock)) :
  let out := analyze_pcap a ps in
  NoDup (blocked_ips out.2)
  ∧ ∀ A, A ∈ blocked_ips out.2 →
      is_Some (FirewallManager.blocked_ips (firewall_manager out.1) !! A)
      ∧ ∃ e, e ∈ logged_by a out.1
             ∧ attack_type e = "SYN Flood" ∧ log_source_ip e = A.
Proof.
  intros out. subst out. rewrite analyze_pcap_unfold. cbn zeta.
  cbn [fst snd blocked_ips].
  set (P := λ (a' : t) (r : results),
    NoDup (blocked_ips r)
    ∧ (∃ new, firestore_logger a' = firestore_logger a ++ new
              ∧ ∀ A, A ∈ blocked_ips r →
                  is_Some (FirewallManager.blocked_ips (firewall_manager a') !! A)
                  ∧ ∃ e, e ∈ new ∧ attack_type e = "SYN Flood" ∧ log_source_ip e = A)).
  assert (HP : P (process_all a ps (Results (length ps) 0 0 [] ∅)).1
                 (process_all a ps (Results (length ps) 0 0 [] ∅)).2).
  { apply process_all_ind.
    - intros a1 p c r l Hip (Hnd & new & Hlog & Hin).
      destruct (process_packet_log_grows a1 p c r) as [more Hmore].
      destruct (process_packet_blocks a1 p c r l Hip)
        as [[Hbl Hfw]|(Hfresh & Hbl & Hfw & Hlog1)].
      + split; [by rewrite Hbl|]. exists (new ++ more).
        split; [by rewrite Hmore, Hlog, <-app_assoc|].
        intros A HA. rewrite Hbl in HA. destruct (Hin A HA) as [Hsome (e & He & ?)].
        split; [by rewrite Hfw|]. exists e. split; [|done].
        apply elem_of_app. by left.
      + split.
        { rewrite Hbl. apply NoDup_app. split_and!; [done| |apply NoDup_singleton].
          intros x Hx ->%list_elem_of_singleton. done. }
        eexists (new ++ [_]). split; [by rewrite Hlog1, Hlog, <-app_assoc|].
        intros A HA. rewrite Hbl in HA. apply elem_of_app in HA as [HA|HA].
        * destruct (Hin A HA) as [Hsome (e & He & ?)]. split.
          -- rewrite Hfw. cbn. destruct (decide (ip_src l = A)) as [->|].
             ++ rewrite lookup_insert_eq. eauto.
             ++ by rewrite lookup_insert_ne.
          -- exists e. split; [|done]. apply elem_of_app. by left.
        * apply list_elem_of_singleton in HA as ->. split.
          -- rewrite Hfw. cbn. rewrite lookup_insert_eq. eauto.
          -- eexists. split; [apply elem_of_app; right; by apply list_elem_of_singleton|].
             done.
    - split; [apply NoDup_nil_2|]. exists []. split; [by rewrite app_nil_r|].
      intros A HA. cbn in HA. by apply elem_of_nil in HA. }
  destruct HP as (Hnd & new & Hlog & Hin). split; [done|].
  intros A HA. destruct (Hin A HA) as [Hsome He]. split; [done|].
  unfold logged_by. by rewrite Hlog, drop_app_length.
Qed.

(** *** The attack counters of a run *)

Lemma bump_lookup k k' (m : gmap string nat) :
  default 0%nat (bump k m !! k')
  = (default 0%nat (m !! k') + if decide (k = k') then 1 else 0)%nat.
Proof.
  unfold bump. destruct (decide (k = k')) as [->|Hne].
  - rewrite lookup_insert_eq. cbn. lia.
  - rewrite lookup_insert_ne by done. lia.
Qed.

(** What a packet adds to the log is counted three times over: in the
    analyzer's [attack_count], in the results' [attacks_detected] and,
    by type, in the results' [attack_types]. *)
Lemma process_packet_accounting a p c r l :
  ip p = Some l →
  let out := _process_packet a p c r in
  ∃ new, firestore_logger out.1 = firestore_logger a ++ new
         ∧ attack_count out.1 = (attack_count a + length new)%nat
         ∧ attacks_detected out.2 = (attacks_detected r + length new)%nat
         ∧ (∀ k, default 0%nat (attack_types out.2 !! k)
                 = (default 0%nat (attack_types r !! k) + count_type k new)%nat)
         ∧ Forall (λ e, attack_type e = "SYN Flood" ∨ attack_type e = "UDP Flood") new.
Proof.
  intros Hip.
  branches_of_process_packet Hip;
    first
      [ eexists (cons _ nil); split_and!;
        [ reflexivity | cbn; lia | cbn; lia
        | intros k; rewrite bump_lookup; unfold count_type;
          destruct (decide (_ = k));
          [ rewrite filter_cons_True by done | rewrite filter_cons_False by done ];
          reflexivity
        | repeat constructor; by (left + right) ]
      | exists []; split_and!;
        [ by rewrite app_nil_r | cbn; lia | cbn; lia
        | intros k; unfold count_type; cbn; lia
        | constructor ] ].
Qed.

Lemma count_type_app k l1 l2 :
  count_type k (l1 ++ l2) = (count_type k l1 + count_type k l2)%nat.
Proof. unfold count_type. by rewrite filter_app, length_app. Qed.

Lemma count_two_types (log : list attack_log) :
  Forall (λ e, attack_type e = "SYN Flood" ∨ attack_type e = "UDP Flood") log →
  (count_type "SYN Flood" log + count_type "UDP Flood" log)%nat = length log.
Proof.
  unfold count_type. induction 1 as [|e log [He|He] _ IH]; [done| |].
  - rewrite filter_cons_True by done.
    rewrite (filter_cons_False (λ e, attack_type e = "UDP Flood")) by (rewrite He; done).
    cbn. lia.
  - rewrite filter_cons_False by (rewrite He; done).
    rewrite (filter_cons_True (λ e, attack_type e = "UDP Flood")) by done.
    cbn. lia.
Qed.

(** X14. The counters of a run against its log.  The log only grows, by
    the entries of the run, each of type "SYN Flood" or "UDP Flood".  The
    analyzer's [attack_count] grows by their number, and the results
    count them by type in [attack_types].  But the results'
    [attacks_detected] is the analyzer's [attack_count] when the run ends:
    it includes the attacks of every earlier run of the same analyzer, so
    it exceeds the sum of [attack_types] by the count the run started
    from. *)
Theorem attack_counters_of_a_run (a : t) (ps : list (packet * clock)) :
  let out := analyze_pcap a ps in
  let new := logged_by a out.1 in
  firestore_logger out.1 = firestore_logger a ++ new
  ∧ attack_count out.1 = (attack_count a + length new)%nat
  ∧ attacks_detected out.2 = (attack_count a + length new)%nat
  ∧ (∀ k, default 0%nat (attack_types out.2 !! k) = count_type k new)
  ∧ (count_type "SYN Flood" new + count_type "UDP Flood" new)%nat = length new.
Proof.
  intros out new. subst new out. rewrite analyze_pcap_unfold. cbn zeta.
  cbn [fst snd attacks_detected attack_types].
  set (P := λ (a' : t) (r : results),
    ∃ new, firestore_logger a' = firestore_logger a ++ new
           ∧ attack_count a' = (attack_count a + length new)%nat
           ∧ (∀ k, default 0%nat (attack_types r !! k) = count_type k new)
           ∧ Forall (λ e, attack_type e = "SYN Flood" ∨ attack_type e = "UDP Flood") new).
  assert (HP : P (process_all a ps (Results (length ps) 0 0 [] ∅)).1
                 (process_all a ps (Results (length ps) 0 0 [] ∅)).2).
  { apply process_all_ind.
    - intros a1 p c r l Hip (new & Hlog & Hcnt & Hty & Hall).
      destruct (process_packet_accounting a1 p c r l Hip)
        as (more & Hlog1 & Hcnt1 & _ & Hty1 & Hall1).
      exists (new ++ more). split_and!.
      + by rewrite Hlog1, Hlog, <-app_assoc.
      + rewrite Hcnt1, Hcnt, length_app. lia.
      + intros k. by rewrite Hty1, Hty, count_type_app.
      + by apply Forall_app.
    - exists []. split_and!; [by rewrite app_nil_r|cbn; lia|done|constructor]. }
  destruct HP as (new & Hlog & Hcnt & Hty & Hall).
  unfold logged_by. rewrite Hlog, drop_app_length.
  split_and!; try done. by apply count_two_types.
Qed.

(** *** The connection table *)

(** X15. The connection table is a log, not an aggregate: over a run,
    the list stored for a source grows by one connection for every packet
    with an IP layer from that source, in arrival order, each with the
    packet's destination, the time of its processing and its protocol.
    Nothing is merged, and nothing already stored is changed or
    removed. *)
Theorem connections_grow_per_packet
    (a : t) (ps : list (packet * clock)) (src : string) :
  connections_of (analyze_pcap a ps).1 src
  = connections_of a src ++ omap (connection_from src) ps.
Proof.
  rewrite analyze_pcap_unfold. cbn zeta. cbn [fst].
  generalize (Results (length ps) 0 0 [] ∅) as r. revert a.
  induction ps as [|[p c] ps IH]; intros a r.
  { cbn. by rewrite app_nil_r. }
  rewrite process_all_cons. cbn [omap list_omap]. unfold connection_from at 1.
  cbn [fst snd].
  destruct (ip p) as [l|] eqn:Hip; [|apply IH].
  rewrite IH.
  rewrite (connections_of_insert a _ src _ _ (process_packet_connections a p c r l Hip)).
  destruct (decide (ip_src l = src)) as [->|Hne]; [|done].
  by rewrite <-app_assoc.
Qed.

(** *** The connection listing *)

Lemma bind_length_bound {A B} (f : A → list B) (l : list A) (k : nat) :
  Forall (λ x, length (f x) ≤ k) l → length (l ≫= f) ≤ length l * k.
Proof.
  induction 1 as [|x l Hx _ IH]; [done|].
  rewrite bind_cons, length_app. cbn. lia.
Qed.

(** X16. The connection listing is bounded and adds nothing: it never
    holds more than 500 entries, each one is a stored connection of the
    source it names, taken from the first 10 connections of one of the
    first 50 sources; and when the table has at most 50 sources with at
    most 10 connections each, nothing is cut and every stored connection
    is listed. *)
Theorem format_connections_is_bounded (items : list (string * list connection)) :
  length (_format_connections items) ≤ 500
  ∧ (∀ e, e ∈ _format_connections items →
       ∃ item conn, item ∈ take 50 items ∧ conn ∈ take 10 item.2
                    ∧ item ∈ items ∧ conn ∈ item.2
                    ∧ e = Formatted item.1 (conn_dst_ip conn)
                                    (conn_timestamp conn) (conn_protocol conn))
  ∧ (length items ≤ 50 → Forall (λ item, length item.2 ≤ 10) items →
       ∀ item conn, item ∈ items → conn ∈ item.2 →
         Formatted item.1 (conn_dst_ip conn) (conn_timestamp conn) (conn_protocol conn)
         ∈ _format_connections items)
  ∧ get_connections items = _format_connections items.
Proof.
  unfold get_connections, _format_connections. split_and!; [| | |done].
  - etrans.
    + apply (bind_length_bound _ _ 10). apply Forall_forall. intros item _.
      rewrite length_fmap, length_take. lia.
    + rewrite length_take. lia.
  - intros e (item & (conn & -> & Hc)%list_elem_of_fmap & Hi)%list_elem_of_bind.
    exists item, conn. split_and!; try done.
    + by eapply subseteq_take.
    + by eapply subseteq_take.
  - intros Hlen Hall item conn Hi Hc.
    apply list_elem_of_bind. exists item. split.
    + apply list_elem_of_fmap. exists conn. split; [done|].
      rewrite take_ge; [done|]. by eapply Forall_forall in Hall.
    + by rewrite take_ge.
Qed.

End analyzer_more.

(** ** The attack classifier *)

Section classifier.
Import AttackClassifier.

(** X17. The classifier never fails its caller.  When the model is
    absent, raises, or answers with a text that holds no JSON object,
    [classify_attack] answers with the entry of the static table, also
    where [_parse_classification] itself raises; the entry logged by the
    analyzer is then the one logged without a model.  The table gives a
    confidence between 70 and 90 for every attack type. *)
Theorem classify_attack_falls_back
    (m : option model) (attack_type source_ip : string) (p : Scapy.packet) :
  unusable m →
  classify_attack m attack_type source_ip p
  = _default_classification attack_type source_ip
  ∧ (70 <= confidence (classify_attack m attack_type source_ip p) <= 90)%Z
  ∧ (∀ text, (∀ fields, text ≠ JsonObject fields) →
       ∃ e, _parse_classification text attack_type = inl e)
  ∧ (∀ t dst,
       PacketAnalyzer.syn_flood_entry (classify_attack m) p t source_ip dst
       = PacketAnalyzer.syn_flood_entry offline p t source_ip dst)
  ∧ (∀ t dst,
       PacketAnalyzer.udp_flood_entry (classify_attack m) p t source_ip dst
       = PacketAnalyzer.udp_flood_entry offline p t source_ip dst).
Proof.
  intros Hm.
  assert (Hdef : ∀ ty src, classify_attack m ty src p = _default_classification ty src).
  { intros ty src. unfold classify_attack. destruct m as [g|]; [|done].
    cbn in Hm. specialize (Hm ty src).
    destruct (g ty src) as [|[| |fields]]; try done. by destruct (Hm fields). }
  split; [|split; [|split; [|split]]].
  - apply Hdef.
  - rewrite Hdef. unfold _default_classification.
    repeat (destruct (String.eqb _ _)); cbn; lia.
  - intros text Htext. destruct text as [| |fields]; cbn; eauto.
    by destruct (Htext fields).
  - intros t dst. unfold PacketAnalyzer.syn_flood_entry. by rewrite Hdef.
  - intros t dst. unfold PacketAnalyzer.udp_flood_entry. by rewrite Hdef.
Qed.

Lemma classify_attack_falls_back_witness :
  let m : option model := Some (λ _ _, Answers MalformedJson) in
  classification (classify_attack m "SYN Flood" "10.0.0.5" (Scenario.tcp_packet 2))
  = "Denial of Service (DoS) - SYN Flood".
Proof.
  intros m.
  assert (Hm : unusable m) by (subst m; cbn; intros ? ? ?; discriminate).
  destruct (classify_attack_falls_back m "SYN Flood" "10.0.0.5"
              (Scenario.tcp_packet 2) Hm) as (-> & _).
  reflexivity.
Defined.

End classifier.

(** ** More of the batch aggregator *)

Section etl_more.
Import Scapy ETLPipeline.

(** *** Extraction from a directory *)

Lemma read_all_readable files : ∀ acc,
  Forall (λ f, readable f.2) files →
  read_all files acc = inr (acc ++ (files ≫= λ f, packets_of f.2)).
Proof.
  induction files as [|[name c] files IH]; intros acc Hall.
  { cbn. by rewrite app_nil_r. }
  apply Forall_cons in Hall as [[ps Hc] Hall]. cbn in Hc. subst c.
  cbn [read_all]. rewrite IH by done. rewrite bind_cons. cbn.
  by rewrite app_assoc.
Qed.

(** X18. Extraction from a directory reads the entries named [*.pcap] or
    [*.pcapng], ignores every other entry, and returns the packets of the
    files read, file after file in the order of the listing;
    [total_packets] is their number.  (One capture file with a readable
    name is enough for the directory to be accepted.) *)
Theorem extract_directory_concatenates
    (fs : filesystem) (st : stats) (source : string) (now : Q)
    (entries : list (string * capture)) :
  fs source = Some (Dir entries) →
  let files := filter (λ e, is_capture_name e.1 = true) entries in
  files ≠ [] →
  Forall (λ f, readable f.2) files →
  let packets := files ≫= λ f, packets_of f.2 in
  (extract fs st source now).2 = inr packets
  ∧ total_packets (extract fs st source now).1 = length packets
  ∧ start_time (extract fs st source now).1 = Some now.
Proof.
  intros Hfs files Hne Hall packets. unfold extract. rewrite Hfs.
  fold files. destruct files as [|f files'] eqn:Hf; [done|].
  rewrite read_all_readable by done. done.
Qed.

Lemma extract_directory_concatenates_witness :
  let out := extract Scenario.archive init "captures" 7 in
  out.2 = inr [Scenario.udp_packet; Scenario.tcp_packet 2; Scenario.tcp_packet 16]
  ∧ total_packets out.1 = 3%nat.
Proof.
  intros out.
  destruct (extract_directory_concatenates Scenario.archive init "captures" 7
              [("monday.pcap", inr [Scenario.udp_packet; Scenario.tcp_packet 2]);
               ("readme.txt", inl "not a capture");
               ("tuesday.pcapng", inr [Scenario.tcp_packet 16])])
    as (H1 & H2 & _).
  - reflexivity.
  - by vm_compute.
  - vm_compute. repeat constructor; eexists; reflexivity.
  - split; [exact H1|exact H2].
Defined.

(** *** The connection map *)

(** Tracking a record either updates a connection or creates one and
    counts it; the map stays well keyed. *)
Lemma track_connection_size st m pd :
  let out := track_connection st m pd in
  (connections_created out.1 + size m = connections_created st + size out.2)%nat
  ∧ (connections_well_keyed m → connections_well_keyed out.2).
Proof.
  unfold track_connection.
  destruct (src_ip pd) as [s|]; [|done].
  destruct (dst_ip pd) as [d|]; [|done].
  destruct (m !! _get_connection_key s d (protocol pd)) as [c|] eqn:Hk; cbn.
  - split; [by rewrite map_size_insert_Some by eauto|].
    intros Hwk k c'. destruct (Hwk _ _ Hk) as [Hkey _].
    destruct (decide (_get_connection_key s d (protocol pd) = k)) as [<-|Hne].
    + rewrite lookup_insert_eq. intros [= <-]. cbn. split; [done|lia].
    + rewrite lookup_insert_ne by done. apply Hwk.
  - split; [rewrite map_size_insert_None by done; lia|].
    intros Hwk k c'.
    destruct (decide (_get_connection_key s d (protocol pd) = k)) as [<-|Hne].
    + rewrite lookup_insert_eq. intros [= <-]. cbn. split; [done|lia].
    + rewrite lookup_insert_ne by done. apply Hwk.
Qed.

Lemma transform_step_connections ls p idx :
  let ls' := transform_step ls p idx in
  (connections_created (ls_stats ls') + size (connections_map ls)
   = connections_created (ls_stats ls) + size (connections_map ls'))%nat
  ∧ (connections_well_keyed (connections_map ls) →
     connections_well_keyed (connections_map ls')).
Proof.
  unfold transform_step. destruct (_transform_packet p idx) as [pd|]; [|done].
  match goal with
  | |- context [track_connection ?st ?m pd] =>
      pose proof (track_connection_size st m pd) as Ht;
      destruct (track_connection st m pd) as [st1 m1]
  end.
  cbn in Ht.
  destruct (_detect_attacks pd (update_both (ip_stats ls) pd)) as [ips1 [a1|]];
    cbn; exact Ht.
Qed.

Lemma transform_loop_connections ps : ∀ ls idx,
  let ls' := transform_loop ls ps idx in
  (connections_created (ls_stats ls') + size (connections_map ls)
   = connections_created (ls_stats ls) + size (connections_map ls'))%nat
  ∧ (connections_well_keyed (connections_map ls) →
     connections_well_keyed (connections_map ls')).
Proof.
  induction ps as [|p ps IH]; intros ls idx; cbn [transform_loop]; [done|].
  destruct (IH (transform_step ls p idx) (S idx)) as [I1 I2].
  destruct (transform_step_connections ls p idx) as [S1 S2].
  cbv zeta in *. split; [lia|auto].
Qed.

Lemma keys_of_values {K V} (key : V → K) (l : list (K * V)) :
  Forall (λ kv, key kv.2 = kv.1) l → key <$> l.*2 = l.*1.
Proof. induction 1 as [|[k v] l Hk _ IH]; [done|]. cbn in *. by rewrite Hk, IH. Qed.

(** X19. The connections of a transform.  [connections_created] grows by
    exactly the number of connections in the output; no two connections
    of the output have the same key of source, destination and protocol;
    and every one of them has counted at least one packet. *)
Theorem connections_created_matches_output (st : stats) (packets : list packet) :
  let out := transform st packets in
  connections_created out.1
  = (connections_created st + length (td_connections out.2))%nat
  ∧ NoDup ((λ c, _get_connection_key (c_src_ip c) (c_dst_ip c) (c_protocol c))
             <$> td_connections out.2)
  ∧ Forall (λ c, (1 ≤ c_packet_count c)%nat) (td_connections out.2).
Proof.
  unfold transform. cbn.
  destruct (transform_loop_connections packets (LoopState st [] [] ∅ ∅) 0) as [Hc Hwk].
  cbn in Hc, Hwk. rewrite map_size_empty in Hc.
  set (m := connections_map (transform_loop (LoopState st [] [] ∅ ∅) packets 0)) in *.
  assert (Hm : connections_well_keyed m).
  { apply Hwk. intros k c. by rewrite lookup_empty. }
  split_and!.
  - rewrite length_fmap, length_map_to_list. lia.
  - rewrite keys_of_values; [apply NoDup_fst_map_to_list|].
    apply Forall_forall. intros [k c] Hin. apply elem_of_map_to_list in Hin.
    cbn. by destruct (Hm k c Hin).
  - apply Forall_forall. intros c ([k c'] & -> & Hin)%list_elem_of_fmap.
    apply elem_of_map_to_list in Hin. cbn. by destruct (Hm k c' Hin).
Qed.

(** *** Loading in batches *)

Lemma slice_length {A} (l : list A) (i : nat) (batch_size : Z) :
  length (slice l i batch_size) = (Z.to_nat batch_size `min` (length l - i))%nat.
Proof. unfold slice. by rewrite length_take, length_drop. Qed.

(** The batches of a positive size cover the records once. *)
Lemma batches_cover (n k m : nat) :
  foldr (λ i acc, ((k `min` (n - i)) + acc)%nat) 0%nat ((λ j, j * k)%nat <$> seq 0 m)
  = (n `min` (m * k))%nat.
Proof.
  induction m as [|m IH]; [cbn; lia|].
  rewrite seq_S, fmap_app, foldr_app. cbn [fmap list_fmap foldr plus].
  revert IH. generalize (seq 0 m) as l. intros l IH.
  assert (Hshift : ∀ (l : list nat) (b : nat),
    foldr (λ i acc, ((k `min` (n - i)) + acc)%nat) b l
    = (foldr (λ i acc, ((k `min` (n - i)) + acc)%nat) 0%nat l + b)%nat).
  { clear. induction l as [|x l IH]; intros b; cbn; [done|]. rewrite IH. lia. }
  rewrite Hshift, IH. lia.
Qed.

Lemma batches_reach (n k : nat) : (0 < k)%nat → (n ≤ (n + k - 1) / k * k)%nat.
Proof.
  intros Hk.
  pose proof (Nat.div_mod_eq (n + k - 1) k) as Hd.
  pose proof (Nat.mod_upper_bound (n + k - 1) k) as Hm.
  nia.
Qed.

(** The batched loop with a positive batch size: every record is counted
    as loaded, in [ceil(n / batch_size)] batches. *)
Lemma load_batches_positive {A} s collection (records : list A) batch_size :
  (0 < batch_size)%Z →
  ∃ w, load_batches s collection records batch_size = inr (length records, w)
       ∧ length w
         = ((length records + Z.to_nat batch_size - 1) / Z.to_nat batch_size)%nat.
Proof.
  intros Hpos. unfold load_batches.
  destruct records as [|x records].
  { eexists. split; [reflexivity|]. cbn [length].
    symmetry. apply Nat.div_small. lia. }
  unfold range0.
  destruct (Z.eqb_spec batch_size 0) as [|_]; [lia|].
  destruct (Z.ltb_spec batch_size 0) as [|_]; [lia|].
  set (n := length (x :: records)). set (k := Z.to_nat batch_size).
  exists ((λ i, _load_batch s collection i) <$> ((λ j, j * k)%nat <$> seq 0 ((n + k - 1) / k))).
  split; [|by rewrite 2!length_fmap, length_seq].
  f_equal. f_equal.
  etrans; [|apply (Nat.min_l n ((n + k - 1) / k * k)), batches_reach; lia].
  rewrite <-batches_cover. apply foldr_ext; [|done|done].
  intros i acc. by rewrite slice_length.
Qed.

(** With a negative batch size the loop is empty. *)
Lemma load_batches_negative {A} s collection (records : list A) batch_size :
  (batch_size < 0)%Z →
  load_batches s collection records batch_size = inr (0%nat, []).
Proof.
  intros Hneg. unfold load_batches, range0.
  destruct records; [done|].
  destruct (Z.eqb_spec batch_size 0) as [|_]; [lia|].
  destruct (Z.ltb_spec batch_size 0) as [_|]; [done|lia].
Qed.

Lemma attacks_loaded_or_failed (s : sink) (attacks : list attack) :
  (length (filter (λ a, log_attack_ok s a = true) attacks)
   + length (filter (λ a, log_attack_ok s a = false) attacks))%nat
  = length attacks.
Proof.
  induction attacks as [|a attacks IH]; [done|].
  destruct (log_attack_ok s a) eqn:Ha.
  - rewrite filter_cons_True by done.
    rewrite (filter_cons_False (λ a, log_attack_ok s a = false)) by (rewrite Ha; done).
    cbn. lia.
  - rewrite filter_cons_False by (rewrite Ha; done).
    rewrite (filter_cons_True (λ a, log_attack_ok s a = false)) by done.
    cbn. lia.
Qed.

(** X20. What [load] reports, once [extract] has set [start_time].  With
    a positive batch size every packet and every connection is counted as
    loaded whatever the sink did with the batches, each collection in
    [ceil(n / batch_size)] batches, followed by one write of the
    statistics.  With a negative batch size [load] succeeds as well, but
    no packet and no connection is written or counted.  In both cases
    every attack is counted once, as loaded or as an error. *)
Theorem load_counts_every_record
    (s : sink) (st : stats) (td : transformed_data) (batch_size : Z) (now t0 : Q) :
  start_time st = Some t0 →
  let k := Z.to_nat batch_size in
  ((0 < batch_size)%Z →
     ∃ ls w, (load s st td batch_size now).2 = inr (ls, w)
       ∧ packets_loaded ls = length (td_packets td)
       ∧ connections_loaded ls = length (td_connections td)
       ∧ (attacks_loaded ls + errors ls)%nat = length (td_attacks td)
       ∧ length w = ((length (td_packets td) + k - 1) / k
                     + (length (td_connections td) + k - 1) / k + 1)%nat)
  ∧ ((batch_size < 0)%Z →
       ∃ ls w, (load s st td batch_size now).2 = inr (ls, w)
         ∧ packets_loaded ls = 0%nat
         ∧ connections_loaded ls = 0%nat
         ∧ (attacks_loaded ls + errors ls)%nat = length (td_attacks td)
         ∧ length w = 1%nat).
Proof.
  intros Hstart k. split; intros Hbs; unfold load.
  - destruct (load_batches_positive s "packets" (td_packets td) batch_size Hbs)
      as (wp & -> & Hwp).
    destruct (load_batches_positive s "connections" (td_connections td) batch_size Hbs)
      as (wc & -> & Hwc).
    cbn [start_time]. rewrite Hstart. cbn [snd].
    eexists _, _. split; [reflexivity|]. cbn.
    split_and!; [done|done|apply attacks_loaded_or_failed|].
    rewrite !length_app, Hwp, Hwc. cbn. fold k. lia.
  - rewrite !load_batches_negative by done.
    cbn [start_time]. rewrite Hstart. cbn [snd].
    eexists _, _. split; [reflexivity|]. cbn.
    split_and!; [done|done|apply attacks_loaded_or_failed|done].
Qed.

Lemma load_counts_every_record_witness :
  let out := transform (extract Scenario.disk init "flood.pcap" 0).1
                       (replicate 7 (Scenario.tcp_packet 2)) in
  ∃ ls w, (load Scenario.broken_sink out.1 out.2 3 1).2 = inr (ls, w)
          ∧ packets_loaded ls = 7%nat ∧ length w = 5%nat.
Proof.
  intros out.
  destruct (load_counts_every_record Scenario.broken_sink out.1 out.2 3 1 0)
    as [Hpos _]; [reflexivity|].
  destruct Hpos as (ls & w & Hl & Hp & _ & _ & Hw); [lia|].
  exists ls, w. split; [exact Hl|]. split.
  - rewrite Hp. reflexivity.
  - rewrite Hw. reflexivity.
Defined.

(** *** The attack records of a source *)

Lemma records_of_app type s l1 l2 :
  records_of type s (l1 ++ l2) = (records_of type s l1 + records_of type s l2)%nat.
Proof. unfold records_of. by rewrite filter_app, length_app. Qed.

(** The record that [_detect_attacks] answers with, for any decoded
    record whose source is in the table. *)
Lemma detect_attacks_records pd ips s :
  (∀ s', truthy (src_ip pd) = Some s' → is_Some (ips !! s')) →
  let new := if (_detect_attacks pd ips).2 is Some a then [a] else [] in
  records_of "SYN Flood" s new
  = (if decide (pd_syn_from s pd)
     then if bool_decide (5 < S (syn_count_of ips s))%nat then 1 else 0
     else 0)%nat
  ∧ records_of "UDP Flood" s new
    = (if decide (pd_udp_from s pd)
       then if bool_decide (100 < S (udp_count_of ips s))%nat then 1 else 0
       else 0)%nat
  ∧ Forall (λ a, attack_type a = "SYN Flood" ∨ attack_type a = "UDP Flood") new.
Proof.
  intros Hin new. subst new.
  assert (Hcase : (∃ s', truthy (src_ip pd) = Some s') ∨ truthy (src_ip pd) = None)
    by (destruct (truthy (src_ip pd)); eauto).
  assert (Hnone : (∀ s0, ¬ pd_syn_from s0 pd) → (∀ s0, ¬ pd_udp_from s0 pd) →
    records_of "SYN Flood" s
      (if (_detect_attacks pd ips).2 is Some a then [a] else [])
    = (if decide (pd_syn_from s pd)
       then if bool_decide (5 < S (syn_count_of ips s))%nat then 1 else 0
       else 0)%nat
    ∧ records_of "UDP Flood" s
        (if (_detect_attacks pd ips).2 is Some a then [a] else [])
      = (if decide (pd_udp_from s pd)
         then if bool_decide (100 < S (udp_count_of ips s))%nat then 1 else 0
         else 0)%nat
    ∧ Forall (λ a, attack_type a = "SYN Flood" ∨ attack_type a = "UDP Flood")
        (if (_detect_attacks pd ips).2 is Some a then [a] else [])).
  { intros Hs Hu. rewrite detect_attacks_other by done. cbn [snd].
    rewrite decide_False by apply Hs. rewrite decide_False by apply Hu. done. }
  destruct Hcase as [[s' Hs']|Hs'].
  - specialize (Hin s' Hs').
    destruct (decide (pd_syn_from s' pd)) as [Hsyn|Hnsyn].
    + clear Hnone.
      destruct (detect_attacks_syn pd ips s' Hsyn Hin) as (_ & _ & _ & ->).
      pose proof Hsyn as (_ & Hp & _).
      rewrite (decide_False (P := pd_udp_from s pd))
        by (intros (_ & Hu); congruence).
      destruct (decide (s = s')) as [->|Hne].
      * rewrite decide_True by done.
        case_bool_decide; unfold records_of; cbv beta iota.
        -- rewrite filter_cons_True by done.
           rewrite filter_cons_False by (intros [? _]; done).
           split_and!; [done|done|]. constructor; [by left|constructor].
        -- done.
      * rewrite decide_False by (intros (Hs & _); congruence).
        case_bool_decide; unfold records_of; cbv beta iota; [|done].
        rewrite !filter_cons_False by (intros [_ ?]; done).
        split_and!; [done|done|]. constructor; [by left|constructor].
    + destruct (decide (pd_udp_from s' pd)) as [Hudp|Hnudp].
      * clear Hnone.
        destruct (detect_attacks_udp pd ips s' Hudp Hin) as (_ & _ & _ & ->).
        pose proof Hudp as (_ & Hp).
        rewrite (decide_False (P := pd_syn_from s pd))
          by (intros (_ & Hu & _); congruence).
        destruct (decide (s = s')) as [->|Hne].
        -- rewrite decide_True by done.
           case_bool_decide; unfold records_of; cbv beta iota; [|done].
           rewrite filter_cons_False by (intros [? _]; done).
           rewrite filter_cons_True by done.
           split_and!; [done|done|]. constructor; [by right|constructor].
        -- rewrite decide_False by (intros (Hs & _); congruence).
           case_bool_decide; unfold records_of; cbv beta iota; [|done].
           rewrite !filter_cons_False by (intros [_ ?]; done).
           split_and!; [done|done|]. constructor; [by right|constructor].
      * apply Hnone; intros s0 Hq; pose proof Hq as (Hs & _);
          assert (s0 = s') as -> by congruence; done.
  - apply Hnone; intros s0 (Hs & _); congruence.
Qed.

(** One iteration of the loop: a record of a type is added for a source
    exactly on a qualifying packet of that source that brings its counter
    past the threshold. *)
Lemma transform_step_records ls p idx s :
  let ls' := transform_step ls p idx in
  records_of "SYN Flood" s (ls_attacks ls')
  = (records_of "SYN Flood" s (ls_attacks ls)
     + if decide (raw_syn_from s p)
       then if bool_decide (5 < S (syn_count_of (ip_stats ls) s))%nat then 1 else 0
       else 0)%nat
  ∧ records_of "UDP Flood" s (ls_attacks ls')
    = (records_of "UDP Flood" s (ls_attacks ls)
       + if decide (raw_udp_from s p)
         then if bool_decide (100 < S (udp_count_of (ip_stats ls) s))%nat then 1 else 0
         else 0)%nat
  ∧ (Forall (λ a, attack_type a = "SYN Flood" ∨ attack_type a = "UDP Flood")
            (ls_attacks ls) →
     Forall (λ a, attack_type a = "SYN Flood" ∨ attack_type a = "UDP Flood")
            (ls_attacks ls')).
Proof.
  intros ls'. subst ls'.
  destruct (_transform_packet p idx) as [pd|] eqn:E.
  - destruct (transform_step_Some ls p idx pd E) as (_ & -> & _).
    destruct (detect_attacks_records pd (update_both (ip_stats ls) pd) s)
      as (Hs & Hu & Hall).
    { intros s'. apply update_both_src. }
    rewrite !records_of_app, Hs, Hu.
    destruct (update_both_counts (ip_stats ls) pd s) as [-> ->].
    rewrite (decide_ext (pd_syn_from s pd) (raw_syn_from s p))
      by exact (pd_syn_from_raw p idx pd s E).
    rewrite (decide_ext (pd_udp_from s pd) (raw_udp_from s p))
      by exact (pd_udp_from_raw p idx pd s E).
    split_and!; [done|done|]. intros H. by apply Forall_app.
  - unfold transform_step. rewrite E.
    apply transform_packet_None in E.
    rewrite !decide_False; [split_and!; [lia|lia|done]| |];
      intros ([? Hd] & _); congruence.
Qed.

Lemma transform_loop_records ps : ∀ ls idx s,
  let ls' := transform_loop ls ps idx in
  let c := syn_count_of (ip_stats ls) s in
  let u := udp_count_of (ip_stats ls) s in
  (records_of "SYN Flood" s (ls_attacks ls') + (c - 5)
   = records_of "SYN Flood" s (ls_attacks ls)
     + (c + length (filter (raw_syn_from s) ps) - 5))%nat
  ∧ (records_of "UDP Flood" s (ls_attacks ls') + (u - 100)
     = records_of "UDP Flood" s (ls_attacks ls)
       + (u + length (filter (raw_udp_from s) ps) - 100))%nat
  ∧ (Forall (λ a, attack_type a = "SYN Flood" ∨ attack_type a = "UDP Flood")
            (ls_attacks ls) →
     Forall (λ a, attack_type a = "SYN Flood" ∨ attack_type a = "UDP Flood")
            (ls_attacks ls')).
Proof.
  induction ps as [|p ps IH]; intros ls idx s; cbn [transform_loop]; cbn zeta.
  { cbn. split_and!; [lia|lia|done]. }
  destruct (IH (transform_step ls p idx) (S idx) s) as (Hs & Hu & Hall).
  destruct (transform_step_records ls p idx s) as (Ss & Su & Sall).
  destruct (transform_step_counts ls p idx s) as [Cs Cu].
  cbn zeta in *. rewrite Cs, Ss in Hs. rewrite Cu, Su in Hu.
  split_and!; [| |by eauto].
  - clear Hu Su Cu. destruct (decide (raw_syn_from s p)).
    + rewrite (filter_cons_True (raw_syn_from s)) by done.
      cbn [length]. case_bool_decide; lia.
    + rewrite (filter_cons_False (raw_syn_from s)) by done. lia.
  - clear Hs Ss Cs. destruct (decide (raw_udp_from s p)).
    + rewrite (filter_cons_True (raw_udp_from s)) by done.
      cbn [length]. case_bool_decide; lia.
    + rewrite (filter_cons_False (raw_udp_from s)) by done. lia.
Qed.

(** The records of a source, counted from a fresh table. *)
Lemma attack_records_of_transform (st : stats) (packets : list packet) (s : string) :
  let out := transform st packets in
  records_of "SYN Flood" s (td_attacks out.2)
  = (length (filter (raw_syn_from s) packets) - 5)%nat
  ∧ records_of "UDP Flood" s (td_attacks out.2)
    = (length (filter (raw_udp_from s) packets) - 100)%nat
  ∧ Forall (λ a, attack_type a = "SYN Flood" ∨ attack_type a = "UDP Flood")
           (td_attacks out.2).
Proof.
  intros out. subst out. unfold transform. cbn [fst snd td_attacks].
  destruct (transform_loop_records packets (LoopState st [] [] ∅ ∅) 0 s)
    as (Hs & Hu & Hall).
  cbn zeta in *. cbn [ip_stats ls_attacks] in *.
  unfold syn_count_of, udp_count_of in *. rewrite lookup_empty in *.
  cbn in Hs, Hu. split_and!; [lia|lia|by apply Hall].
Qed.

(** X21. The attack records that [transform] puts out, for any traffic.
    A source gets as many "SYN Flood" records as it has decodable TCP
    packets with SYN set and ACK clear beyond the first five, and as many
    "UDP Flood" records as it has decodable UDP packets beyond the first
    hundred, however its packets are spread over the capture and whatever
    other traffic lies between them: the capture times play no part.  No
    record of any other type is ever put out. *)
Theorem attack_records_per_source (st : stats) (packets : list packet) (s : string) :
  let out := transform st packets in
  records_of "SYN Flood" s (td_attacks out.2)
  = (length (filter (raw_syn_from s) packets) - 5)%nat
  ∧ records_of "UDP Flood" s (td_attacks out.2)
    = (length (filter (raw_udp_from s) packets) - 100)%nat
  ∧ Forall (λ a, attack_type a = "SYN Flood" ∨ attack_type a = "UDP Flood")
           (td_attacks out.2).
Proof. apply attack_records_of_transform. Qed.

(** *** The generated test captures *)

(** A capture of qualifying SYN packets of one source only. *)
Lemma transform_loop_only_syn s ps :
  Forall (raw_syn_from s) ps → ∀ ls idx,
  (length (ls_attacks (transform_loop ls ps idx))
   + (syn_count_of (ip_stats ls) s - 5)
   = length (ls_attacks ls) + (syn_count_of (ip_stats ls) s + length ps - 5))%nat.
Proof.
  induction 1 as [|p ps Hp _ IH]; intros ls idx; cbn [transform_loop length]; [lia|].
  specialize (IH (transform_step ls p idx) (S idx)).
  destruct (transform_step_syn ls p idx s Hp) as (Hc & Hgt & Hle).
  cbn zeta in *. rewrite Hc in IH.
  destruct (decide (5 < S (syn_count_of (ip_stats ls) s))%nat) as [Hlt|Hge].
  - destruct (Hgt Hlt) as (a & Ha & _). rewrite Ha, length_app in IH.
    cbn [length] in IH. lia.
  - destruct Hle as [Ha _]; [lia|]. rewrite Ha in IH. lia.
Qed.

(** A capture of UDP packets of one source only. *)
Lemma transform_loop_only_udp s ps :
  Forall (raw_udp_from s) ps → ∀ ls idx,
  (length (ls_attacks (transform_loop ls ps idx))
   + (udp_count_of (ip_stats ls) s - 100)
   = length (ls_attacks ls) + (udp_count_of (ip_stats ls) s + length ps - 100))%nat.
Proof.
  induction 1 as [|p ps Hp _ IH]; intros ls idx; cbn [transform_loop length]; [lia|].
  specialize (IH (transform_step ls p idx) (S idx)).
  destruct (transform_step_udp ls p idx s Hp) as (Hc & Hgt & Hle).
  cbn zeta in *. rewrite Hc in IH.
  destruct (decide (100 < S (udp_count_of (ip_stats ls) s))%nat) as [Hlt|Hge].
  - destruct (Hgt Hlt) as (a & Ha & _). rewrite Ha, length_app in IH.
    cbn [length] in IH. lia.
  - destruct Hle as [Ha _]; [lia|]. rewrite Ha in IH. lia.
Qed.

(** [wrpcap] over packets numbered from [a], of which those numbered
    below [K] can be built. *)
Lemma wrpcap_seq (f : nat → Scapy.packet) (K : nat) :
  (∀ i, TestGenerator.can_build (f i) = bool_decide (i < K)%nat) →
  ∀ n a, (a ≤ K)%nat →
    TestGenerator.wrpcap (f <$> seq a n)
    = TestGenerator.Generated (f <$> seq a (n `min` (K - a)))
                              (bool_decide (K - a < n)%nat).
Proof.
  intros Hf. induction n as [|n IH]; intros a Ha;
    cbn [seq fmap list_fmap TestGenerator.wrpcap].
  { cbn. by rewrite bool_decide_eq_false_2 by lia. }
  rewrite Hf. case_bool_decide as Hlt.
  - rewrite IH by lia. cbn [TestGenerator.on_disk TestGenerator.raised].
    replace (K - a)%nat with (S (K - S a)) by lia. cbn [Nat.min seq fmap list_fmap].
    f_equal. apply bool_decide_ext. lia.
  - replace (K - a)%nat with 0%nat by lia. cbn.
    by rewrite bool_decide_eq_true_2 by lia.
Qed.

(** X22. The generated flood captures through [transform].  A generator
    asked for [n] packets leaves the first [min n 64512] of them in its
    file: packet 64512 would have the source port 65536, which does not
    fit its field, so [wrpcap] raises there, after it has written the
    packets before.  For creation times that can be formatted and a
    non-empty source address, with [m] packets in the file, the SYN flood
    capture gives [m - 5] attack records, all "SYN Flood" records of the
    source, and adds as much to [attacks_detected]; the UDP flood capture
    gives [m - 100] records, all "UDP Flood" records of the source.  So a
    UDP capture of the default size of 30 packets, or of any size up to
    100, raises nothing. *)
Theorem generated_floods_through_transform
    (time : nat → Q) (n : nat) (src_ip dst_ip : string) (st : stats) :
  (∀ i, is_Some (fromtimestamp (time i))) → src_ip ≠ "" →
  let syns := TestGenerator.create_syn_flood_pcap time n src_ip dst_ip in
  let udps := TestGenerator.create_udp_flood_pcap time n src_ip dst_ip in
  let m := Z.to_nat (Z.min (Z.of_nat n) 64512) in
  length (TestGenerator.on_disk syns) = m
  ∧ length (TestGenerator.on_disk udps) = m
  ∧ (TestGenerator.raised syns = true ↔ (64512 < Z.of_nat n)%Z)
  ∧ (TestGenerator.raised udps = true ↔ (64512 < Z.of_nat n)%Z)
  ∧ length (td_attacks (transform st (TestGenerator.on_disk syns)).2) = (m - 5)%nat
  ∧ records_of "SYN Flood" src_ip
      (td_attacks (transform st (TestGenerator.on_disk syns)).2) = (m - 5)%nat
  ∧ attacks_detected (transform st (TestGenerator.on_disk syns)).1
    = (attacks_detected st + (m - 5))%nat
  ∧ length (td_attacks (transform st (TestGenerator.on_disk udps)).2) = (m - 100)%nat
  ∧ records_of "UDP Flood" src_ip
      (td_attacks (transform st (TestGenerator.on_disk udps)).2) = (m - 100)%nat
  ∧ attacks_detected (transform st (TestGenerator.on_disk udps)).1
    = (attacks_detected st + (m - 100))%nat.
Proof.
  intros Htime Hsrc syns udps m. subst syns udps.
  unfold TestGenerator.create_syn_flood_pcap, TestGenerator.create_udp_flood_pcap.
  remember (Z.to_nat 64512) as K eqn:HK.
  assert (HKz : Z.of_nat K = 64512%Z) by (subst K; by rewrite Z2Nat.id).
  clear HK.
  assert (Hfits : ∀ i : nat,
    TestGenerator.port_fits (1024 + Z.of_nat i) = bool_decide (i < K)%nat).
  { intros i. unfold TestGenerator.port_fits.
    destruct (Z.leb_spec 0 (1024 + Z.of_nat i)); [|lia].
    destruct (Z.leb_spec (1024 + Z.of_nat i) 65535); cbn;
      [by rewrite bool_decide_eq_true_2 by lia
      |by rewrite bool_decide_eq_false_2 by lia]. }
  rewrite !(wrpcap_seq _ K) by
    (first [lia | intros i; unfold TestGenerator.can_build; cbn;
                  rewrite Hfits; by destruct (bool_decide (i < K)%nat)]).
  cbn [TestGenerator.on_disk TestGenerator.raised].
  rewrite Nat.sub_0_r.
  assert (Hm : (n `min` K)%nat = m) by (subst m; lia).
  rewrite Hm. clear Hm.
  match goal with
  | |- context [transform st (?f <$> seq 0 m)] => set (syns := f <$> seq 0 m)
  end.
  match goal with
  | |- context [transform st (?f <$> seq 0 m)] => set (udps := f <$> seq 0 m)
  end.
  assert (Hsyns : Forall (raw_syn_from src_ip) syns).
  { apply Forall_fmap, Forall_forall. intros i _. cbn.
    split; [apply Htime|]. split; [done|]. split; [done|].
    eexists. split; [reflexivity|]. done. }
  assert (Hudps : Forall (raw_udp_from src_ip) udps).
  { apply Forall_fmap, Forall_forall. intros i _. cbn.
    split; [apply Htime|]. split; [done|]. split; [done|]. split; [done|eauto]. }
  assert (Hls : length syns = m) by (subst syns; by rewrite length_fmap, length_seq).
  assert (Hlu : length udps = m) by (subst udps; by rewrite length_fmap, length_seq).
  pose proof (transform_loop_only_syn src_ip syns Hsyns (LoopState st [] [] ∅ ∅) 0) as Ts.
  pose proof (transform_loop_only_udp src_ip udps Hudps (LoopState st [] [] ∅ ∅) 0) as Tu.
  destruct (attack_records_of_transform st syns src_ip) as (Rs & _ & _).
  destruct (attack_records_of_transform st udps src_ip) as (_ & Ru & _).
  destruct (transform_loop_attacks syns (LoopState st [] [] ∅ ∅) 0) as (ns & Hns & Hds).
  destruct (transform_loop_attacks udps (LoopState st [] [] ∅ ∅) 0) as (nu & Hnu & Hdu).
  cbn zeta in *. unfold transform in *. cbn [fst snd td_attacks] in *.
  cbn [ip_stats ls_attacks ls_stats] in *.
  unfold syn_count_of, udp_count_of in Ts, Tu. rewrite lookup_empty in Ts, Tu.
  cbn in Ts, Tu. rewrite Hls in Ts. rewrite Hlu in Tu.
  rewrite Rs, Ru, (filter_all (raw_syn_from src_ip)), (filter_all (raw_udp_from src_ip)),
    Hls, Hlu by done.
  rewrite Hds, Hdu. rewrite Hns in Ts |- *. rewrite Hnu in Tu |- *.
  cbn [app] in *. rewrite !bool_decide_eq_true.
  split_and!; try lia; try done.
  all: split; lia.
Qed.

(** Thirty packets of each kind: both files are written in full, with
    twenty-five SYN records and no UDP record. *)
Lemma generated_floods_through_transform_witness :
  let syns := TestGenerator.create_syn_flood_pcap
                (λ _, 1700000000) 30 "192.168.1.100" "10.0.0.1" in
  let udps := TestGenerator.create_udp_flood_pcap
                (λ _, 1700000000) 30 "192.168.1.200" "10.0.0.1" in
  length (TestGenerator.on_disk syns) = 30%nat
  ∧ length (td_attacks (transform init (TestGenerator.on_disk syns)).2) = 25%nat
  ∧ length (td_attacks (transform init (TestGenerator.on_disk udps)).2) = 0%nat.
Proof.
  intros syns udps.
  destruct (generated_floods_through_transform
              (λ _, 1700000000) 30 "192.168.1.100" "10.0.0.1" init)
    as (Ls & _ & _ & _ & As & _); [by vm_compute; eauto|done|].
  destruct (generated_floods_through_transform
              (λ _, 1700000000) 30 "192.168.1.200" "10.0.0.1" init)
    as (_ & _ & _ & _ & _ & _ & _ & Au & _); [by vm_compute; eauto|done|].
  split_and!; [exact Ls|exact As|exact Au].
Defined.

(** *** Connection keys *)

Lemma colon_split s1 : ∀ s2 r1 r2,
  colon_free s1 → colon_free s2 →
  s1 +:+ ":" +:+ r1 = s2 +:+ ":" +:+ r2 → s1 = s2 ∧ r1 = r2.
Proof.
  induction s1 as [|c s1 IH]; intros [|c2 s2] r1 r2 H1 H2; cbn; intros E.
  - by injection E.
  - injection E as <- _. by destruct H2 as [[] _].
  - injection E as -> _. by destruct H1 as [[] _].
  - injection E as <- E. destruct H1 as [_ H1], H2 as [_ H2].
    destruct (IH _ _ _ H1 H2 E) as [-> ->]. done.
Qed.

(** X23. Two flows share a connection key only if they have the same
    source, the same destination and the same protocol, as long as the
    addresses hold no colon, which is so for the dotted IPv4 addresses that
    the [IP] and [ARP] layers give.  The protocol name is free. *)
Theorem connection_key_injective (s1 d1 p1 s2 d2 p2 : string) :
  colon_free s1 → colon_free d1 → colon_free s2 → colon_free d2 →
  _get_connection_key s1 d1 p1 = _get_connection_key s2 d2 p2 →
  s1 = s2 ∧ d1 = d2 ∧ p1 = p2.
Proof.
  intros Hs1 Hd1 Hs2 Hd2 E. unfold _get_connection_key in E.
  destruct (colon_split _ _ _ _ Hs1 Hs2 E) as [-> E'].
  destruct (colon_split _ _ _ _ Hd1 Hd2 E') as [-> ->]. done.
Qed.

Lemma connection_key_injective_witness :
  _get_connection_key "10.0.0.5" "10.0.0.1" "TCP"
  = _get_connection_key "10.0.0.5" "10.0.0.1" "TCP"
  ∧ "10.0.0.5" = "10.0.0.5" ∧ "10.0.0.1" = "10.0.0.1" ∧ "TCP" = "TCP".
Proof.
  split; [reflexivity|].
  apply (connection_key_injective "10.0.0.5" "10.0.0.1" "TCP" "10.0.0.5" "10.0.0.1" "TCP");
    try reflexivity; cbn; repeat split; discriminate.
Defined.

(** With colons in the addresses two flows can share a key. *)
Example connection_key_collision :
  _get_connection_key "fe80" "1:2" "TCP" = _get_connection_key "fe80:1" "2" "TCP".
Proof. reflexivity. Qed.

(** *** The statistics of an address *)

Lemma update_ip_stats_seen ips pd d s :
  s ≠ "" →
  let hit := if decide ((match d with src => src_ip pd | dst => dst_ip pd end) = Some s)
             then 1%nat else 0%nat in
  packets_seen (_update_ip_stats ips pd d) s = (packets_seen ips s + hit)%nat
  ∧ bytes_sent_by (_update_ip_stats ips pd d) s
    = (bytes_sent_by ips s
       + match d with src => hit * packet_size pd | dst => 0 end)%nat
  ∧ bytes_received_by (_update_ip_stats ips pd d) s
    = (bytes_received_by ips s
       + match d with src => 0 | dst => hit * packet_size pd end)%nat.
Proof.
  intros Hs hit. subst hit.
  unfold _update_ip_stats, packets_seen, bytes_sent_by, bytes_received_by.
  set (o := match d with src => src_ip pd | dst => dst_ip pd end).
  destruct o as [k|]; cbn [truthy].
  2: { rewrite decide_False by done. destruct d; split_and!; lia. }
  destruct (String.eqb_spec k "") as [->|Hk].
  { rewrite decide_False by congruence. destruct d; split_and!; lia. }
  destruct (decide (k = s)) as [->|Hne].
  - rewrite decide_True by done. rewrite lookup_insert_eq.
    destruct (ips !! s) as [e|]; destruct d; cbn; split_and!; lia.
  - rewrite decide_False by congruence. rewrite lookup_insert_ne by done.
    destruct d; split_and!; lia.
Qed.

Lemma update_both_seen ips pd s :
  s ≠ "" →
  let from := if decide (src_ip pd = Some s) then 1%nat else 0%nat in
  let to := if decide (dst_ip pd = Some s) then 1%nat else 0%nat in
  packets_seen (update_both ips pd) s = (packets_seen ips s + from + to)%nat
  ∧ bytes_sent_by (update_both ips pd) s
    = (bytes_sent_by ips s + from * packet_size pd)%nat
  ∧ bytes_received_by (update_both ips pd) s
    = (bytes_received_by ips s + to * packet_size pd)%nat.
Proof.
  intros Hs from to. subst from to. unfold update_both.
  destruct (src_ip pd) as [a|] eqn:Ha; destruct (dst_ip pd) as [b|] eqn:Hb.
  - destruct (update_ip_stats_seen (_update_ip_stats ips pd src) pd dst s Hs)
      as (-> & -> & ->).
    destruct (update_ip_stats_seen ips pd src s Hs) as (-> & -> & ->).
    cbn zeta. rewrite Ha, Hb. split_and!; lia.
  - destruct (update_ip_stats_seen ips pd src s Hs) as (-> & -> & ->).
    cbn zeta. rewrite Ha. rewrite (decide_False (P := None = Some s)) by done.
    split_and!; lia.
  - destruct (update_ip_stats_seen ips pd dst s Hs) as (-> & -> & ->).
    cbn zeta. rewrite Hb. rewrite (decide_False (P := None = Some s)) by done.
    split_and!; lia.
  - rewrite !(decide_False (P := None = Some s)) by done. split_and!; lia.
Qed.

(** [_detect_attacks] touches the two attack counters only. *)
Lemma detect_attacks_seen pd ips s :
  packets_seen (_detect_attacks pd ips).1 s = packets_seen ips s
  ∧ bytes_sent_by (_detect_attacks pd ips).1 s = bytes_sent_by ips s
  ∧ bytes_received_by (_detect_attacks pd ips).1 s = bytes_received_by ips s.
Proof.
  unfold _detect_attacks, packets_seen, bytes_sent_by, bytes_received_by.
  destruct (truthy (src_ip pd)) as [k|]; [|done].
  destruct (String.eqb (protocol pd) "TCP").
  - destruct (syn_without_ack pd); [|done].
    destruct (ips !! k) as [e|] eqn:He; [|done]. cbn [fst].
    destruct (decide (k = s)) as [->|Hne].
    + by rewrite lookup_insert_eq, He.
    + by rewrite lookup_insert_ne.
  - destruct (String.eqb (protocol pd) "UDP"); [|done].
    destruct (ips !! k) as [e|] eqn:He; [|done]. cbn [fst].
    destruct (decide (k = s)) as [->|Hne].
    + by rewrite lookup_insert_eq, He.
    + by rewrite lookup_insert_ne.
Qed.

Lemma transform_step_seen ls p idx s :
  s ≠ "" →
  let ls' := transform_step ls p idx in
  ∃ new, ls_packets ls' = ls_packets ls ++ new
    ∧ packets_seen (ip_stats ls') s
      = (packets_seen (ip_stats ls) s
         + length (filter (λ pd, src_ip pd = Some s) new)
         + length (filter (λ pd, dst_ip pd = Some s) new))%nat
    ∧ bytes_sent_by (ip_stats ls') s
      = (bytes_sent_by (ip_stats ls) s
         + sum_list (packet_size <$> filter (λ pd, src_ip pd = Some s) new))%nat
    ∧ bytes_received_by (ip_stats ls') s
      = (bytes_received_by (ip_stats ls) s
         + sum_list (packet_size <$> filter (λ pd, dst_ip pd = Some s) new))%nat.
Proof.
  intros Hs ls'. subst ls'. unfold transform_step.
  destruct (_transform_packet p idx) as [pd|].
  2: { exists []. rewrite app_nil_r. cbn. split_and!; [done|lia|lia|lia]. }
  exists [pd].
  destruct (detect_attacks_seen pd (update_both (ip_stats ls) pd) s) as (D1 & D2 & D3).
  destruct (update_both_seen (ip_stats ls) pd s Hs) as (U1 & U2 & U3).
  cbn zeta in *. rewrite U1 in D1. rewrite U2 in D2. rewrite U3 in D3.
  destruct (track_connection _ (connections_map ls) pd) as [st1 m1].
  destruct (_detect_attacks pd (update_both (ip_stats ls) pd)) as [ips1 [a|]];
    cbn [fst ip_stats ls_packets] in *.
  all: rewrite D1, D2, D3.
  all: split; [done|].
  all: destruct (decide (src_ip pd = Some s));
         [rewrite (filter_cons_True (λ pd, src_ip pd = Some s)) by done
         |rewrite (filter_cons_False (λ pd, src_ip pd = Some s)) by done].
  all: destruct (decide (dst_ip pd = Some s));
         [rewrite (filter_cons_True (λ pd, dst_ip pd = Some s)) by done
         |rewrite (filter_cons_False (λ pd, dst_ip pd = Some s)) by done].
  all: cbn; split_and!; lia.
Qed.

Lemma transform_loop_seen ps s : s ≠ "" → ∀ ls idx,
  let ls' := transform_loop ls ps idx in
  ∃ new, ls_packets ls' = ls_packets ls ++ new
    ∧ packets_seen (ip_stats ls') s
      = (packets_seen (ip_stats ls) s
         + length (filter (λ pd, src_ip pd = Some s) new)
         + length (filter (λ pd, dst_ip pd = Some s) new))%nat
    ∧ bytes_sent_by (ip_stats ls') s
      = (bytes_sent_by (ip_stats ls) s
         + sum_list (packet_size <$> filter (λ pd, src_ip pd = Some s) new))%nat
    ∧ bytes_received_by (ip_stats ls') s
      = (bytes_received_by (ip_stats ls) s
         + sum_list (packet_size <$> filter (λ pd, dst_ip pd = Some s) new))%nat.
Proof.
  intros Hs. induction ps as [|p ps IH]; intros ls idx; cbn [transform_loop]; cbn zeta.
  { exists []. rewrite app_nil_r. cbn. split_and!; [done|lia|lia|lia]. }
  destruct (IH (transform_step ls p idx) (S idx)) as (new2 & -> & -> & -> & ->).
  destruct (transform_step_seen ls p idx s Hs) as (new1 & -> & -> & -> & ->).
  exists (new1 ++ new2). rewrite <-app_assoc. split; [done|].
  rewrite !filter_app, !fmap_app, !sum_list_with_app, !length_app. split_and!; lia.
Qed.

(** X24. The statistics that [transform] puts out for a non-empty
    address describe the decoded records: its [packet_count] is the number
    of records that name it as source plus the number that name it as
    destination (a record from an address to itself counts twice), its
    [bytes_sent] the total size of the records it is the source of, and
    its [bytes_received] the total size of those it is the destination
    of. *)
Theorem ip_statistics_describe_records
    (st : stats) (packets : list packet) (s : string) :
  s ≠ "" →
  let out := transform st packets in
  let sent := filter (λ pd, src_ip pd = Some s) (td_packets out.2) in
  let received := filter (λ pd, dst_ip pd = Some s) (td_packets out.2) in
  packets_seen (ip_statistics out.2) s = (length sent + length received)%nat
  ∧ bytes_sent_by (ip_statistics out.2) s = sum_list (packet_size <$> sent)
  ∧ bytes_received_by (ip_statistics out.2) s = sum_list (packet_size <$> received).
Proof.
  intros Hs out sent received. subst sent received out. unfold transform.
  cbn [fst snd td_packets ip_statistics].
  destruct (transform_loop_seen packets s Hs (LoopState st [] [] ∅ ∅) 0)
    as (new & -> & -> & -> & ->).
  cbn [ls_packets ip_stats app].
  unfold packets_seen, bytes_sent_by, bytes_received_by.
  rewrite lookup_empty. cbn. done.
Qed.

Lemma ip_statistics_describe_records_witness :
  let out := transform init [Scenario.udp_packet; Scenario.tcp_packet 2] in
  packets_seen (ip_statistics out.2) "10.0.0.1" = 2%nat
  ∧ bytes_sent_by (ip_statistics out.2) "10.0.0.1" = 0%nat
  ∧ bytes_received_by (ip_statistics out.2) "10.0.0.1" = 120%nat.
Proof.
  intros out.
  destruct (ip_statistics_describe_records
              init [Scenario.udp_packet; Scenario.tcp_packet 2] "10.0.0.1")
    as (H1 & H2 & H3); [done|].
  fold out in H1, H2, H3.
  split_and!; [rewrite H1|rewrite H2|rewrite H3]; by vm_compute.
Defined.

End etl_more.

(** ** The HTTP endpoints of the batch aggregator *)

Section etl_api.
Import ETLPipeline ETLApi.

Lemma capture_names_of entries :
  filter (λ f, is_capture_name f = true) entries.*1
  = (filter (λ e : string * capture, is_capture_name e.1 = true) entries).*1.
Proof.
  induction entries as [|[name c] entries IH]; [done|]. cbn [fmap list_fmap fst].
  destruct (is_capture_name name) eqn:E.
  - rewrite !filter_cons_True by done. cbn. by rewrite <-IH.
  - rewrite !filter_cons_False by (cbn; congruence). exact IH.
Qed.

(** X25. [validate_source] and [extract] agree on the shape of a source.
    A source that the validation rejects always fails in [extract]; one
    that it accepts fails in [extract] only on a capture file that cannot
    be read, which the validation does not open.  The count it reports for
    a directory is the number of files that [extract] would read. *)
Theorem validate_source_agrees_with_extract
    (fs : filesystem) (st : stats) (source : string) (now : Q) :
  let v := validate_source fs source in
  (valid v = false → ∃ e, (extract fs st source now).2 = inl e)
  ∧ (valid v = true →
       ((∃ e, (extract fs st source now).2 = inl e)
        ↔ match fs source with
          | Some (File content) => ∃ m, content = inl m
          | Some (Dir entries) =>
              Exists (λ f, ∃ m, f.2 = inl m)
                     (filter (λ e, is_capture_name e.1 = true) entries)
          | None => False
          end))
  ∧ pcap_files_count v
    = match fs source with
      | Some (Dir entries) =>
          length (filter (λ e, is_capture_name e.1 = true) entries)
      | _ => 0%nat
      end.
Proof.
  intros v. subst v. unfold validate_source. rewrite extract_fails.
  destruct (fs source) as [[content|entries]|]; cbn.
  - rewrite orb_false_r. split_and!; [by left| |done].
    intros ->. split; [by intros [?|?]|by right].
  - rewrite capture_names_of, length_fmap.
    destruct (filter _ entries) as [|f files]; cbn.
    + split_and!; [by left|done|done].
    + split_and!; [done| |done]. intros _. split; [by intros [?|?]|by right].
  - done.
Qed.

(** When a run asked for over HTTP succeeds: the extraction succeeded,
    and the batch size is an integer other than zero or no packet was
    decoded. *)
Lemma run_request_success s fs st source batch_size t0 t1 :
  success (run_request s fs st source batch_size t0 t1).2 = true
  ↔ ∃ packets,
      (extract fs st source t0).2 = inr packets
      ∧ (Forall (λ p, ¬ decodable p) packets
         ∨ ∃ step, batch_step batch_size = inr step ∧ step ≠ 0%Z).
Proof.
  unfold run_request. destruct (batch_step batch_size) as [type_error|step].
  2: { pose proof (run_counts s fs st source step t0 t1) as (_ & _ & Hok & Hfail).
       cbn zeta in *.
       destruct (extract fs st source t0).2 as [e|packets].
       - destruct (Hfail e eq_refl) as [-> _]. split; [done|]. by intros (? & ? & _).
       - destruct (Hok packets eq_refl) as (_ & _ & ->). split.
         + intros [?|?]; exists packets; split; eauto.
         + intros (? & [= <-] & [?|(? & [= <-] & ?)]); eauto. }
  destruct (extract_stats fs st source t0) as (Hstart & _).
  destruct (extract fs st source t0) as [st1 [e|packets]]; cbn [fst snd] in *.
  { split; [done|]. by intros (? & ? & _). }
  unfold transform.
  destruct (transform_loop_stats packets (LoopState st1 [] [] ∅ ∅) 0)
    as (_ & _ & T3 & _ & _ & T6).
  pose proof (transform_loop_undecodable packets (LoopState st1 [] [] ∅ ∅) 0) as Hund.
  set (ls := transform_loop (LoopState st1 [] [] ∅ ∅) packets 0) in *.
  cbn [ls_stats ls_packets] in *. unfold load_not_integer.
  cbn [td_packets td_connections td_attacks start_time].
  destruct (ls_packets ls) as [|pd pds] eqn:Hps.
  - assert (Hall : Forall (λ p, ¬ decodable p) packets).
    { apply (filter_nil_Forall decodable packets). cbn in T6. lia. }
    rewrite (Hund Hall). cbn [connections_map ls_stats start_time].
    rewrite map_to_list_empty, Hstart. cbn. split; [eauto|done].
  - cbn [snd success]. split; [done|].
    intros (? & [= <-] & [Hall|(? & ? & _)]); [|done].
    rewrite (Hund Hall) in Hps. done.
Qed.

(** X26. The status of the answer of [process_pcap], for a request whose
    body is a JSON object with a string (or nothing) as source and any
    value (or nothing) as batch size.  It is 400 exactly when the request
    names no source and 404 exactly when the source it names does not
    exist, and in both cases the pipeline is not run and its counters are
    untouched.  It is 200 exactly when the extraction from the source
    succeeds and either no packet was decoded or the batch size is an
    integer other than zero, where an absent batch size is 100, [true] is
    1 and [false] is 0; otherwise it is 500.  So a batch size that is
    [null], a float or a string gives 500 as soon as one packet is
    decoded. *)
Theorem process_pcap_status
    (s : sink) (fs : filesystem) (st : stats) (source : option string)
    (batch_size : option json_value) (t0 t1 : Q) :
  let out := process_pcap s fs st source batch_size t0 t1 in
  let code := out.2.1 in
  (code = 400%nat ↔ truthy source = None)
  ∧ (code = 404%nat ↔ ∃ src, truthy source = Some src ∧ fs src = None)
  ∧ (code = 400%nat ∨ code = 404%nat → out.1 = st ∧ out.2.2 = None)
  ∧ (code = 200%nat
     ↔ ∃ src packets,
         truthy source = Some src
         ∧ (extract fs st src t0).2 = inr packets
         ∧ (Forall (λ p, ¬ decodable p) packets
            ∨ ∃ step, batch_step batch_size = inr step ∧ step ≠ 0%Z))
  ∧ (code = 200%nat ∨ code = 400%nat ∨ code = 404%nat ∨ code = 500%nat).
Proof.
  intros out code. subst code out. unfold process_pcap.
  destruct (truthy source) as [src|].
  2: { cbn. split_and!; try done.
       - split; [done|]. by intros (? & ? & _).
       - split; [done|]. by intros (? & ? & ? & _).
       - auto. }
  destruct (fs src) as [node|] eqn:Hfs.
  2: { cbn. split_and!; try done.
       - split; [|done]. eauto.
       - split; [done|]. intros (src' & packets & [= <-] & E & _).
         assert (Hf : ∃ e, (extract fs st src t0).2 = inl e)
           by (apply extract_fails; by rewrite Hfs).
         destruct Hf as [e He]. congruence.
       - auto. }
  pose proof (run_request_success s fs st src batch_size t0 t1) as Hrun.
  destruct (run_request s fs st src batch_size t0 t1) as [st' r].
  cbn [fst snd] in *.
  destruct (success r) eqn:Hr; cbn [fst snd].
  - split_and!; try done.
    + split; [done|]. intros (src' & [= <-] & ?). congruence.
    + by intros [?|?].
    + split; [|done]. intros _.
      destruct Hrun as [Hrun _]. destruct (Hrun eq_refl) as (packets & E & Hb).
      exists src, packets. done.
    + auto.
  - split_and!; try done.
    + split; [done|]. intros (src' & [= <-] & ?). congruence.
    + by intros [?|?].
    + split; [done|]. intros (src' & packets & [= <-] & E & Hb).
      destruct Hrun as [_ Hrun]. discriminate Hrun. eauto.
    + auto.
Qed.

(** A capture with one packet, and as batch size nothing, [100], [null],
    ["100"], [100.0], [true], [false] and [0]. *)
Example process_pcap_batch_sizes :
  (λ b, (process_pcap Scenario.good_sink Scenario.disk init (Some "one.pcap") b 0 1).2.1)
    <$> [None; Some (JInt 100); Some JNull; Some (JString "100");
         Some (JFloat 100); Some (JBool true); Some (JBool false); Some (JInt 0)]
  = [200; 200; 500; 500; 500; 200; 500; 500]%nat.
Proof. by vm_compute. Qed.

End etl_api.

(** ** The live capture *)

Section packet_capture.
Import Scapy PacketCapture.

(** Once the stop event is set the handler drops every packet. *)
Lemma handle_all_stopped limit c ps :
  stop_event c = true → handle_all limit c ps = c.
Proof.
  intros Hstop. unfold handle_all.
  induction ps as [|p ps IH]; [done|]. cbn [foldl].
  unfold packet_handler at 2. by rewrite Hstop.
Qed.

(** The handler without a limit ([None] or [0]) keeps every packet. *)
Lemma handle_all_unlimited limit ps : ∀ c,
  limit = None ∨ limit = Some 0%nat → stop_event c = false →
  let c' := handle_all limit c ps in
  captured_packets c' = captured_packets c ++ ps
  ∧ packet_count (capture_stats c')
    = (packet_count (capture_stats c) + length ps)%nat
  ∧ bytes_captured (capture_stats c')
    = (bytes_captured (capture_stats c) + sum_list (len <$> ps))%nat
  ∧ stop_event c' = false
  ∧ is_capturing c' = is_capturing c
  ∧ start_time (capture_stats c') = start_time (capture_stats c).
Proof.
  intros c Hlimit. revert c.
  induction ps as [|p ps IH]; intros c Hstop; cbn zeta.
  { cbn. rewrite app_nil_r. split_and!; try done; lia. }
  unfold handle_all. cbn [foldl]. fold (handle_all limit (packet_handler limit c p) ps).
  assert (Hstep : packet_handler limit c p
                  = Build (is_capturing c) false (captured_packets c ++ [p])
                          (Stats (start_time (capture_stats c))
                                 (S (packet_count (capture_stats c)))
                                 (bytes_captured (capture_stats c) + len p)
                                 (interface (capture_stats c))
                                 (filter (capture_stats c)))).
  { unfold packet_handler. rewrite Hstop. by destruct Hlimit as [->| ->]. }
  rewrite Hstep.
  match goal with
  | |- context [handle_all limit ?c1 ps] =>
      destruct (IH c1 eq_refl) as (-> & -> & -> & -> & -> & ->)
  end.
  cbn.
  rewrite <-app_assoc. split_and!; try done; lia.
Qed.

(** The handler with a limit that is not reached yet keeps packets up to
    the limit, and sets the stop event on the packet that reaches it. *)
Lemma handle_all_limited n ps : ∀ c,
  stop_event c = false → (packet_count (capture_stats c) < n)%nat →
  let room := (n - packet_count (capture_stats c))%nat in
  let c' := handle_all (Some n) c ps in
  captured_packets c' = captured_packets c ++ take room ps
  ∧ packet_count (capture_stats c')
    = (packet_count (capture_stats c) + length (take room ps))%nat
  ∧ bytes_captured (capture_stats c')
    = (bytes_captured (capture_stats c) + sum_list (len <$> take room ps))%nat
  ∧ stop_event c' = bool_decide (room ≤ length ps)%nat
  ∧ is_capturing c' = is_capturing c
  ∧ start_time (capture_stats c') = start_time (capture_stats c).
Proof.
  induction ps as [|p ps IH]; intros c Hstop Hlt; cbn zeta.
  { rewrite take_nil. cbn. rewrite app_nil_r, bool_decide_eq_false_2 by lia.
    split_and!; try done; lia. }
  unfold handle_all. cbn [foldl].
  fold (handle_all (Some n) (packet_handler (Some n) c p) ps).
  set (k := packet_count (capture_stats c)) in *.
  assert (Hstep : packet_handler (Some n) c p
                  = Build (is_capturing c) (n <=? S k)%nat (captured_packets c ++ [p])
                          (Stats (start_time (capture_stats c)) (S k)
                                 (bytes_captured (capture_stats c) + len p)
                                 (interface (capture_stats c))
                                 (filter (capture_stats c)))).
  { unfold packet_handler. rewrite Hstop. fold k.
    rewrite orb_false_r. destruct n; [lia|]. done. }
  rewrite Hstep.
  destruct (n - k)%nat as [|room] eqn:Hroom; [lia|]. cbn [take length].
  destruct (Nat.leb_spec n (S k)) as [Hle|Hgt].
  - rewrite handle_all_stopped by done. cbn.
    assert (room = 0%nat) as -> by lia. rewrite take_0. cbn.
    rewrite bool_decide_eq_true_2 by lia. split_and!; try done; lia.
  - destruct (IH (Build (is_capturing c) false (captured_packets c ++ [p])
                        (Stats (start_time (capture_stats c)) (S k)
                               (bytes_captured (capture_stats c) + len p)
                               (interface (capture_stats c))
                               (filter (capture_stats c)))))
      as (-> & -> & -> & -> & -> & ->); [done|cbn; lia|].
    cbn. replace (n - S k)%nat with room by lia.
    rewrite <-app_assoc. split_and!; try done; try lia.
    apply bool_decide_ext. lia.
Qed.

(** X27. A capture started on an idle object, whatever a previous
    capture left in it, and the packets [sniff] hands to its handler.
    With a limit [n > 0] the buffer holds the first [n] packets and nothing
    else, and the stop event is set exactly when [n] packets have arrived;
    with no limit (or the limit 0) the buffer holds every packet.  In both
    cases [packet_count] is the length of the buffer and [bytes_captured]
    the total size of the packets in it. *)
Theorem handler_keeps_packets_up_to_limit
    (c0 : t) (interface filter : option string) (now : Q)
    (limit : option nat) (ps : list packet) :
  is_capturing c0 = false →
  let c := handle_all limit (start_capture c0 interface filter now).1 ps in
  captured_packets c
  = match limit with
    | Some (S n) => take (S n) ps
    | _ => ps
    end
  ∧ consistent c
  ∧ (stop_event c = true ↔ ∃ n, limit = Some (S n) ∧ (S n ≤ length ps)%nat)
  ∧ is_capturing c = true.
Proof.
  intros Hidle c. subst c. unfold start_capture. rewrite Hidle. cbn [fst].
  set (c1 := Build true false [] _).
  destruct limit as [[|n]|].
  - destruct (handle_all_unlimited (Some 0%nat) ps c1) as (Hc & Hn & Hb & Hs & Hi & _);
      [by right|done|].
    unfold consistent. rewrite Hc, Hn, Hb, Hs, Hi. cbn.
    split_and!; try done. split; [done|]. by intros (? & ? & _).
  - destruct (handle_all_limited (S n) ps c1) as (Hc & Hn & Hb & Hs & Hi & _);
      [done|cbn; lia|].
    unfold consistent. rewrite Hc, Hn, Hb, Hs, Hi. cbn [c1 captured_packets
      capture_stats packet_count bytes_captured is_capturing app].
    rewrite Nat.sub_0_r. split_and!; try done.
    rewrite bool_decide_eq_true. split; [eauto|]. by intros (? & [= <-] & ?).
  - destruct (handle_all_unlimited None ps c1) as (Hc & Hn & Hb & Hs & Hi & _);
      [by left|done|].
    unfold consistent. rewrite Hc, Hn, Hb, Hs, Hi. cbn.
    split_and!; try done. split; [done|]. by intros (? & ? & _).
Qed.

Lemma handler_keeps_packets_up_to_limit_witness :
  let ps := [Scenario.udp_packet; Scenario.tcp_packet 2; Scenario.tcp_packet 16] in
  let c := handle_all (Some 2%nat) (start_capture init None None 0).1 ps in
  captured_packets c = [Scenario.udp_packet; Scenario.tcp_packet 2]
  ∧ stop_event c = true.
Proof.
  intros ps c.
  destruct (handler_keeps_packets_up_to_limit init None None 0 (Some 2%nat) ps)
    as (Hc & _ & Hs & _); [reflexivity|].
  fold c in Hc, Hs. split; [exact Hc|].
  apply Hs. exists 1%nat. split; [reflexivity|]. cbn. lia.
Defined.

(** X28. The life of a capture.  While one is running, a second
    [start_capture] is refused and changes nothing.  [stop_capture] on a
    running capture reports the length of the buffer and the time since the
    start, and from then on the handler drops every packet and a second
    [stop_capture] is refused.  A capture that ended by itself (its limit
    reached, or [sniff] failed) is no longer "capturing": [stop_capture] is
    refused and changes nothing, so its packets are never saved, and the
    next [start_capture] empties the buffer. *)
Theorem capture_life_cycle
    (c : t) (interface filter : option string) (limit : option nat)
    (save_file : bool) (now : Q) (saved : string + string) (ps : list packet) :
  (is_capturing c = true →
     start_capture c interface filter now = (c, "error")
     ∧ ∀ name, saved = inr name →
         let out := stop_capture c save_file now saved in
         (∃ r, out.2 = inr (Some r)
               ∧ packets_captured r = length (captured_packets c)
               ∧ (∀ t0, start_time (capture_stats c) = Some t0 →
                    duration_seconds r = (now - t0)%Q)
               ∧ (filename r = Some name ↔ save_file = true ∧ captured_packets c ≠ []))
         ∧ handle_all limit out.1 ps = out.1
         ∧ stop_capture out.1 save_file now saved = (out.1, inr None))
  ∧ (let ended := capture_finished c in
     stop_capture ended save_file now saved = (ended, inr None)
     ∧ captured_packets (start_capture ended interface filter now).1 = []).
Proof.
  split.
  - intros Hcap. unfold start_capture. rewrite Hcap. split; [done|].
    intros name ->. cbn zeta. unfold stop_capture. rewrite Hcap. cbn [negb].
    cbn [captured_packets capture_stats].
    destruct save_file; cbn [andb].
    + case_bool_decide as Hnil; cbn [negb fst snd].
      * split_and!.
        -- eexists. split; [reflexivity|]. cbn. split_and!; [done| |].
           ++ by intros t0 ->.
           ++ split; [done|]. by intros [_ ?].
        -- by apply handle_all_stopped.
        -- done.
      * split_and!.
        -- eexists. split; [reflexivity|]. cbn. split_and!; [done| |done].
           by intros t0 ->.
        -- by apply handle_all_stopped.
        -- done.
    + cbn [fst snd]. split_and!.
      * eexists. split; [reflexivity|]. cbn. split_and!; [done| |].
        -- by intros t0 ->.
        -- split; [done|]. by intros [? _].
      * by apply handle_all_stopped.
      * done.
  - cbn zeta. split; [done|]. done.
Qed.

Lemma capture_life_cycle_witness :
  let c := handle_all None (start_capture init None None 10).1 [Scenario.udp_packet] in
  start_capture c None None 11 = (c, "error")
  ∧ ∃ r, (stop_capture c true 12 (inr "capture_20240101_000000.pcap")).2 = inr (Some r)
         ∧ packets_captured r = 1%nat
         ∧ duration_seconds r = (12 - 10)%Q.
Proof.
  intros c.
  destruct (capture_life_cycle c None None None true 12
              (inr "capture_20240101_000000.pcap") [])
    as [Hrun _].
  destruct Hrun as (Hstart & Hstop); [reflexivity|].
  split; [apply (capture_life_cycle c None None None true 11
                   (inr "capture_20240101_000000.pcap") []); reflexivity|].
  destruct (Hstop _ eq_refl) as ((r & Hr & Hn & Hd & _) & _).
  exists r. split; [exact Hr|]. split; [exact Hn|]. apply Hd. reflexivity.
Defined.

End packet_capture.
